(** * Fermat near-solution search: a shallow embedding of [fermat_utils.py]

    The module under study enumerates integer triples (a, b, c) that satisfy
    or nearly satisfy a^n + b^n = c^n.

    - Python [int] is unbounded and is embedded as [Z].
    - Python [float] is IEEE 754 binary64 and is embedded as [spec_float],
      with the operations of the Standard Library's executable specification
      at precision 53: division of ints, conversion of an int, square root,
      comparison and truncation are computed bit for bit.
    - The one operation IEEE 754 leaves open, the power [x ** (1/n)] of the
      C library, is a parameter of the model ([float_root]).
    - [np.sqrt] of an int goes through numpy's 64-bit integer scalars and
      raises [TypeError] on an int that fits neither int64 nor uint64.
    - Exceptions are a result type that the loops thread through.
    - The list of dicts handed to [pd.DataFrame] is a list of records; the
      dict [results] is a finite map.  Calls to [print] have no counterpart.

    The embedding covers exponents n >= 0, where [a ** n] stays in integer
    arithmetic (for n < 0 Python switches to floats); statements about a
    run with a free exponent carry 0 <= n.

    Two consumers of the module are embedded as well: the split of a
    table on its ['error'] column made by [fermat_visualization.py], and
    the menu of [run_fermat_project.py], as a function of the lines typed
    on standard input and of how the calls it makes end. *)

From Stdlib Require Import ZArith Lia Bool String Ascii List.
From Stdlib Require Import Floats.SpecFloat.
From stdpp Require Import base option list gmap.

Local Open Scope Z_scope.

(** ** Exceptions *)

Inductive exn : Type :=
  | ZeroDivisionError
  | OverflowError
  | ValueError
  | TypeError.

Inductive result (A : Type) : Type :=
  | Ok (x : A)
  | Raise (e : exn).

Arguments Ok {A} x.
Arguments Raise {A} e.

Definition rbind {A B : Type} (m : result A) (k : A -> result B) : result B :=
  match m with
  | Ok x => k x
  | Raise e => Raise e
  end.

Notation "'let*' x ':=' m 'in' k" := (rbind m (fun x => k))
  (at level 10, x name, m at level 100, k at level 200,
   format "'[v' 'let*'  x  :=  m  'in'  '/' k ']'").

(** [collect f l] runs the loop [for x in l: out.extend(f(x))], stopping at
    the first exception. *)
Fixpoint collect {A B : Type} (f : A -> result (list B)) (l : list A)
  : result (list B) :=
  match l with
  | [] => Ok []
  | x :: l' =>
      let* ys := f x in
      let* rest := collect f l' in
      Ok (ys ++ rest)
  end.

(** ** Binary64 *)

Module Float64.

Definition prec : Z := 53.
Definition emax : Z := 1024.

Definition float : Type := spec_float.

(** The literals [0.0], [0.1] and [1.0]. *)
Definition zero : float := S754_zero false.
Definition one_tenth : float := S754_finite false 7205759403792794 (-56).
Definition one : float := S754_finite false 4503599627370496 (-52).

Definition ltb (x y : float) : bool := SFltb x y.
Definition leb (x y : float) : bool := SFleb x y.

(** An integer read as a float operand with exponent 0; the mantissa is
    not yet rounded, the operation applied to it rounds once. *)
Definition of_mantissa (x : Z) : float :=
  match x with
  | Z0 => S754_zero false
  | Zpos m => S754_finite false m 0
  | Zneg m => S754_finite true m 0
  end.

(** [float(x)] for an int [x]: round to nearest even, [OverflowError]
    when the value does not fit. *)
Definition of_int (x : Z) : result float :=
  match binary_normalize prec emax x 0 false with
  | S754_infinity _ => Raise OverflowError
  | f => Ok f
  end.

(** [p / q] on ints: CPython returns the correctly rounded quotient,
    raises [ZeroDivisionError] for [q = 0] and [OverflowError] when the
    quotient is too large for a float. *)
Definition truediv (p q : Z) : result float :=
  if q =? 0 then Raise ZeroDivisionError
  else match SFdiv prec emax (of_mantissa p) (of_mantissa q) with
       | S754_infinity _ => Raise OverflowError
       | f => Ok f
       end.

(** [math.sqrt] / [np.sqrt] on a float: IEEE 754 square root. *)
Definition sqrt (x : float) : float := SFsqrt prec emax x.

(** [int(x)] for a float [x]: truncation toward zero. *)
Definition to_int (x : float) : result Z :=
  match x with
  | S754_zero _ => Ok 0
  | S754_infinity _ => Raise OverflowError
  | S754_nan => Raise ValueError
  | S754_finite s m e =>
      let v := match e with
               | Zneg _ => Z.shiftr (Zpos m) (- e)
               | _ => Z.shiftl (Zpos m) e
               end in
      Ok (if s then - v else v)
  end.

(** A float that is zero or finite, with sign bit [s]. *)
Definition finite_signed (s : bool) (x : float) : Prop :=
  match x with
  | S754_zero s' | S754_finite s' _ _ => s' = s
  | S754_infinity _ | S754_nan => False
  end.

(** A float that is not NaN, with sign bit [s]. *)
Definition signed (s : bool) (x : float) : Prop :=
  match x with
  | S754_zero s' | S754_finite s' _ _ | S754_infinity s' => s' = s
  | S754_nan => False
  end.

End Float64.

Import Float64.

(** ** Python helpers *)

(** [range(start, stop)] *)
Definition py_range (start stop : Z) : list Z := seqZ start (stop - start).

(** [itertools.product(xs, ys)]: the rightmost index advances fastest. *)
Definition product {A B : Type} (xs : list A) (ys : list B) : list (A * B) :=
  x ← xs; (pair x) <$> ys.

(** [for x in l: st = body(st, x)], stopping at the first exception. *)
Fixpoint for_each {S A : Type} (body : S -> A -> result S) (st : S) (l : list A)
  : result S :=
  match l with
  | [] => Ok st
  | x :: l' =>
      let* st' := body st x in
      for_each body st' l'
  end.

(** ** Error metrics *)

(** [abs(a**n + b**n - c**n)] *)
Definition fermat_difference (a b c n : Z) : Z :=
  Z.abs (a ^ n + b ^ n - c ^ n).

(** [abs(a**n + b**n - c**n) / c**n] *)
Definition fermat_relative_error (a b c n : Z) : result float :=
  truediv (Z.abs (a ^ n + b ^ n - c ^ n)) (c ^ n).

(** ** Result rows *)

(** A row of the per-exponent table built by [generate_test_cases].  The
    [error] entry is the int of [fermat_difference], or the literal [0.0]
    of the exact pass, here the integer 0. *)
Record row : Type := mk_row {
  row_a : Z;
  row_b : Z;
  row_c : Z;
  row_error : Z;
  row_relative_error : float;
  row_n : Z
}.

(** A dict appended by [find_near_solutions]; it has no ['n'] entry. *)
Record near_solution : Type := mk_near_solution {
  near_a : Z;
  near_b : Z;
  near_c : Z;
  near_error : Z;
  near_relative_error : float
}.

(** [c = int(np.sqrt(c_squared))].  numpy first makes an array scalar of
    the Python int: an int64 or a uint64 when the value fits, which
    [np.sqrt] converts to binary64 (round to nearest even) before taking
    the IEEE square root; [int] then truncates.  An int outside
    [-2^63, 2^64) becomes an object, for which [np.sqrt] has no loop: the
    call raises [TypeError]. *)
Definition sqrt_candidate (c_squared : Z) : result Z :=
  if (c_squared <? - 2 ^ 63) || (2 ^ 64 <=? c_squared) then Raise TypeError
  else
    let* x := of_int c_squared in
    to_int (sqrt x).

(** Body of the two nested loops of the n = 2 pass of
    [generate_test_cases]. *)
Definition exact_row (max_value n a b : Z) : result (list row) :=
  let c_squared := a ^ 2 + b ^ 2 in
  let* c := sqrt_candidate c_squared in
  if (c ^ 2 =? c_squared) && (c <=? max_value)
  then Ok [mk_row a b c 0 zero n]
  else Ok [].

(** The n = 2 pass: [for a in range(1, max_value + 1):
    for b in range(a, max_value + 1): ...]. *)
Definition exact_solutions (max_value n : Z) : result (list row) :=
  collect (fun a =>
    collect (fun b => exact_row max_value n a b)
            (py_range a (max_value + 1)))
    (py_range 1 (max_value + 1)).

Section Search.

(** [float_root s n] stands for [int(s ** (1/n))] once [1/n] and
    [float(s)] have been computed.  The power is the C library's [pow],
    which IEEE 754 does not pin down bit for bit, so the value is left
    unconstrained: what is proved below holds for whatever integer the
    library call yields. *)
Variable float_root : Z -> Z -> Z.

(** [int((a**n + b**n)**(1/n))] with [s = a**n + b**n]. *)
Definition root_candidate (s n : Z) : result Z :=
  let* y := truediv 1 n in
  let* x := of_int s in
  Ok (float_root s n).

(** Lines 70-88 of [generate_test_cases]: the better of the two
    bracketing candidates, [None] for [continue]. *)
Definition select_candidate (n a b : Z) : result (option (Z * Z * float)) :=
  let* c_low := root_candidate (a ^ n + b ^ n) n in
  let c_high := c_low + 1 in
  let error_low := fermat_difference a b c_low n in
  let error_high := fermat_difference a b c_high n in
  if (error_low <=? error_high) && (0 <? c_low) then
    let* rel_error := fermat_relative_error a b c_low n in
    Ok (Some (c_low, error_low, rel_error))
  else if 0 <? c_high then
    let* rel_error := fermat_relative_error a b c_high n in
    Ok (Some (c_high, error_high, rel_error))
  else Ok None.

(** Body of the grid loop: selection, then the n > 2 threshold. *)
Definition grid_row (n : Z) (ab : Z * Z) : result (list row) :=
  let '(a, b) := ab in
  let* sel := select_candidate n a b in
  match sel with
  | None => Ok []
  | Some (c, error, rel_error) =>
      if (2 <? n) && ltb one_tenth rel_error then Ok []
      else Ok [mk_row a b c error rel_error n]
  end.

Definition grid_rows (max_value n : Z) : result (list row) :=
  let limit := Z.min max_value 30 in
  collect (grid_row n)
          (product (py_range 1 (limit + 1)) (py_range 1 (limit + 1))).

(** Body of [for n in n_values]: the list [data] at the point where it
    becomes [results[n]]. *)
Definition generate_data (max_value n : Z) : result (list row) :=
  let* data := grid_rows max_value n in
  if n =? 2 then
    let* exact := exact_solutions max_value n in
    Ok (data ++ exact)
  else Ok data.

Definition generate_test_cases (max_value : Z) (n_values : list Z)
  : result (gmap Z (list row)) :=
  for_each (fun results n =>
              let* data := generate_data max_value n in
              Ok (<[n := data]> results))
           ∅ n_values.

(** Body of [for c in c_candidates] in [find_near_solutions]. *)
Definition near_row (max_value n : Z) (error_threshold : float) (a b c : Z)
  : result (list near_solution) :=
  if (c <=? 0) || (max_value <? c) then Ok []
  else
    let error := fermat_difference a b c n in
    let* rel_error := fermat_relative_error a b c n in
    if leb rel_error error_threshold
    then Ok [mk_near_solution a b c error rel_error]
    else Ok [].

Definition find_near_solutions (max_value n : Z) (error_threshold : float)
  : result (list near_solution) :=
  collect (fun a =>
    collect (fun b =>
      let* c_approx := root_candidate (a ^ n + b ^ n) n in
      let c_candidates := [c_approx; c_approx + 1] in
      collect (near_row max_value n error_threshold a b) c_candidates)
      (py_range 1 (max_value + 1)))
    (py_range 1 (max_value + 1)).

End Search.

(** * Consumers of the tables ([fermat_visualization.py])

    The plotting script takes the tables of [generate_test_cases] as
    pandas frames and splits them on the ['error'] column. *)

Module Visualization.

(** [df[df['error'] == 0]] on a frame [pd.DataFrame(data)]: the rows
    whose error is 0, in order.  A frame built from an empty list has no
    columns, so [df['error']] raises [KeyError], here [None]. *)
Definition exact (df : list row) : option (list row) :=
  match df with
  | [] => None
  | _ :: _ => Some (filter (fun r => row_error r = 0) df)
  end.

(** [df[df['error'] > 0]] *)
Definition approx (df : list row) : option (list row) :=
  match df with
  | [] => None
  | _ :: _ => Some (filter (fun r => 0 < row_error r) df)
  end.

(** [exact_count = len(df[df['error'] == 0])] in [main]. *)
Definition exact_count (df : list row) : option nat :=
  length <$> exact df.

(** The literals [0.5] and [50] (as a float). *)
Definition half : float := S754_finite false 4503599627370496 (-53).
Definition fifty : float := S754_finite false 7036874417766400 (-47).

(** [np.minimum(x, y)] on two floats: a NaN [x] is returned as it is,
    else [x] if [x < y], else [y]. *)
Definition minimum (x y : float) : float :=
  match x with
  | S754_nan => x
  | _ => if ltb x y then x else y
  end.

(** [1 - np.minimum(relative_error, 0.5) / 0.5], entry by entry: the
    column ['error_for_color'] of the interactive plot. *)
Definition error_for_color (relative_error : float) : float :=
  SFsub prec emax one (SFdiv prec emax (minimum relative_error half) half).

(** [50 * (1 - np.minimum(relative_error, 0.5) / 0.5)], entry by entry:
    the marker sizes [df_sizes] and [approx_sizes] of the scatter plot. *)
Definition df_sizes (relative_error : float) : float :=
  SFmul prec emax fifty (error_for_color relative_error).

End Visualization.

(** * The menu script ([run_fermat_project.py])

    A run reads lines from standard input, given as a list, and starts
    the two components.  Text written by [print] has no counterpart.
    [Menu] follows the run in which nobody presses Ctrl-C and the
    components return; [Session] below follows every run, up to the exit
    status of the script. *)

Module Menu.

(** What a run does besides printing: the components it starts and the
    pauses of [time.sleep]. *)
Inductive action : Type :=
  | RunVisualization
  | RunExplanation
  | Sleep (seconds : Z).

(** How a call can end other than by returning: [sys.exit(code)], or the
    [EOFError] of [input()] at the end of the input. *)
Inductive interrupt : Type :=
  | SystemExit (code : Z)
  | EOFError.

(** [str.lower()] on ASCII text. *)
Definition lower_ascii (c : ascii) : ascii :=
  let k := nat_of_ascii c in
  if (65 <=? k)%nat && (k <=? 90)%nat then ascii_of_nat (k + 32) else c.

Fixpoint lower (s : string) : string :=
  match s with
  | EmptyString => EmptyString
  | String c s' => String (lower_ascii c) (lower s')
  end.

Definition required_packages : list string :=
  ["numpy"%string; "matplotlib"%string; "plotly"%string; "pandas"%string].

(** The loop over [required_packages]; [installed p] tells whether
    [__import__(p)] succeeds. *)
Definition missing_packages (installed : string -> bool) : list string :=
  filter (fun p => installed p = false) required_packages.

(** [check_dependencies()]: the lines of standard input left to read
    when it returns, or the interrupt. *)
Definition check_dependencies (installed : string -> bool) (stdin : list string)
  : interrupt + list string :=
  match missing_packages installed with
  | [] => inr stdin
  | _ :: _ =>
      match stdin with
      | [] => inl EOFError
      | answer :: stdin' =>
          if String.eqb (lower answer) "s" then inr stdin'
          else inl (SystemExit 1)
      end
  end.

Definition run_visualization : list action := [RunVisualization].

Definition run_explanation : list action := [RunExplanation].

Definition run_all : list action :=
  [Sleep 1] ++ run_explanation ++ [Sleep 2] ++ run_visualization.

(** The [while True] loop of [main]: [print_menu] reads an option; unless
    it is ['0'], the chosen component runs and the pause prompt reads one
    more line. *)
Fixpoint main_loop (stdin : list string) : list action * (interrupt + unit) :=
  match stdin with
  | [] => ([], inl EOFError)
  | option :: stdin1 =>
      if String.eqb option "0" then ([], inr tt)
      else
        let actions :=
          if String.eqb option "1" then run_visualization
          else if String.eqb option "2" then run_explanation
          else if String.eqb option "3" then run_all
          else [] in
        match stdin1 with
        | [] => (actions, inl EOFError)
        | _ :: stdin2 =>
            let '(trace, r) := main_loop stdin2 in (actions ++ trace, r)
        end
  end.

Definition main (installed : string -> bool) (stdin : list string)
  : list action * (interrupt + unit) :=
  match check_dependencies installed stdin with
  | inl i => ([], inl i)
  | inr stdin' => main_loop stdin'
  end.

End Menu.

(** * The script with Ctrl-C and failing calls

    The user can press Ctrl-C at a prompt, and a component or
    [time.sleep] can raise: [ends turn a] tells how the call [a] made in
    turn [turn] of the loop ends.  The [__main__] block of the script
    turns what leaves [main] into the exit status. *)

Module Session.

Import Menu.

(** What a call of [input()] meets: a line, or Ctrl-C pressed at the
    prompt.  Past the end of the list the input is closed. *)
Inductive key : Type :=
  | Line (s : string)
  | CtrlC.

(** Exceptions, told apart as the script tells them apart:
    [SystemExit code] carries the exit status, [ImportError] is what the
    wrappers of the components catch, [OtherException] is any exception
    the script does not name. *)
Inductive exception : Type :=
  | KeyboardInterrupt
  | SystemExit (code : Z)
  | EOFError
  | ImportError
  | OtherException.

(** A piece of the run: the calls made, and the exception or the value
    it ends with. *)
Definition step (A : Type) : Type := list action * (exception + A).

Definition ret {A : Type} (x : A) : step A := ([], inr x).

Definition raise {A : Type} (e : exception) : step A := ([], inl e).

Definition bind {A B : Type} (m : step A) (k : A -> step B) : step B :=
  match m with
  | (calls, inl e) => (calls, inl e)
  | (calls, inr x) => let '(calls', r) := k x in (calls ++ calls', r)
  end.

(** A call of a component or of [time.sleep]; [ends a] is the exception
    it raises, if any. *)
Definition call (ends : action -> option exception) (a : action) : step unit :=
  ([a], match ends a with
        | Some e => inl e
        | None => inr tt
        end).

(** [try: ... except ImportError: print(...)] *)
Definition except_ImportError (m : step unit) : step unit :=
  match m with
  | (calls, inl ImportError) => (calls, inr tt)
  | _ => m
  end.

(** [input()] *)
Definition input (stdin : list key) : exception + string * list key :=
  match stdin with
  | [] => inl EOFError
  | CtrlC :: _ => inl KeyboardInterrupt
  | Line s :: stdin' => inr (s, stdin')
  end.

Definition check_dependencies (installed : string -> bool) (stdin : list key)
  : exception + list key :=
  match missing_packages installed with
  | [] => inr stdin
  | _ :: _ =>
      match input stdin with
      | inl e => inl e
      | inr (answer, stdin') =>
          if String.eqb (lower answer) "s" then inr stdin'
          else inl (SystemExit 1)
      end
  end.

Definition run_visualization (ends : action -> option exception) : step unit :=
  except_ImportError (call ends RunVisualization).

Definition run_explanation (ends : action -> option exception) : step unit :=
  except_ImportError (call ends RunExplanation).

Definition run_all (ends : action -> option exception) : step unit :=
  bind (call ends (Sleep 1)) (fun _ =>
  bind (run_explanation ends) (fun _ =>
  bind (call ends (Sleep 2)) (fun _ =>
  run_visualization ends))).

(** The [while True] loop of [main] from its turn number [turn] on:
    [print_menu] reads the option with [input()], the chosen component
    runs, the pause prompt reads one more line.  [ends turn a] tells how
    the call [a] made in that turn ends. *)
Fixpoint main_loop (ends : nat -> action -> option exception) (turn : nat)
    (stdin : list key) : step unit :=
  match stdin with
  | [] => raise EOFError
  | CtrlC :: _ => raise KeyboardInterrupt
  | Line option :: stdin1 =>
      if String.eqb option "0" then ret tt
      else
        bind (if String.eqb option "1" then run_visualization (ends turn)
              else if String.eqb option "2" then run_explanation (ends turn)
              else if String.eqb option "3" then run_all (ends turn)
              else ret tt)
             (fun _ =>
                match stdin1 with
                | [] => raise EOFError
                | CtrlC :: _ => raise KeyboardInterrupt
                | Line _ :: stdin2 => main_loop ends (S turn) stdin2
                end)
  end.

Definition main (installed : string -> bool)
    (ends : nat -> action -> option exception) (stdin : list key) : step unit :=
  match check_dependencies installed stdin with
  | inl e => raise e
  | inr stdin' => main_loop ends 0 stdin'
  end.


End Session.

(** ** A reference root

    [floor_root s n] is the largest r >= 0 with r ^ n <= s, built bit by
    bit ([floor_root_spec] below).  It is the value of [int(s ** (1/n))]
    whenever the computed power and the real root have the same integer
    part. *)
Definition floor_root (s n : Z) : Z :=
  fold_left (fun r i => let r' := r + 2 ^ Z.of_nat i in
                        if r' ^ n <=? s then r' else r)
            (rev (seq 0 (Z.to_nat (Z.log2 s + 1)))) 0.

(** Below [exact_bound] = 2^26 every a^2 + b^2 of the exact pass is under
    2^53 and is an exactly representable binary64 number; statements about
    a whole batch that returns carry this bound. *)
Definition exact_bound : Z := 67108864.

(** [np.sqrt] takes the sums a^2 + b^2 of the exact pass as long as they
    are below 2^64.  [sqrt_bound] is the least max_value whose pass meets
    a larger one: 2 * 3037000499^2 < 2^64 <= 2 * 3037000500^2. *)
Definition sqrt_bound : Z := 3037000500.

(** ** Tables of concrete runs

    The runs below use [floor_root] for the library power.  At every pair
    they visit, the two candidates it yields are those of CPython's float
    arithmetic. *)

(** [generate_test_cases(2, [2])[2]] *)
Definition squares_upto_2 : list row :=
  [ mk_row 1 1 1 1 one 2;
    mk_row 1 2 2 1 (S754_finite false 4503599627370496 (-54)) 2;
    mk_row 2 1 2 1 (S754_finite false 4503599627370496 (-54)) 2;
    mk_row 2 2 3 1 (S754_finite false 8006399337547548 (-56)) 2 ].

(** [generate_test_cases(3, [3])[3]] *)
Definition cubes_upto_3 : list row :=
  [ mk_row 1 3 3 1 (S754_finite false 5337599558365032 (-57)) 3;
    mk_row 3 1 3 1 (S754_finite false 5337599558365032 (-57)) 3 ].

(** [generate_test_cases(5, [2])[2]]: the 25 grid rows, then the one row of
    the exact pass. *)
Definition squares_upto_5 : list row :=
  [ mk_row 1 1 1 1 one 2;
    mk_row 1 2 2 1 (S754_finite false 4503599627370496 (-54)) 2;
    mk_row 1 3 3 1 (S754_finite false 8006399337547548 (-56)) 2;
    mk_row 1 4 4 1 (S754_finite false 4503599627370496 (-56)) 2;
    mk_row 1 5 5 1 (S754_finite false 5764607523034235 (-57)) 2;
    mk_row 2 1 2 1 (S754_finite false 4503599627370496 (-54)) 2;
    mk_row 2 2 3 1 (S754_finite false 8006399337547548 (-56)) 2;
    mk_row 2 3 4 3 (S754_finite false 6755399441055744 (-55)) 2;
    mk_row 2 4 4 4 (S754_finite false 4503599627370496 (-54)) 2;
    mk_row 2 5 5 4 (S754_finite false 5764607523034235 (-55)) 2;
    mk_row 3 1 3 1 (S754_finite false 8006399337547548 (-56)) 2;
    mk_row 3 2 4 3 (S754_finite false 6755399441055744 (-55)) 2;
    mk_row 3 3 4 2 (S754_finite false 4503599627370496 (-55)) 2;
    mk_row 3 4 5 0 zero 2;
    mk_row 3 5 6 2 (S754_finite false 8006399337547548 (-57)) 2;
    mk_row 4 1 4 1 (S754_finite false 4503599627370496 (-56)) 2;
    mk_row 4 2 4 4 (S754_finite false 4503599627370496 (-54)) 2;
    mk_row 4 3 5 0 zero 2;
    mk_row 4 4 6 4 (S754_finite false 8006399337547548 (-56)) 2;
    mk_row 4 5 6 5 (S754_finite false 5003999585967218 (-55)) 2;
    mk_row 5 1 5 1 (S754_finite false 5764607523034235 (-57)) 2;
    mk_row 5 2 5 4 (S754_finite false 5764607523034235 (-55)) 2;
    mk_row 5 3 6 2 (S754_finite false 8006399337547548 (-57)) 2;
    mk_row 5 4 6 5 (S754_finite false 5003999585967218 (-55)) 2;
    mk_row 5 5 7 1 (S754_finite false 5882252574524729 (-58)) 2;
    mk_row 3 4 5 0 zero 2 ].

(** [find_near_solutions(3, 2, 1.0)]: for the pair (2, 2) both candidates,
    2 and 3, pass the threshold and both are returned. *)
Definition near_squares_upto_3 : list near_solution :=
  [ mk_near_solution 1 1 1 1 one;
    mk_near_solution 1 1 2 2 (S754_finite false 4503599627370496 (-53));
    mk_near_solution 1 2 2 1 (S754_finite false 4503599627370496 (-54));
    mk_near_solution 1 2 3 4 (S754_finite false 8006399337547548 (-54));
    mk_near_solution 1 3 3 1 (S754_finite false 8006399337547548 (-56));
    mk_near_solution 2 1 2 1 (S754_finite false 4503599627370496 (-54));
    mk_near_solution 2 1 3 4 (S754_finite false 8006399337547548 (-54));
    mk_near_solution 2 2 2 4 one;
    mk_near_solution 2 2 3 1 (S754_finite false 8006399337547548 (-56));
    mk_near_solution 2 3 3 4 (S754_finite false 8006399337547548 (-54));
    mk_near_solution 3 1 3 1 (S754_finite false 8006399337547548 (-56));
    mk_near_solution 3 2 3 4 (S754_finite false 8006399337547548 (-54)) ].

(** [find_near_solutions(3, 3, 0.1)] *)
Definition near_cubes_upto_3 : list near_solution :=
  [ mk_near_solution 1 3 3 1 (S754_finite false 5337599558365032 (-57));
    mk_near_solution 3 1 3 1 (S754_finite false 5337599558365032 (-57)) ].

(** * Facts about the loop combinators *)

Section LoopFacts.

Context {A B : Type}.
Implicit Types (f : A -> result (list B)) (l : list A) (out : list B).

Lemma rbind_Ok {X Y : Type} (m : result X) (k : X -> result Y) (y : Y) :
  rbind m k = Ok y -> exists x, m = Ok x /\ k x = Ok y.
Proof. destruct m as [x|e]; simpl; [eauto | discriminate]. Qed.

(** A loop that returns has run every iteration to completion, and its
    output is the concatenation of the per-iteration outputs, in order. *)
Lemma collect_Ok_inv f l out :
  collect f l = Ok out ->
  exists yss, Forall2 (fun x ys => f x = Ok ys) l yss /\ out = mjoin yss.
Proof.
  revert out. induction l as [|x l IH]; simpl; intros out H.
  - injection H as <-. exists []. split; [constructor | reflexivity].
  - apply rbind_Ok in H as (ys & Hx & H).
    apply rbind_Ok in H as (rest & Hrest & H).
    injection H as <-.
    destruct (IH _ Hrest) as (yss & HF & ->).
    exists (ys :: yss). split; [constructor; assumption | reflexivity].
Qed.

Lemma collect_elem f l out y :
  collect f l = Ok out ->
  y ∈ out <-> exists x ys, x ∈ l /\ f x = Ok ys /\ y ∈ ys.
Proof.
  intros H. apply collect_Ok_inv in H as (yss & HF & ->).
  rewrite list_elem_of_join. split.
  - intros (ys & Hy & Hys).
    apply list_elem_of_lookup in Hys as (i & Hi).
    destruct (Forall2_lookup_r _ _ _ _ _ HF Hi) as (x & Hx & Hfx).
    exists x, ys. split; [|split]; try assumption.
    apply list_elem_of_lookup. eauto.
  - intros (x & ys & Hx & Hfx & Hy).
    apply list_elem_of_lookup in Hx as (i & Hi).
    destruct (Forall2_lookup_l _ _ _ _ _ HF Hi) as (ys' & Hys' & Hfx').
    rewrite Hfx in Hfx'. injection Hfx' as <-.
    exists ys. split; [assumption|]. apply list_elem_of_lookup. eauto.
Qed.

Lemma collect_each_Ok f l out x :
  collect f l = Ok out -> x ∈ l -> exists ys, f x = Ok ys.
Proof.
  intros H Hx. apply collect_Ok_inv in H as (yss & HF & _).
  apply list_elem_of_lookup in Hx as (i & Hi).
  destruct (Forall2_lookup_l _ _ _ _ _ HF Hi) as (ys & _ & Hfx). eauto.
Qed.

Lemma collect_total f l :
  (forall x, x ∈ l -> exists ys, f x = Ok ys) ->
  exists out, collect f l = Ok out.
Proof.
  induction l as [|x l IH]; simpl; intros H; [eauto|].
  destruct (H x) as (ys & ->); [left|]. simpl.
  destruct IH as (rest & ->); [intros; apply H; right; assumption|].
  simpl. eauto.
Qed.

(** When an iteration can raise only an exception that does not depend
    on a parameter of the body, changing the parameter keeps the loop
    running. *)
Lemma collect_mono f g l out :
  (forall x ys, x ∈ l -> f x = Ok ys ->
                exists zs, g x = Ok zs /\ forall y, y ∈ ys -> y ∈ zs) ->
  collect f l = Ok out ->
  exists out', collect g l = Ok out' /\ forall y, y ∈ out -> y ∈ out'.
Proof.
  revert out. induction l as [|x l IH]; simpl; intros out Hfg H.
  - injection H as <-. eauto.
  - apply rbind_Ok in H as (ys & Hx & H).
    apply rbind_Ok in H as (rest & Hrest & H). injection H as <-.
    destruct (Hfg x ys) as (zs & -> & Hsub); [left | assumption |].
    destruct (IH rest) as (rest' & -> & Hsub');
      [intros; apply Hfg; [right|]; assumption | assumption |].
    simpl. eexists. split; [reflexivity|].
    intros y. rewrite !elem_of_app. intros [?|?]; auto.
Qed.

(** A loop whose iteration on [x] emits at most one item, keyed by [x],
    emits keys in the order of the iteration. *)
Lemma collect_keys_sublist {K : Type} (key : B -> K) (k : A -> K) f l out :
  (forall x ys, x ∈ l -> f x = Ok ys ->
                ys = [] \/ exists y, ys = [y] /\ key y = k x) ->
  collect f l = Ok out ->
  sublist (key <$> out) (k <$> l).
Proof.
  revert out. induction l as [|x l IH]; simpl; intros out Hf H.
  - injection H as <-. constructor.
  - apply rbind_Ok in H as (ys & Hx & H).
    apply rbind_Ok in H as (rest & Hrest & H). injection H as <-.
    assert (IH' : sublist (key <$> rest) (k <$> l)).
    { apply IH; [|assumption]. intros; eapply Hf; [right|]; eassumption. }
    destruct (Hf x ys) as [-> | (y & -> & Hk)]; [left | assumption | |].
    + simpl. apply sublist_cons. exact IH'.
    + simpl. rewrite Hk. apply sublist_skip. exact IH'.
Qed.

(** A loop whose iteration on [x] emits items with keys among [g x], in
    that order, emits keys in the order of the nested iteration. *)
Lemma collect_keys_sublist_bind {K : Type} (key : B -> K) (g : A -> list K)
    f l out :
  (forall x ys, x ∈ l -> f x = Ok ys -> sublist (key <$> ys) (g x)) ->
  collect f l = Ok out ->
  sublist (key <$> out) (l ≫= g).
Proof.
  revert out. induction l as [|x l IH]; simpl; intros out Hf H.
  - injection H as <-. constructor.
  - apply rbind_Ok in H as (ys & Hx & H).
    apply rbind_Ok in H as (rest & Hrest & H). injection H as <-.
    rewrite fmap_app. apply sublist_app.
    + apply Hf; [left | assumption].
    + apply IH; [|assumption]. intros; eapply Hf; [right|]; eassumption.
Qed.




End LoopFacts.

Section DictFacts.

Context {V : Type}.
Variable gen : Z -> result V.

(** The body of [for n in n_values: ...; results[n] = data]. *)
Local Abbreviation body :=
  (fun (results : gmap Z V) (n : Z) =>
     let* data := gen n in Ok (<[n := data]> results)).

Lemma for_each_insert_lookup (ns : list Z) (acc m : gmap Z V) (n : Z) (v : V) :
  for_each body acc ns = Ok m ->
  m !! n = Some v ->
  (n ∈ ns /\ gen n = Ok v) \/ ((n ∉ ns) /\ acc !! n = Some v).
Proof.
  revert acc. induction ns as [|k ns IH]; simpl; intros acc H Hm.
  - injection H as <-. right. split; [apply not_elem_of_nil | assumption].
  - apply rbind_Ok in H as (acc' & Hk & H).
    apply rbind_Ok in Hk as (data & Hgen & Hk).
    injection Hk as <-.
    destruct (IH _ H Hm) as [[Hin Hg] | [Hnin Hacc]].
    + left. split; [right|]; assumption.
    + destruct (decide (k = n)) as [->|Hne].
      * rewrite lookup_insert_eq in Hacc. injection Hacc as <-.
        left. split; [left | assumption].
      * rewrite lookup_insert_ne in Hacc by assumption.
        right. split; [|assumption].
        rewrite elem_of_cons. intros [->|?]; congruence.
Qed.

Lemma for_each_insert_total (ns : list Z) (acc : gmap Z V) :
  (forall n, n ∈ ns -> exists v, gen n = Ok v) ->
  exists m, for_each body acc ns = Ok m /\
            forall n, n ∈ ns -> exists v, gen n = Ok v /\ m !! n = Some v.
Proof.
  revert acc. induction ns as [|k ns IH]; simpl; intros acc H.
  - exists acc. split; [reflexivity|]. intros n Hn. inversion Hn.
  - destruct (H k) as (v & Hv); [left|].
    rewrite Hv. simpl.
    destruct (IH (<[k := v]> acc)) as (m & Hm & Hlook);
      [intros; apply H; right; assumption|].
    exists m. split; [assumption|].
    intros n Hn. destruct (decide (n ∈ ns)) as [Hin|Hnin]; [auto|].
    apply elem_of_cons in Hn as [->|?]; [|contradiction].
    exists v. split; [assumption|].
    destruct (m !! k) as [w|] eqn:Hw.
    + destruct (for_each_insert_lookup _ _ _ _ _ Hm Hw) as [[? _]|[_ Hacc]];
        [contradiction|].
      rewrite lookup_insert_eq in Hacc. congruence.
    + exfalso.
      assert (Hmono : forall ns' acc' m', for_each body acc' ns' = Ok m' ->
                        is_Some (acc' !! k) -> is_Some (m' !! k)).
      { clear. induction ns' as [|j ns' IH']; simpl; intros acc' m' H' Hs.
        - injection H' as <-. assumption.
        - apply rbind_Ok in H' as (acc'' & Hj & H').
          apply rbind_Ok in Hj as (d & _ & Hj).
          injection Hj as <-. apply (IH' _ _ H').
          destruct (decide (j = k)) as [->|Hne];
            [rewrite lookup_insert_eq | rewrite lookup_insert_ne by assumption];
            eauto. }
      destruct (Hmono _ _ _ Hm) as [w' Hw']; [rewrite lookup_insert_eq; eauto|].
      congruence.
Qed.

Lemma for_each_insert_each_Ok (ns : list Z) (acc m : gmap Z V) (n : Z) :
  for_each body acc ns = Ok m -> n ∈ ns -> exists v, gen n = Ok v.
Proof.
  revert acc. induction ns as [|k ns IH]; simpl; intros acc H Hn.
  - inversion Hn.
  - apply rbind_Ok in H as (acc' & Hk & H).
    apply rbind_Ok in Hk as (data & Hgen & _).
    apply elem_of_cons in Hn as [->|Hn]; eauto.
Qed.


End DictFacts.

(** * Facts about binary64 *)

Module Float64Facts.

Lemma shr_1_nonneg mrs : 0 <= shr_m mrs -> 0 <= shr_m (shr_1 mrs).
Proof.
  destruct mrs as [[|[p|p|]|p] r s]; simpl; intros H; lia.
Qed.

Lemma iter_shr_1_nonneg p : forall mrs,
  0 <= shr_m mrs -> 0 <= shr_m (SpecFloat.iter_pos shr_1 p mrs).
Proof.
  induction p as [p IH|p IH|]; simpl; intros mrs H.
  - apply IH, IH, shr_1_nonneg, H.
  - apply IH, IH, H.
  - apply shr_1_nonneg, H.
Qed.

Lemma shr_fexp_nonneg m e l :
  0 <= m -> 0 <= shr_m (fst (shr_fexp prec emax m e l)).
Proof.
  intros H. unfold shr_fexp, shr.
  assert (H0 : 0 <= shr_m (shr_record_of_loc m l))
    by (destruct l as [|[]]; exact H).
  destruct (fexp prec emax (Zdigits2 m + e) - e); simpl;
    auto using iter_shr_1_nonneg.
Qed.

Lemma round_nearest_even_nonneg m l : 0 <= m -> 0 <= round_nearest_even m l.
Proof.
  intros H. destruct l as [|[]]; simpl; try lia.
  destruct (Z.even m); lia.
Qed.

Lemma binary_round_aux_signed s m e l :
  0 <= m -> signed s (binary_round_aux prec emax s m e l).
Proof.
  intros H. unfold binary_round_aux.
  pose proof (shr_fexp_nonneg m e l H) as H1.
  destruct (shr_fexp prec emax m e l) as [mrs' e']. simpl in H1.
  pose proof (shr_fexp_nonneg _ e' loc_Exact
                (round_nearest_even_nonneg _ (loc_of_shr_record mrs') H1)) as H2.
  destruct (shr_fexp prec emax _ e' loc_Exact) as [mrs'' e''].
  simpl in H2. destruct (shr_m mrs'') as [|p|p]; simpl; [reflexivity| |lia].
  destruct (e'' <=? emax - prec); reflexivity.
Qed.

(** Dividing a non-negative int by a positive one gives [+0.0] or a
    positive finite float. *)
Lemma truediv_nonneg p q r :
  0 <= p -> 0 < q -> truediv p q = Ok r -> finite_signed false r.
Proof.
  intros Hp Hq. unfold truediv.
  destruct (Z.eqb_spec q 0) as [->|_]; [lia|].
  destruct q as [|q|q]; try lia.
  destruct p as [|p|p]; try lia; simpl.
  - intros [= <-]. reflexivity.
  - destruct (SFdiv_core_binary prec emax (Z.pos p) 0 (Z.pos q) 0)
      as [[mz ez] lz] eqn:Hcore.
    assert (Hmz : 0 <= mz).
    { unfold SFdiv_core_binary in Hcore.
      set (m' := match _ - _ - _ with Z0 => _ | Zpos _ => _ | Zneg _ => _ end)
        in Hcore.
      assert (0 <= m').
      { subst m'. destruct (_ - _ - _); try lia. apply Z.shiftl_nonneg. lia. }
      pose proof (Z.div_pos m' (Z.pos q)) as Hd.
      unfold Z.div in Hd. destruct (Z.div_eucl m' (Z.pos q)) as [q0 r0].
      injection Hcore as <- _ _. apply Hd; lia. }
    pose proof (binary_round_aux_signed false mz ez lz Hmz) as Hs.
    destruct (binary_round_aux prec emax false mz ez lz);
      simpl in Hs; try contradiction; intros [= <-]; exact Hs.
Qed.

(** Exceptions of an int division: only a zero divisor or an overflow. *)
Lemma truediv_Raise p q e :
  truediv p q = Raise e ->
  (e = ZeroDivisionError /\ q = 0) \/ (e = OverflowError /\ q <> 0).
Proof.
  unfold truediv. destruct (Z.eqb_spec q 0) as [->|Hq].
  - intros [= <-]. left. split; reflexivity.
  - destruct (SFdiv _ _ _ _); try discriminate.
    intros [= <-]. right. split; [reflexivity | assumption].
Qed.

(** ** Comparison *)

Lemma SFcompare_antisym x y :
  SFcompare y x = CompOpp <$> SFcompare x y.
Proof.
  destruct x as [sx|sx| |sx mx ex], y as [sy|sy| |sy my ey];
    try destruct sx; try destruct sy; try reflexivity; simpl;
    rewrite (Z.compare_antisym ex ey);
    destruct (ex ?= ey); simpl; try reflexivity;
    change (Pos.compare_cont Eq ?a ?b) with (Pos.compare a b);
    rewrite (Pos.compare_antisym mx my);
    destruct (mx ?= my)%positive; reflexivity.
Qed.

Lemma ltb_false_leb x y :
  x <> S754_nan -> y <> S754_nan -> ltb y x = false -> leb x y = true.
Proof.
  unfold ltb, leb, SFltb, SFleb. intros Hx Hy.
  rewrite (SFcompare_antisym x y).
  destruct (SFcompare x y) as [[]|] eqn:Hc; simpl; try congruence.
  destruct x, y; try congruence; discriminate.
Qed.

Lemma leb_zero_nonneg r : signed false r -> leb zero r = true.
Proof. destruct r as [s|s| |s m e]; simpl; intros H; subst; tauto. Qed.

Ltac compare_cases :=
  repeat match goal with
    | |- context [(?a ?= ?b)%Z] => destruct (Z.compare_spec a b)
    | |- context [(?a ?= ?b)%positive] => destruct (Pos.compare_spec a b)
    end.

(** [<=] on floats is transitive. *)
Lemma leb_trans x y z : leb x y = true -> leb y z = true -> leb x z = true.
Proof.
  unfold leb, SFleb, SFcompare.
  destruct x as [[]|[]| |[] mx ex], y as [[]|[]| |[] my ey],
           z as [[]|[]| |[] mz ez];
    try (intros; reflexivity); try (intros; discriminate);
    change (Pos.compare_cont Eq ?a ?b) with (Pos.compare a b);
    compare_cases; simpl; intros; subst;
    try reflexivity; try discriminate; lia.
Qed.

(** ** Digits and shifts *)

Lemma digits2_pos_size p : digits2_pos p = Pos.size p.
Proof. induction p; simpl; congruence. Qed.

Lemma Zdigits2_log2 p : Zdigits2 (Zpos p) = Z.log2 (Zpos p) + 1.
Proof.
  simpl. rewrite digits2_pos_size. destruct p; simpl; lia.
Qed.

(** [d] binary digits: 2^(d-1) <= x < 2^d. *)
Lemma Zdigits2_bounds p :
  2 ^ (Zdigits2 (Zpos p) - 1) <= Zpos p < 2 ^ Zdigits2 (Zpos p).
Proof.
  rewrite Zdigits2_log2. replace (Z.log2 (Z.pos p) + 1 - 1) with (Z.log2 (Z.pos p)) by lia.
  apply Z.log2_spec. lia.
Qed.

Lemma Zdigits2_unique p d :
  2 ^ (d - 1) <= Zpos p < 2 ^ d -> Zdigits2 (Zpos p) = d.
Proof.
  intros H. rewrite Zdigits2_log2.
  assert (0 <= d - 1).
  { destruct (Z.neg_nonneg_cases (d - 1)) as [Hn|]; [|assumption].
    rewrite (Z.pow_neg_r 2 (d - 1) Hn) in H.
    assert (d <= 0) by lia.
    assert (2 ^ d <= 1).
    { destruct (Z.eq_dec d 0) as [->|]; [simpl; lia|]. rewrite Z.pow_neg_r; lia. }
    lia. }
  replace d with (d - 1 + 1) in H at 2 by lia.
  rewrite (Z.log2_unique (Zpos p) (d - 1)); lia.
Qed.

Lemma pos_iter_xO m n : Zpos (Pos.iter xO m n) = Zpos m * 2 ^ Zpos n.
Proof.
  induction n as [|n IH] using Pos.peano_ind.
  - simpl. lia.
  - rewrite Pos.iter_succ, Pos2Z.inj_succ, Z.pow_succ_r by lia.
    rewrite Pos2Z.inj_xO, IH. lia.
Qed.

Lemma loc_of_shr_record_of_loc m l :
  loc_of_shr_record (shr_record_of_loc m l) = l.
Proof. destruct l as [|[]]; reflexivity. Qed.

Lemma shr_m_record_of_loc m l : shr_m (shr_record_of_loc m l) = m.
Proof. destruct l as [|[]]; reflexivity. Qed.

Lemma shr_fexp_canonical m e l :
  2 ^ 52 <= Zpos m < 2 ^ 53 -> -1074 <= e ->
  shr_fexp prec emax (Zpos m) e l = (shr_record_of_loc (Zpos m) l, e).
Proof.
  intros Hm He. unfold shr_fexp.
  rewrite (Zdigits2_unique m 53) by exact Hm.
  unfold fexp, SpecFloat.emin, prec, emax.
  replace (Z.max (53 + e - 53) (3 - 1024 - 53) - e) with 0 by lia.
  reflexivity.
Qed.

Lemma shr_fexp_carry e :
  -1074 <= e ->
  shr_fexp prec emax 9007199254740992 e loc_Exact =
  (Build_shr_record 4503599627370496 false false, e + 1).
Proof.
  intros He. unfold shr_fexp.
  change (Zdigits2 9007199254740992) with 54.
  unfold fexp, SpecFloat.emin, prec, emax.
  replace (Z.max (54 + e - 53) (3 - 1024 - 53) - e) with 1 by lia.
  reflexivity.
Qed.

Lemma binary_round_aux_canonical s m e l :
  2 ^ 52 <= Zpos m < 2 ^ 53 -> -1074 <= e <= 970 ->
  exists m' e',
    binary_round_aux prec emax s (Zpos m) e l = S754_finite s m' e' /\
    (l = loc_Exact -> m' = m /\ e' = e).
Proof.
  intros Hm He. unfold binary_round_aux.
  rewrite shr_fexp_canonical by (assumption || lia).
  rewrite loc_of_shr_record_of_loc, shr_m_record_of_loc.
  assert (Hr : round_nearest_even (Zpos m) l = Zpos m \/
               round_nearest_even (Zpos m) l = Zpos m + 1).
  { destruct l as [|[]]; simpl; auto. destruct m; simpl; auto. }
  assert (Hx : l = loc_Exact -> round_nearest_even (Zpos m) l = Zpos m)
    by (intros ->; reflexivity).
  destruct Hr as [Hr|Hr].
  - rewrite Hr, shr_fexp_canonical by (assumption || lia). simpl.
    replace (e <=? emax - prec) with true by (unfold emax, prec; lia).
    eauto.
  - destruct (Z.eq_dec (Zpos m + 1) (2 ^ 53)) as [Hc|Hc].
    + rewrite Hr, Hc. change (2 ^ 53) with 9007199254740992.
      rewrite shr_fexp_carry by lia. cbn [shr_m].
      replace (e + 1 <=? emax - prec) with true by (unfold emax, prec; lia).
      eexists _, _. split; [reflexivity|].
      intros Hl. rewrite (Hx Hl) in Hr. lia.
    + rewrite Hr. replace (Zpos m + 1) with (Zpos (m + 1)) by lia.
      rewrite shr_fexp_canonical by lia. simpl.
      replace (e <=? emax - prec) with true by (unfold emax, prec; lia).
      eexists _, _. split; [reflexivity|].
      intros Hl. rewrite (Hx Hl) in Hr. lia.
Qed.

Lemma of_int_small p :
  Zpos p < 2 ^ 53 ->
  exists m k,
    0 <= k <= 52 /\ Zpos m = Zpos p * 2 ^ k /\ 2 ^ 52 <= Zpos m < 2 ^ 53 /\
    of_int (Zpos p) = Ok (S754_finite false m (- k)).
Proof.
  intros Hp.
  pose proof (Zdigits2_bounds p) as Hd.
  set (d := Zdigits2 (Zpos p)) in *.
  assert (Hd1 : 1 <= d <= 53).
  { split.
    - subst d. simpl. lia.
    - destruct (Z_lt_le_dec 53 d) as [Hlt|]; [|assumption].
      assert (2 ^ 53 <= 2 ^ (d - 1)) by (apply Z.pow_le_mono_r; lia). lia. }
  unfold of_int, binary_normalize, binary_round.
  change (Z.pos (digits2_pos p)) with d.
  unfold fexp, SpecFloat.emin, prec, emax, shl_align.
  replace (Z.max (d + 0 - 53) (3 - 1024 - 53) - 0) with (d - 53) by lia.
  replace (Z.max (d + 0 - 53) (3 - 1024 - 53)) with (d - 53) by lia.
  destruct (d - 53) as [|j|j] eqn:Hj; try lia.
  - assert (d = 53) as Hd53 by lia. rewrite Hd53 in Hd.
    change (53 - 1) with 52 in Hd.
    destruct (binary_round_aux_canonical false p 0 loc_Exact)
      as (m' & e' & Hr & Hex); [exact Hd | lia |].
    destruct (Hex eq_refl) as [-> ->].
    exists p, 0. change (binary_round_aux 53 1024) with (binary_round_aux prec emax). rewrite Hr.
    split; [lia|]. split; [lia|]. split; [exact Hd | reflexivity].
  - assert (Hm : Zpos (Pos.iter xO p j) = Zpos p * 2 ^ (53 - d))
      by (rewrite pos_iter_xO; f_equal; f_equal; lia).
    assert (Hpow : 2 ^ (d - 1) * 2 ^ (53 - d) = 2 ^ 52)
      by (rewrite <- Z.pow_add_r by lia; f_equal; lia).
    assert (Hpow' : 2 ^ d * 2 ^ (53 - d) = 2 ^ 53)
      by (rewrite <- Z.pow_add_r by lia; f_equal; lia).
    assert (0 < 2 ^ (53 - d)) by (apply Z.pow_pos_nonneg; lia).
    assert (Hb : 2 ^ 52 <= Zpos (Pos.iter xO p j) < 2 ^ 53) by (rewrite Hm; nia).
    destruct (binary_round_aux_canonical false (Pos.iter xO p j) (Z.neg j) loc_Exact)
      as (m' & e' & Hr & Hex); [exact Hb | lia |].
    destruct (Hex eq_refl) as [-> ->].
    exists (Pos.iter xO p j), (53 - d). change (binary_round_aux 53 1024) with (binary_round_aux prec emax). rewrite Hr.
    split; [lia|]. split; [exact Hm|]. split; [exact Hb|].
    do 2 f_equal. lia.
Qed.

(** The square root of a 53-bit mantissa with a small exponent: the core
    step scales it to 105 or 106 bits and takes the integer root. *)
Lemma SFsqrt_core_small m k :
  2 ^ 52 <= Zpos m < 2 ^ 53 -> 0 <= k <= 52 ->
  exists h q r l,
    26 <= h <= 52 /\ 0 <= 2 * h - k /\
    SFsqrt_core_binary prec emax (Zpos m) (- k) = (q, - h, l) /\
    Zpos m * 2 ^ (2 * h - k) = q * q + r /\ 0 <= r <= 2 * q /\
    2 ^ 52 <= q < 2 ^ 53 /\
    (r = 0 -> l = loc_Exact).
Proof.
  intros Hm Hk. unfold SFsqrt_core_binary.
  rewrite (Zdigits2_unique m 53) by exact Hm.
  rewrite !Z.div2_div.
  unfold fexp, SpecFloat.emin, prec, emax.
  set (h := 53 - (53 + - k + 1) / 2).
  assert (Hh : 26 <= h <= 52 /\ (2 * h - k = 52 \/ 2 * h - k = 53))
    by (subst h; Z.div_mod_to_equations; lia).
  replace (Z.min (Z.max ((53 + - k + 1) / 2 - 53) (3 - 1024 - 53)) (- k / 2))
    with (- h) by (subst h; Z.div_mod_to_equations; lia).
  replace (- k - 2 * - h) with (2 * h - k) by lia.
  set (m' := match 2 * h - k with Z0 => _ | Zpos _ => _ | Zneg _ => _ end).
  assert (Hm' : m' = Zpos m * 2 ^ (2 * h - k)).
  { subst m'. destruct Hh as [_ [-> | ->]]; rewrite <- Z.shiftl_mul_pow2 by lia;
      reflexivity. }
  assert (Hb : 2 ^ 104 <= m' < 2 ^ 106).
  { rewrite Hm'. destruct Hh as [_ [-> | ->]];
      change (2 ^ 104) with (2 ^ 52 * 2 ^ 52);
      change (2 ^ 106) with (2 ^ 53 * 2 ^ 53);
      change (2 ^ 53) with (2 * 2 ^ 52) in *; lia. }
  pose proof (Z.sqrtrem_spec m') as Hs.
  destruct (Z.sqrtrem m') as [q r].
  destruct Hs as [Hs Hr]; [lia|].
  exists h, q, r. eexists.
  split; [lia|]. split; [lia|]. split; [reflexivity|].
  split; [congruence|]. split; [exact Hr|]. split.
  - change (2 ^ 104) with (2 ^ 52 * 2 ^ 52) in Hb.
    change (2 ^ 106) with (2 ^ 53 * 2 ^ 53) in Hb.
    assert (0 < 2 ^ 52) by lia. assert (0 < 2 ^ 53) by lia.
    generalize dependent (2 ^ 52). generalize dependent (2 ^ 53). intros. nia.
  - intros ->. reflexivity.
Qed.

Lemma to_int_nonneg x c : signed false x -> to_int x = Ok c -> 0 <= c.
Proof.
  destruct x as [s|s| |s m e]; simpl; try discriminate; try contradiction.
  - intros _ [= <-]. lia.
  - intros -> [= <-].
    destruct e; [apply Z.shiftl_nonneg | apply Z.shiftl_nonneg
                | apply Z.shiftr_nonneg]; lia.
Qed.

Lemma of_int_signed x f :
  of_int x = Ok f -> finite_signed (x <? 0) f.
Proof.
  unfold of_int, binary_normalize, binary_round.
  destruct x as [|p|p].
  - intros [= <-]. reflexivity.
  - destruct (shl_align _ _ _) as [mz ez].
    pose proof (binary_round_aux_signed false (Zpos mz) ez loc_Exact) as Hs.
    destruct (binary_round_aux _ _ _ _ _ _); simpl in *; intros [= <-];
      apply Hs; lia.
  - destruct (shl_align _ _ _) as [mz ez].
    pose proof (binary_round_aux_signed true (Zpos mz) ez loc_Exact) as Hs.
    destruct (binary_round_aux _ _ _ _ _ _); simpl in *; intros [= <-];
      apply Hs; lia.
Qed.

Lemma sqrt_signed x : finite_signed false x -> signed false (sqrt x).
Proof.
  destruct x as [s|s| |s m e]; simpl; try contradiction; intros ->;
    [reflexivity|].
  destruct (SFsqrt_core_binary prec emax (Z.pos m) e) as [[mz ez] lz] eqn:Hc.
  apply binary_round_aux_signed.
  unfold SFsqrt_core_binary in Hc.
  set (m' := match _ - _ with Z0 => _ | Zpos _ => _ | Zneg _ => _ end) in Hc.
  assert (0 <= m').
  { subst m'. destruct (_ - _); try lia. apply Z.shiftl_nonneg. lia. }
  pose proof (Z.sqrtrem_spec m') as Hs.
  destruct (Z.sqrtrem m') as [q r]. injection Hc as <- _ _. lia.
Qed.

(** Inside the 64-bit range the int is converted and the root taken;
    outside it the call raises [TypeError]. *)
Lemma sqrt_candidate_in_range x :
  - 2 ^ 63 <= x < 2 ^ 64 ->
  sqrt_candidate x = (let* f := of_int x in to_int (sqrt f)).
Proof.
  intros Hx. unfold sqrt_candidate.
  destruct (Z.ltb_spec x (- 2 ^ 63)); [lia|].
  destruct (Z.leb_spec (2 ^ 64) x); [lia|]. reflexivity.
Qed.

Lemma sqrt_candidate_out_of_range x :
  x < - 2 ^ 63 \/ 2 ^ 64 <= x -> sqrt_candidate x = Raise TypeError.
Proof.
  intros Hx. unfold sqrt_candidate.
  destruct (Z.ltb_spec x (- 2 ^ 63)); [reflexivity|].
  destruct (Z.leb_spec (2 ^ 64) x); [reflexivity | lia].
Qed.

Lemma sqrt_candidate_Ok_range x c :
  sqrt_candidate x = Ok c -> - 2 ^ 63 <= x < 2 ^ 64.
Proof.
  intros H.
  destruct (Z_lt_le_dec x (- 2 ^ 63)) as [Hlo|Hlo];
    [rewrite sqrt_candidate_out_of_range in H by lia; discriminate|].
  destruct (Z_lt_le_dec x (2 ^ 64)) as [Hhi|Hhi]; [lia|].
  rewrite sqrt_candidate_out_of_range in H by lia. discriminate.
Qed.

(** [int(np.sqrt(x))] is never negative. *)
Lemma sqrt_candidate_nonneg x c : sqrt_candidate x = Ok c -> 0 <= c.
Proof.
  intros H. pose proof (sqrt_candidate_Ok_range x c H) as Hrange.
  rewrite sqrt_candidate_in_range in H by exact Hrange.
  apply rbind_Ok in H as (f & Hf & H).
  apply of_int_signed in Hf.
  destruct (x <? 0) eqn:Hx.
  - destruct f as [s|s| |s m e]; simpl in Hf; try contradiction; subst;
      simpl in H; [injection H as <-; lia | discriminate].
  - eapply to_int_nonneg; [apply sqrt_signed|]; eassumption.
Qed.

Lemma sqrt_candidate_small x :
  0 < x < 2 ^ 53 ->
  exists h q m' e',
    26 <= h <= 52 /\ 2 ^ 52 <= Zpos q < 2 ^ 53 /\
    Zpos q * Zpos q <= x * 2 ^ (2 * h) <= Zpos q * Zpos q + 2 * Zpos q /\
    sqrt_candidate x = to_int (S754_finite false m' e') /\
    (Zpos q * Zpos q = x * 2 ^ (2 * h) -> m' = q /\ e' = - h).
Proof.
  intros Hx. destruct x as [|p|p]; try lia.
  destruct (of_int_small p) as (m & k & Hk & Hm & Hmb & Hof); [lia|].
  destruct (SFsqrt_core_small m k Hmb Hk)
    as (h & q & r & l & Hh & Hhk & Hcore & Hq & Hr & Hqb & Hl).
  destruct q as [|q|q]; try lia.
  destruct (binary_round_aux_canonical false q (- h) l Hqb)
    as (m' & e' & Hround & Hex); [lia|].
  exists h, q, m', e'.
  assert (Hval : Zpos p * 2 ^ (2 * h) = Zpos q * Zpos q + r).
  { rewrite <- Hq, Hm, <- Z.mul_assoc, <- Z.pow_add_r by lia.
    do 2 f_equal. lia. }
  split; [exact Hh|]. split; [exact Hqb|]. split; [lia|]. split.
  - rewrite sqrt_candidate_in_range
      by (change (2 ^ 64) with (2 ^ 53 * 2 ^ 11); lia).
    rewrite Hof. simpl. rewrite Hcore, Hround.
    reflexivity.
  - intros Heq. apply Hex, Hl. lia.
Qed.

Lemma sqrt_candidate_total x :
  0 < x < 2 ^ 53 -> exists c, sqrt_candidate x = Ok c.
Proof.
  intros Hx. destruct (sqrt_candidate_small x Hx)
    as (h & q & m' & e' & _ & _ & _ & -> & _).
  simpl. eauto.
Qed.


(** ** Division stays in range *)

Lemma shr_1_div2 mrs : 0 <= shr_m mrs -> shr_m (shr_1 mrs) = shr_m mrs / 2.
Proof.
  destruct mrs as [[|[p|p|]|p] r s]; simpl; intros H; try lia;
    try reflexivity.
  - rewrite (Pos2Z.inj_xI p). Z.div_mod_to_equations. lia.
  - rewrite (Pos2Z.inj_xO p). Z.div_mod_to_equations. lia.
Qed.

Lemma iter_shr_1_div p : forall mrs,
  0 <= shr_m mrs ->
  shr_m (SpecFloat.iter_pos shr_1 p mrs) = shr_m mrs / 2 ^ Zpos p.
Proof.
  induction p as [p IH|p IH|]; intros mrs H; cbn [SpecFloat.iter_pos].
  - rewrite !IH, shr_1_div2 by auto using iter_shr_1_nonneg, shr_1_nonneg.
    assert (0 < 2 ^ Zpos p) by (apply Z.pow_pos_nonneg; lia).
    rewrite !Z.div_div by lia. f_equal.
    rewrite (Pos2Z.inj_xI p), Z.pow_add_r, Z.pow_mul_r by lia.
    change (2 ^ 2) with 4. change (2 ^ 1) with 2.
    replace 4 with (2 * 2) by lia. rewrite Z.pow_mul_l. lia.
  - rewrite !IH by auto using iter_shr_1_nonneg.
    assert (0 < 2 ^ Zpos p) by (apply Z.pow_pos_nonneg; lia).
    rewrite Z.div_div by lia. f_equal.
    rewrite (Pos2Z.inj_xO p), Z.pow_mul_r by lia.
    change (2 ^ 2) with (2 * 2). rewrite Z.pow_mul_l. lia.
  - rewrite shr_1_div2 by assumption. reflexivity.
Qed.

Lemma Zdigits2_le m t : 0 <= m < 2 ^ t -> 0 <= t -> Zdigits2 m <= t.
Proof.
  intros [Hm Hlt] Ht. destruct m as [|p|p]; try lia; [simpl; lia|].
  pose proof (Zdigits2_bounds p) as [Hd _].
  destruct (Z_lt_le_dec t (Zdigits2 (Zpos p))) as [Hgt|]; [|assumption].
  assert (2 ^ t <= 2 ^ (Zdigits2 (Z.pos p) - 1))
    by (apply Z.pow_le_mono_r; lia).
  lia.
Qed.

(** Shifting to the target exponent keeps the value below 2^t. *)
Lemma shr_fexp_bound m e l t :
  0 <= m < 2 ^ (t - e) -> e <= t -> -1021 <= t ->
  let '(mrs, e1) := shr_fexp prec emax m e l in
  0 <= shr_m mrs < 2 ^ (t - e1) /\ e1 <= Z.max e (t - 53).
Proof.
  intros Hm He Ht. unfold shr_fexp, shr.
  pose proof (Zdigits2_le m (t - e) Hm ltac:(lia)) as Hd.
  unfold fexp, SpecFloat.emin, prec, emax.
  set (e1 := Z.max (Zdigits2 m + e - 53) (3 - 1024 - 53)).
  destruct (e1 - e) as [|n|n] eqn:Hn;
    try (rewrite shr_m_record_of_loc; split; lia).
  split; [|lia].
  rewrite iter_shr_1_div by (rewrite shr_m_record_of_loc; lia).
  rewrite shr_m_record_of_loc.
  assert (0 < 2 ^ Zpos n) by (apply Z.pow_pos_nonneg; lia).
  split; [apply Z.div_pos; lia|].
  apply Z.div_lt_upper_bound; [lia|].
  rewrite <- Z.pow_add_r by lia.
  replace (Z.pos n + (t - (e + Z.pos n))) with (t - e) by lia. lia.
Qed.

Lemma binary_round_aux_finite s m e l :
  0 <= m < 2 ^ (1023 - e) -> e <= 970 ->
  finite_signed s (binary_round_aux prec emax s m e l).
Proof.
  intros Hm He. unfold binary_round_aux.
  pose proof (shr_fexp_bound m e l 1023 Hm ltac:(lia) ltac:(lia)) as H1.
  destruct (shr_fexp prec emax m e l) as [mrs1 e1]. destruct H1 as [H1 He1].
  set (m1 := round_nearest_even (shr_m mrs1) (loc_of_shr_record mrs1)).
  assert (Hm1 : 0 <= m1 < 2 ^ (1024 - e1)).
  { assert (0 <= m1 <= shr_m mrs1 + 1).
    { subst m1. destruct (loc_of_shr_record mrs1) as [|[]]; simpl; try lia.
      destruct (Z.even _); lia. }
    replace (1024 - e1) with (Z.succ (1023 - e1)) by lia.
    rewrite Z.pow_succ_r by lia. lia. }
  pose proof (shr_fexp_bound m1 e1 loc_Exact 1024 Hm1 ltac:(lia) ltac:(lia)) as H2.
  destruct (shr_fexp prec emax m1 e1 loc_Exact) as [mrs2 e2].
  destruct H2 as [H2 He2].
  destruct (shr_m mrs2) as [|p|p]; simpl; [reflexivity| |lia].
  replace (e2 <=? emax - prec) with true by (unfold emax, prec; lia).
  reflexivity.
Qed.

(** An int division whose quotient is below 2^1023 does not overflow. *)
Lemma truediv_total p q :
  0 <= p -> 0 < q -> p < 2 ^ 1023 * q -> exists r, truediv p q = Ok r.
Proof.
  intros Hp Hq Hlt. unfold truediv.
  destruct (Z.eqb_spec q 0) as [->|_]; [lia|].
  destruct q as [|q|q]; try lia.
  destruct p as [|p|p]; try lia; simpl; [eauto|].
  destruct (SFdiv_core_binary prec emax (Z.pos p) 0 (Z.pos q) 0)
    as [[mz ez] lz] eqn:Hcore.
  assert (Hb : 0 <= mz < 2 ^ (1023 - ez) /\ ez <= 0).
  { unfold SFdiv_core_binary in Hcore.
    set (e' := Z.min _ _) in Hcore.
    assert (He' : e' <= 0) by (subst e'; lia).
    set (m' := match _ - _ - _ with Z0 => _ | Zpos _ => _ | Zneg _ => _ end)
      in Hcore.
    assert (Hm' : m' = Zpos p * 2 ^ (- e')).
    { subst m'. replace (0 - 0 - e') with (- e') by lia.
      destruct (- e') as [|k|k] eqn:Hk; try lia.
      apply Z.shiftl_mul_pow2. lia. }
    assert (0 < 2 ^ (- e')) by (apply Z.pow_pos_nonneg; lia).
    pose proof (Z.div_pos m' (Z.pos q)) as Hd.
    pose proof (Z.div_lt_upper_bound m' (Z.pos q) (2 ^ (1023 - e'))) as Hu.
    unfold Z.div in Hd, Hu. destruct (Z.div_eucl m' (Z.pos q)) as [q0 r0].
    injection Hcore as <- <- _. split; [split|assumption].
    - apply Hd; lia.
    - apply Hu; [lia|]. rewrite Hm'.
      replace (1023 - e') with (1023 + - e') by lia.
      rewrite Z.pow_add_r by lia. nia. }
  destruct Hb as [Hb Hez].
  pose proof (binary_round_aux_finite false mz ez lz Hb ltac:(lia)) as Hf.
  destruct (binary_round_aux prec emax false mz ez lz); simpl in Hf;
    try contradiction; eauto.
Qed.

Lemma finite_signed_signed s x : finite_signed s x -> signed s x.
Proof. destruct x; simpl; tauto. Qed.

Lemma finite_signed_not_nan s x : finite_signed s x -> x <> S754_nan.
Proof. destruct x; simpl; intros H; congruence || contradiction. Qed.

(** [float(x)] does not overflow below 2^1023. *)
Lemma of_int_total x : 0 <= x < 2 ^ 1023 -> exists f, of_int x = Ok f.
Proof.
  intros Hx. unfold of_int, binary_normalize, binary_round.
  destruct x as [|p|p]; try lia; [eauto|].
  assert (Hf : finite_signed false
                 (let '(mz, ez) :=
                    shl_align p 0 (fexp prec emax (Z.pos (digits2_pos p) + 0)) in
                  binary_round_aux prec emax false (Z.pos mz) ez loc_Exact)).
  { unfold shl_align.
    destruct (fexp prec emax (Z.pos (digits2_pos p) + 0) - 0) as [|k|k] eqn:Hk;
      try (apply binary_round_aux_finite; lia).
    replace (fexp prec emax (Z.pos (digits2_pos p) + 0)) with (Z.neg k) by lia.
    apply binary_round_aux_finite; [|lia].
    rewrite pos_iter_xO. replace (1023 - Z.neg k) with (1023 + Z.pos k) by lia.
    rewrite Z.pow_add_r by lia.
    assert (0 < 2 ^ Z.pos k) by (apply Z.pow_pos_nonneg; lia). nia. }
  destruct (shl_align _ _ _) as [mz ez].
  destruct (binary_round_aux _ _ _ _ _ _); simpl in Hf; try contradiction; eauto.
Qed.

(** ** Quotients that are zero, and quotients that are not *)

Lemma truediv_zero (q : Z) : 0 < q -> truediv 0 q = Ok zero.
Proof.
  intros Hq. unfold truediv. destruct (Z.eqb_spec q 0); [lia|].
  destruct q; try lia. reflexivity.
Qed.

Lemma leb_ltb_false x y : leb x y = true -> ltb y x = false.
Proof.
  unfold ltb, leb, SFltb, SFleb. rewrite (SFcompare_antisym x y).
  destruct (SFcompare x y) as [[]|]; simpl; congruence.
Qed.

(** A mantissa of at least 53 bits keeps at least 53 bits when it is
    shifted to its target exponent, and the exponent does not decrease. *)
Lemma shr_fexp_large_exp m e l :
  2 ^ 52 <= m -> -1074 <= e ->
  let '(mrs, e1) := shr_fexp prec emax m e l in
  2 ^ 52 <= shr_m mrs /\ Zdigits2 m + e - 53 <= e1 /\ e <= e1.
Proof.
  intros Hm He. unfold shr_fexp, shr.
  assert (H52 : 0 < 2 ^ 52) by (apply Z.pow_pos_nonneg; lia).
  destruct m as [|p|p]; try lia.
  pose proof (Zdigits2_bounds p) as [Hd1 Hd2].
  assert (Hd : 53 <= Zdigits2 (Zpos p)).
  { destruct (Z_lt_le_dec (Zdigits2 (Zpos p)) 53) as [Hlt|]; [|assumption].
    assert (2 ^ Zdigits2 (Z.pos p) <= 2 ^ 52) by (apply Z.pow_le_mono_r; lia).
    lia. }
  unfold fexp, SpecFloat.emin, prec, emax.
  set (e1 := Z.max (Zdigits2 (Zpos p) + e - 53) (3 - 1024 - 53)).
  destruct (e1 - e) as [|n|n] eqn:Hn;
    try (rewrite shr_m_record_of_loc; split; lia).
  rewrite iter_shr_1_div by (rewrite shr_m_record_of_loc; lia).
  rewrite shr_m_record_of_loc. split; [|lia].
  assert (0 < 2 ^ Zpos n) by (apply Z.pow_pos_nonneg; lia).
  apply Z.div_le_lower_bound; [lia|].
  rewrite <- Z.pow_add_r by lia.
  replace (Z.pos n + 52) with (Zdigits2 (Z.pos p) - 1) by lia. exact Hd1.
Qed.

Lemma binary_round_aux_large s m e l :
  2 ^ 52 <= m -> -1074 <= e ->
  match binary_round_aux prec emax s m e l with
  | S754_finite _ _ _ | S754_infinity _ => True
  | _ => False
  end.
Proof.
  intros Hm He. unfold binary_round_aux.
  pose proof (shr_fexp_large_exp m e l Hm He) as H1.
  destruct (shr_fexp prec emax m e l) as [mrs1 e1].
  destruct H1 as (H1 & _ & He1').
  assert (He1 : -1074 <= e1) by lia.
  set (m1 := round_nearest_even (shr_m mrs1) (loc_of_shr_record mrs1)).
  assert (Hm1 : 2 ^ 52 <= m1).
  { assert (shr_m mrs1 <= m1); [|lia].
    subst m1. destruct (loc_of_shr_record mrs1) as [|[]]; simpl; try lia.
    destruct (Z.even _); lia. }
  pose proof (shr_fexp_large_exp m1 e1 loc_Exact Hm1 He1) as H2.
  destruct (shr_fexp prec emax m1 e1 loc_Exact) as [mrs2 e2].
  destruct H2 as (H2 & _ & He2).
  assert (H52 : 0 < 2 ^ 52) by (apply Z.pow_pos_nonneg; lia).
  destruct (shr_m mrs2) as [|p|p]; try lia.
  destruct (e2 <=? emax - prec); exact I.
Qed.

(** A positive quotient above the subnormal range is a positive float:
    it does not round to 0.0. *)
Lemma truediv_pos p q r :
  0 < p -> 0 < q -> q < 2 ^ 1021 * p -> truediv p q = Ok r ->
  exists m e, r = S754_finite false m e.
Proof.
  intros Hp Hq Hlt. unfold truediv.
  destruct (Z.eqb_spec q 0) as [->|_]; [lia|].
  destruct q as [|q|q]; try lia.
  destruct p as [|p|p]; try lia; simpl.
  destruct (SFdiv_core_binary prec emax (Z.pos p) 0 (Z.pos q) 0)
    as [[mz ez] lz] eqn:Hcore.
  assert (Hb : 2 ^ 52 <= mz /\ -1074 <= ez).
  { unfold SFdiv_core_binary in Hcore.
    set (e' := Z.min _ _) in Hcore.
    pose proof (Zdigits2_bounds p) as [Hp1 Hp2].
    pose proof (Zdigits2_bounds q) as [Hq1 Hq2].
    set (d1 := Zdigits2 (Z.pos p)) in *. set (d2 := Zdigits2 (Z.pos q)) in *.
    assert (Hd1 : 1 <= d1) by (subst d1; simpl; lia).
    assert (Hd2 : 1 <= d2) by (subst d2; simpl; lia).
    assert (Hd : d2 <= d1 + 1021).
    { destruct (Z_lt_le_dec (d1 + 1021) d2) as [Hgt|]; [|assumption].
      assert (H : 2 ^ (1021 + d1) <= 2 ^ (d2 - 1))
        by (apply Z.pow_le_mono_r; lia).
      rewrite Z.pow_add_r in H by lia.
      assert (0 < 2 ^ 1021) by (apply Z.pow_pos_nonneg; lia).
      generalize dependent (2 ^ 1021). intros. nia. }
    assert (He' : e' = Z.min (d1 - d2 - 53) 0).
    { subst e'. unfold fexp, SpecFloat.emin, prec, emax. fold d1 d2. lia. }
    set (m' := match _ - _ - _ with Z0 => _ | Zpos _ => _ | Zneg _ => _ end)
      in Hcore.
    assert (Hm' : m' = Zpos p * 2 ^ (- e')).
    { subst m'. replace (0 - 0 - e') with (- e') by lia.
      destruct (- e') as [|k|k] eqn:Hk; try lia.
      apply Z.shiftl_mul_pow2. lia. }
    pose proof (Z.div_le_lower_bound m' (Z.pos q) (2 ^ 52)) as Hl.
    unfold Z.div in Hl. destruct (Z.div_eucl m' (Z.pos q)) as [q0 r0].
    injection Hcore as <- <- _. split; [|lia].
    apply Hl; [lia|]. rewrite Hm'.
    assert (Hle : 2 ^ (d2 + 52) <= 2 ^ (d1 - 1 + - e'))
      by (apply Z.pow_le_mono_r; lia).
    rewrite !Z.pow_add_r in Hle by lia.
    assert (0 < 2 ^ 52) by (apply Z.pow_pos_nonneg; lia).
    assert (0 < 2 ^ (- e')) by (apply Z.pow_pos_nonneg; lia).
    generalize dependent (2 ^ 52). generalize dependent (2 ^ (- e')).
    generalize dependent (2 ^ (d1 - 1)). generalize dependent (2 ^ d2).
    intros. nia. }
  destruct Hb as [Hb Hez].
  pose proof (binary_round_aux_large false mz ez lz Hb Hez) as Hf.
  pose proof (binary_round_aux_signed false mz ez lz) as Hs.
  destruct (binary_round_aux prec emax false mz ez lz); simpl in Hf;
    try contradiction; intros [= <-].
  assert (0 < 2 ^ 52) by (apply Z.pow_pos_nonneg; lia).
  simpl in Hs. rewrite Hs by lia. eauto.
Qed.



(** ** Mantissas and bounds of rounded values *)

Lemma Zdigits2_lt m : 0 <= m -> m < 2 ^ Zdigits2 m.
Proof.
  intros Hm. destruct m as [|p|p]; try lia; [reflexivity|].
  apply Zdigits2_bounds.
Qed.

Lemma Zdigits2_nonneg m : 0 <= m -> 0 <= Zdigits2 m.
Proof. destruct m; simpl; lia. Qed.

(** After the shift to the target exponent a mantissa fits 53 bits. *)
Lemma shr_fexp_digits m e l :
  0 <= m ->
  let '(mrs, e1) := shr_fexp prec emax m e l in
  0 <= shr_m mrs < 2 ^ 53.
Proof.
  intros Hm. unfold shr_fexp, shr.
  pose proof (Zdigits2_lt m Hm) as Hd.
  pose proof (Zdigits2_nonneg m Hm) as Hd0.
  unfold fexp, SpecFloat.emin, prec, emax.
  set (e1 := Z.max (Zdigits2 m + e - 53) (3 - 1024 - 53)).
  destruct (e1 - e) as [|n|n] eqn:Hn.
  - rewrite shr_m_record_of_loc. split; [assumption|].
    assert (2 ^ Zdigits2 m <= 2 ^ 53) by (apply Z.pow_le_mono_r; lia). lia.
  - rewrite iter_shr_1_div by (rewrite shr_m_record_of_loc; lia).
    rewrite shr_m_record_of_loc.
    assert (0 < 2 ^ Zpos n) by (apply Z.pow_pos_nonneg; lia).
    split; [apply Z.div_pos; lia|].
    apply Z.div_lt_upper_bound; [lia|].
    rewrite <- Z.pow_add_r by lia.
    assert (2 ^ Zdigits2 m <= 2 ^ (Z.pos n + 53)) by (apply Z.pow_le_mono_r; lia).
    lia.
  - rewrite shr_m_record_of_loc. split; [assumption|].
    assert (2 ^ Zdigits2 m <= 2 ^ 53) by (apply Z.pow_le_mono_r; lia). lia.
Qed.

Lemma binary_round_aux_mantissa s m e l s' m' e' :
  0 <= m ->
  binary_round_aux prec emax s m e l = S754_finite s' m' e' ->
  Zpos m' < 2 ^ 53.
Proof.
  intros Hm. unfold binary_round_aux.
  pose proof (shr_fexp_nonneg m e l Hm) as H1.
  destruct (shr_fexp prec emax m e l) as [mrs1 e1]. simpl in H1.
  pose proof (shr_fexp_digits _ e1 loc_Exact
                (round_nearest_even_nonneg _ (loc_of_shr_record mrs1) H1)) as H2.
  destruct (shr_fexp prec emax _ e1 loc_Exact) as [mrs2 e2].
  destruct (shr_m mrs2) as [|p|p]; try discriminate.
  destruct (e2 <=? emax - prec); [|discriminate].
  intros [= _ <- _]. lia.
Qed.

Lemma truediv_mantissa p q s m e :
  0 <= p -> 0 < q -> truediv p q = Ok (S754_finite s m e) -> Zpos m < 2 ^ 53.
Proof.
  intros Hp Hq. unfold truediv.
  destruct (Z.eqb_spec q 0) as [->|_]; [lia|].
  destruct q as [|q|q]; try lia.
  destruct p as [|p|p]; try lia; simpl; [discriminate|].
  destruct (SFdiv_core_binary prec emax (Z.pos p) 0 (Z.pos q) 0)
    as [[mz ez] lz] eqn:Hcore.
  assert (Hmz : 0 <= mz).
  { unfold SFdiv_core_binary in Hcore.
    set (m' := match _ - _ - _ with Z0 => _ | Zpos _ => _ | Zneg _ => _ end)
      in Hcore.
    assert (0 <= m').
    { subst m'. destruct (_ - _ - _); try lia. apply Z.shiftl_nonneg. lia. }
    pose proof (Z.div_pos m' (Z.pos q)) as Hd. unfold Z.div in Hd.
    destruct (Z.div_eucl m' (Z.pos q)) as [q0 r0].
    injection Hcore as <- _ _. apply Hd; lia. }
  destruct (binary_round_aux prec emax false mz ez lz) eqn:Hr; try discriminate.
  intros [= -> -> ->]. eapply binary_round_aux_mantissa; eassumption.
Qed.

(** Shifting to the target exponent keeps a value at most 2^t. *)
Lemma shr_fexp_bound_le m e l t :
  0 <= m <= 2 ^ (t - e) -> e <= t -> -1021 <= t ->
  let '(mrs, e1) := shr_fexp prec emax m e l in
  0 <= shr_m mrs <= 2 ^ (t - e1) /\ e1 <= Z.max e (t - 52).
Proof.
  intros Hm He Ht. unfold shr_fexp, shr.
  assert (Hd : Zdigits2 m <= t - e + 1).
  { apply Zdigits2_le; [|lia]. rewrite Z.pow_add_r by lia.
    assert (0 < 2 ^ (t - e)) by (apply Z.pow_pos_nonneg; lia). lia. }
  unfold fexp, SpecFloat.emin, prec, emax.
  set (e1 := Z.max (Zdigits2 m + e - 53) (3 - 1024 - 53)).
  destruct (e1 - e) as [|n|n] eqn:Hn;
    try (rewrite shr_m_record_of_loc; split; lia).
  split; [|lia].
  rewrite iter_shr_1_div by (rewrite shr_m_record_of_loc; lia).
  rewrite shr_m_record_of_loc.
  assert (0 < 2 ^ Zpos n) by (apply Z.pow_pos_nonneg; lia).
  split; [apply Z.div_pos; lia|].
  apply Z.div_le_upper_bound; [lia|].
  rewrite <- Z.pow_add_r by lia.
  replace (Z.pos n + (t - (e + Z.pos n))) with (t - e) by lia. lia.
Qed.

(** A value below 2^t rounds to a float that is at most 2^t. *)
Lemma binary_round_aux_below s m e l t :
  0 <= m < 2 ^ (t - e) -> e <= t -> e <= 970 -> -1021 <= t <= 1023 ->
  match binary_round_aux prec emax s m e l with
  | S754_zero s' => s' = s
  | S754_finite s' m' e' => s' = s /\ Zpos m' <= 2 ^ (t - e')
  | _ => False
  end.
Proof.
  intros Hm He He' Ht. unfold binary_round_aux.
  pose proof (shr_fexp_bound m e l t Hm He ltac:(lia)) as H1.
  destruct (shr_fexp prec emax m e l) as [mrs1 e1]. destruct H1 as [H1 He1].
  set (m1 := round_nearest_even (shr_m mrs1) (loc_of_shr_record mrs1)).
  assert (He1t : e1 <= t).
  { destruct (Z_le_gt_dec e1 t) as [|Hgt]; [assumption|].
    rewrite Z.pow_neg_r in H1 by lia. lia. }
  assert (Hm1 : 0 <= m1 <= 2 ^ (t - e1)).
  { assert (0 <= m1 <= shr_m mrs1 + 1); [|lia].
    subst m1. destruct (loc_of_shr_record mrs1) as [|[]]; simpl; try lia.
    destruct (Z.even _); lia. }
  pose proof (shr_fexp_bound_le m1 e1 loc_Exact t Hm1 He1t ltac:(lia)) as H2.
  destruct (shr_fexp prec emax m1 e1 loc_Exact) as [mrs2 e2].
  destruct H2 as [H2 He2].
  destruct (shr_m mrs2) as [|p|p]; [reflexivity| |lia].
  replace (e2 <=? emax - prec) with true by (unfold emax, prec; lia).
  split; [reflexivity | lia].
Qed.

Lemma shl_align_fst mx ex ez :
  ez <= ex -> Zpos (fst (shl_align mx ex ez)) = Zpos mx * 2 ^ (ex - ez).
Proof.
  intros H. unfold shl_align.
  destruct (ez - ex) as [|d|d] eqn:Hd; try lia; simpl.
  - replace (ex - ez) with 0 by lia. lia.
  - rewrite pos_iter_xO. f_equal. f_equal. lia.
Qed.

Lemma shl_align_value mx ex ez :
  let '(mz, ez') := shl_align mx ex ez in
  ez' <= ex /\ Zpos mz = Zpos mx * 2 ^ (ex - ez').
Proof.
  unfold shl_align. destruct (ez - ex) as [|d|d] eqn:Hd.
  - split; [lia|]. rewrite Z.sub_diag. lia.
  - split; [lia|]. rewrite Z.sub_diag. lia.
  - split; [lia|]. rewrite pos_iter_xO. f_equal. f_equal. lia.
Qed.

(** [<] on two positive floats, read on exponents and mantissas. *)
Lemma ltb_finite_inv m e m' e' :
  ltb (S754_finite false m e) (S754_finite false m' e') = true ->
  e < e' \/ (e = e' /\ Zpos m < Zpos m').
Proof.
  unfold ltb, SFltb. cbn [SFcompare]. intros Hlt.
  change (Pos.compare_cont Eq ?a ?b) with (Pos.compare a b) in Hlt.
  destruct (e ?= e') eqn:He.
  - apply Z.compare_eq_iff in He. right. split; [exact He|].
    destruct (m ?= m')%positive eqn:Hc; try discriminate Hlt.
    apply Pos.compare_lt_iff in Hc. exact Hc.
  - apply Z.compare_lt_iff in He. left. exact He.
  - discriminate Hlt.
Qed.

(** ** Rounding an int of more than 53 bits *)

(** One more bit shifted out: the record keeps track of where the part
    shifted out lies in relation to half of the last kept unit. *)
Lemma shr_1_loc mrs j rem :
  0 <= j -> 0 <= shr_m mrs -> 0 <= rem < 2 ^ j ->
  match loc_of_shr_record mrs with
  | loc_Exact => rem = 0
  | loc_Inexact c => 0 < rem /\ (2 * rem ?= 2 ^ j) = c
  end ->
  let rem' := (shr_m mrs mod 2) * 2 ^ j + rem in
  0 <= rem' < 2 ^ (j + 1) /\
  match loc_of_shr_record (shr_1 mrs) with
  | loc_Exact => rem' = 0
  | loc_Inexact c => 0 < rem' /\ (2 * rem' ?= 2 ^ (j + 1)) = c
  end.
Proof.
  intros Hj Hm Hrem Hloc. rewrite Z.pow_add_r by lia. change (2 ^ 1) with 2.
  assert (Hpos : 0 < 2 ^ j) by (apply Z.pow_pos_nonneg; lia).
  destruct mrs as [m r s]. cbn [shr_m] in *.
  assert (Hbit : m mod 2 = 0 \/ m mod 2 = 1) by (Z.div_mod_to_equations; lia).
  assert (Hcase :
    loc_of_shr_record (shr_1 (Build_shr_record m r s)) =
    if m mod 2 =? 0
    then (if r || s then loc_Inexact Lt else loc_Exact)
    else (if r || s then loc_Inexact Gt else loc_Inexact Eq)).
  { destruct m as [|[p|p|]|p]; try lia.
    - destruct r, s; reflexivity.
    - replace (Z.pos p~1 mod 2) with 1
        by (rewrite (Pos2Z.inj_xI p); Z.div_mod_to_equations; lia).
      destruct r, s; reflexivity.
    - replace (Z.pos p~0 mod 2) with 0
        by (rewrite (Pos2Z.inj_xO p); Z.div_mod_to_equations; lia).
      destruct r, s; reflexivity.
    - destruct r, s; reflexivity. }
  rewrite Hcase. clear Hcase.
  assert (Hrs : if r || s then 0 < rem else rem = 0).
  { destruct r, s; simpl in *; lia. }
  destruct Hbit as [-> | ->]; simpl (_ =? 0); cbv iota;
    destruct (r || s); split; try lia;
    try (split; [lia|]); try (apply Z.compare_lt_iff; lia);
    try (apply Z.compare_gt_iff; lia); try (apply Z.compare_eq_iff; lia).
Qed.

Lemma iter_shr_1_loc p : forall mrs x j rem,
  0 <= j -> 0 <= shr_m mrs ->
  x = shr_m mrs * 2 ^ j + rem -> 0 <= rem < 2 ^ j ->
  match loc_of_shr_record mrs with
  | loc_Exact => rem = 0
  | loc_Inexact c => 0 < rem /\ (2 * rem ?= 2 ^ j) = c
  end ->
  exists rem',
    x = shr_m (SpecFloat.iter_pos shr_1 p mrs) * 2 ^ (j + Zpos p) + rem' /\
    0 <= rem' < 2 ^ (j + Zpos p) /\
    match loc_of_shr_record (SpecFloat.iter_pos shr_1 p mrs) with
    | loc_Exact => rem' = 0
    | loc_Inexact c => 0 < rem' /\ (2 * rem' ?= 2 ^ (j + Zpos p)) = c
    end.
Proof.
  assert (Hstep : forall mrs x j rem,
    0 <= j -> 0 <= shr_m mrs ->
    x = shr_m mrs * 2 ^ j + rem -> 0 <= rem < 2 ^ j ->
    match loc_of_shr_record mrs with
    | loc_Exact => rem = 0
    | loc_Inexact c => 0 < rem /\ (2 * rem ?= 2 ^ j) = c
    end ->
    exists rem',
      x = shr_m (shr_1 mrs) * 2 ^ (j + 1) + rem' /\
      0 <= rem' < 2 ^ (j + 1) /\
      match loc_of_shr_record (shr_1 mrs) with
      | loc_Exact => rem' = 0
      | loc_Inexact c => 0 < rem' /\ (2 * rem' ?= 2 ^ (j + 1)) = c
      end).
  { intros mrs x j rem Hj Hm Hx Hrem Hloc.
    destruct (shr_1_loc mrs j rem Hj Hm Hrem Hloc) as [Hr' Hl'].
    exists ((shr_m mrs mod 2) * 2 ^ j + rem).
    split; [|split; assumption].
    rewrite shr_1_div2 by assumption.
    rewrite Z.pow_add_r by lia. change (2 ^ 1) with 2.
    rewrite Hx. pose proof (Z.div_mod (shr_m mrs) 2 ltac:(lia)). nia. }
  induction p as [p IH|p IH|]; intros mrs x j rem Hj Hm Hx Hrem Hloc;
    cbn [SpecFloat.iter_pos].
  - destruct (Hstep mrs x j rem Hj Hm Hx Hrem Hloc) as (r1 & Hx1 & Hr1 & Hl1).
    destruct (IH _ x (j + 1) r1 ltac:(lia) (shr_1_nonneg _ Hm) Hx1 Hr1 Hl1)
      as (r2 & Hx2 & Hr2 & Hl2).
    destruct (IH _ x (j + 1 + Zpos p) r2 ltac:(lia)
                (iter_shr_1_nonneg _ _ (shr_1_nonneg _ Hm)) Hx2 Hr2 Hl2)
      as (r3 & Hx3 & Hr3 & Hl3).
    replace (j + Z.pos p~1) with (j + 1 + Z.pos p + Z.pos p) by lia.
    eauto.
  - destruct (IH _ x j rem Hj Hm Hx Hrem Hloc) as (r2 & Hx2 & Hr2 & Hl2).
    destruct (IH _ x (j + Zpos p) r2 ltac:(lia)
                (iter_shr_1_nonneg _ _ Hm) Hx2 Hr2 Hl2)
      as (r3 & Hx3 & Hr3 & Hl3).
    replace (j + Z.pos p~0) with (j + Z.pos p + Z.pos p) by lia.
    eauto.
  - apply (Hstep mrs x j rem); assumption.
Qed.

(** Rounding to nearest after the shift moves the value by at most half
    a unit of the last place. *)
Lemma round_nearest_even_half x k mrs rem :
  x = shr_m mrs * 2 ^ k + rem -> 0 <= rem < 2 ^ k ->
  match loc_of_shr_record mrs with
  | loc_Exact => rem = 0
  | loc_Inexact c => 0 < rem /\ (2 * rem ?= 2 ^ k) = c
  end ->
  let m1 := round_nearest_even (shr_m mrs) (loc_of_shr_record mrs) in
  shr_m mrs <= m1 <= shr_m mrs + 1 /\
  Z.abs (2 * (m1 * 2 ^ k - x)) <= 2 ^ k.
Proof.
  intros Hx Hrem Hloc. cbv zeta.
  assert (Hk : 0 < 2 ^ k) by lia.
  destruct (loc_of_shr_record mrs) as [|c]; cbn [round_nearest_even].
  - subst rem. split; [lia|]. rewrite Hx. lia.
  - destruct Hloc as [Hpos Hc].
    destruct c; [rewrite Z.compare_eq_iff in Hc | rewrite Z.compare_lt_iff in Hc
                | rewrite Z.compare_gt_iff in Hc].
    + destruct (Z.even (shr_m mrs)); (split; [lia|]); rewrite Hx; lia.
    + split; [lia|]. rewrite Hx. lia.
    + split; [lia|]. rewrite Hx. lia.
Qed.

Lemma shr_fexp_exact_large p k :
  Zdigits2 (Zpos p) = 53 + Zpos k ->
  shr_fexp prec emax (Zpos p) 0 loc_Exact =
  (SpecFloat.iter_pos shr_1 k (shr_record_of_loc (Zpos p) loc_Exact), Zpos k).
Proof.
  intros Hd. unfold shr_fexp, shr. rewrite Hd.
  unfold fexp, SpecFloat.emin, prec, emax.
  replace (Z.max (53 + Zpos k + 0 - 53) (3 - 1024 - 53) - 0) with (Zpos k) by lia.
  reflexivity.
Qed.

(** Rounding an int of 54 to 64 bits to 53 bits: the result is at most
    half a unit of the last place away. *)
Lemma binary_round_aux_large_int p :
  2 ^ 53 <= Zpos p < 2 ^ 64 ->
  exists m e,
    binary_round_aux prec emax false (Zpos p) 0 loc_Exact
    = S754_finite false m e /\
    2 ^ 52 <= Zpos m < 2 ^ 53 /\ 1 <= e <= 12 /\
    Z.abs (2 * (Zpos m * 2 ^ e - Zpos p)) <= 2 ^ e.
Proof.
  intros Hp.
  pose proof (Zdigits2_bounds p) as Hd.
  set (d := Zdigits2 (Zpos p)) in *.
  assert (Hd1 : 54 <= d <= 64).
  { split.
    - destruct (Z_lt_le_dec d 54) as [Hlt|]; [|assumption].
      assert (2 ^ d <= 2 ^ 53) by (apply Z.pow_le_mono_r; lia). lia.
    - destruct (Z_lt_le_dec 64 d) as [Hlt|]; [|assumption].
      assert (2 ^ 64 <= 2 ^ (d - 1)) by (apply Z.pow_le_mono_r; lia). lia. }
  destruct (d - 53) as [|k|k] eqn:Hk; try lia.
  unfold binary_round_aux.
  rewrite (shr_fexp_exact_large p k) by (fold d; lia).
  destruct (iter_shr_1_loc k (shr_record_of_loc (Zpos p) loc_Exact)
              (Zpos p) 0 0) as (rem & Hx & Hrem & Hloc);
    [lia | simpl; lia | simpl; lia | simpl; lia | reflexivity |].
  set (mrs := SpecFloat.iter_pos shr_1 k _) in *.
  replace (0 + Zpos k) with (Zpos k) in * by lia.
  pose proof (round_nearest_even_half _ _ _ _ Hx Hrem Hloc) as [Hm1 Hhalf].
  set (m1 := round_nearest_even (shr_m mrs) (loc_of_shr_record mrs)) in *.
  assert (Hpk : 0 < 2 ^ Zpos k) by (apply Z.pow_pos_nonneg; lia).
  assert (Hpow : 2 ^ (d - 1) = 2 ^ 52 * 2 ^ Zpos k)
    by (rewrite <- Z.pow_add_r by lia; f_equal; lia).
  assert (Hpow' : 2 ^ d = 2 ^ 53 * 2 ^ Zpos k)
    by (rewrite <- Z.pow_add_r by lia; f_equal; lia).
  assert (Hq : 2 ^ 52 <= shr_m mrs < 2 ^ 53).
  { rewrite Hpow, Hpow' in Hd. split; nia. }
  clearbody m1.
  destruct (Z.eq_dec m1 (2 ^ 53)) as [Hc|Hc].
  - rewrite Hc. change (2 ^ 53) with 9007199254740992.
    rewrite shr_fexp_carry by lia. cbn [shr_m].
    replace (Zpos k + 1 <=? emax - prec) with true by (unfold emax, prec; lia).
    exists 4503599627370496%positive, (Zpos k + 1).
    split; [reflexivity|]. split; [lia|]. split; [lia|].
    rewrite Z.pow_add_r by lia. change (2 ^ 1) with 2.
    change (Z.pos 4503599627370496) with (2 ^ 52).
    change (2 ^ 53) with (2 * 2 ^ 52) in Hc. rewrite Hc in Hhalf. lia.
  - destruct m1 as [|mp|mp]; try lia.
    rewrite shr_fexp_canonical by lia.
    rewrite shr_m_record_of_loc.
    replace (Zpos k <=? emax - prec) with true by (unfold emax, prec; lia).
    exists mp, (Zpos k). split; [reflexivity|]. split; [lia|]. split; [lia|].
    exact Hhalf.
Qed.

(** [float(x)] for an int of 54 to 64 bits: a 53-bit mantissa with a
    positive exponent, at most half a unit of the last place away. *)
Lemma of_int_large p :
  2 ^ 53 <= Zpos p < 2 ^ 64 ->
  exists m e,
    of_int (Zpos p) = Ok (S754_finite false m e) /\
    2 ^ 52 <= Zpos m < 2 ^ 53 /\ 1 <= e <= 12 /\
    Z.abs (2 * (Zpos m * 2 ^ e - Zpos p)) <= 2 ^ e.
Proof.
  intros Hp.
  destruct (binary_round_aux_large_int p Hp) as (m & e & Hr & Hm & He & Hhalf).
  exists m, e. split; [|auto].
  pose proof (Zdigits2_bounds p) as Hd.
  assert (Hd1 : 54 <= Zdigits2 (Zpos p)).
  { destruct (Z_lt_le_dec (Zdigits2 (Zpos p)) 54) as [Hlt|]; [|assumption].
    assert (2 ^ Zdigits2 (Zpos p) <= 2 ^ 53) by (apply Z.pow_le_mono_r; lia).
    lia. }
  unfold of_int, binary_normalize, binary_round, shl_align.
  change (Z.pos (digits2_pos p)) with (Zdigits2 (Zpos p)).
  unfold fexp, SpecFloat.emin.
  destruct (Z.max (Zdigits2 (Z.pos p) + 0 - prec) (3 - emax - prec) - 0)
    as [|j|j] eqn:Hj; try (unfold prec, emax in Hj; lia);
    rewrite Hr; reflexivity.
Qed.

(** ** The square root of a rounded square *)

(** The core step of the square root on a 53-bit mantissa: the mantissa
    is scaled to 105 or 106 bits, and the location tells on which side of
    q + 1/2 the root lies. *)
Lemma SFsqrt_core_normal m e :
  2 ^ 52 <= Zpos m < 2 ^ 53 -> -52 <= e <= 12 ->
  exists h q r,
    20 <= h <= 52 /\ (e + 2 * h = 52 \/ e + 2 * h = 53) /\
    SFsqrt_core_binary prec emax (Zpos m) e =
      (q, - h, if r =? 0 then loc_Exact
               else loc_Inexact (if r <=? q then Lt else Gt)) /\
    Zpos m * 2 ^ (e + 2 * h) = q * q + r /\ 0 <= r <= 2 * q /\
    2 ^ 52 <= q < 2 ^ 53.
Proof.
  intros Hm He. unfold SFsqrt_core_binary.
  rewrite (Zdigits2_unique m 53) by exact Hm.
  rewrite !Z.div2_div.
  unfold fexp, SpecFloat.emin, prec, emax.
  set (h := 53 - (53 + e + 1) / 2).
  assert (Hh : 20 <= h <= 52 /\ (e + 2 * h = 52 \/ e + 2 * h = 53))
    by (subst h; Z.div_mod_to_equations; lia).
  replace (Z.min (Z.max ((53 + e + 1) / 2 - 53) (3 - 1024 - 53)) (e / 2))
    with (- h) by (subst h; Z.div_mod_to_equations; lia).
  replace (e - 2 * - h) with (e + 2 * h) by lia.
  set (m' := match e + 2 * h with Z0 => _ | Zpos _ => _ | Zneg _ => _ end).
  assert (Hm' : m' = Zpos m * 2 ^ (e + 2 * h)).
  { subst m'. destruct Hh as [_ [-> | ->]]; rewrite <- Z.shiftl_mul_pow2 by lia;
      reflexivity. }
  assert (Hb : 2 ^ 104 <= m' < 2 ^ 106).
  { rewrite Hm'. destruct Hh as [_ [-> | ->]];
      change (2 ^ 104) with (2 ^ 52 * 2 ^ 52);
      change (2 ^ 106) with (2 ^ 53 * 2 ^ 53);
      change (2 ^ 53) with (2 * 2 ^ 52) in *; lia. }
  pose proof (Z.sqrtrem_spec m') as Hs.
  destruct (Z.sqrtrem m') as [q r].
  destruct Hs as [Hs Hr]; [lia|].
  exists h, q, r.
  split; [lia|]. split; [tauto|]. split; [reflexivity|].
  split; [congruence|]. split; [exact Hr|].
  change (2 ^ 104) with (2 ^ 52 * 2 ^ 52) in Hb.
  change (2 ^ 106) with (2 ^ 53 * 2 ^ 53) in Hb.
  assert (0 < 2 ^ 52) by lia. assert (0 < 2 ^ 53) by lia.
  generalize dependent (2 ^ 52). generalize dependent (2 ^ 53). intros. nia.
Qed.




(** [int(np.sqrt(x))] returns for every positive int that numpy
    converts. *)
Lemma sqrt_candidate_returns x :
  0 < x < 2 ^ 64 -> exists c, sqrt_candidate x = Ok c.
Proof.
  intros Hx. destruct (Z_lt_le_dec x (2 ^ 53)) as [Hlt|Hge].
  - apply sqrt_candidate_total. lia.
  - destruct x as [|p|p]; try lia.
    destruct (of_int_large p) as (m & e & Hof & Hm & He & _); [lia|].
    destruct (SFsqrt_core_normal m e Hm ltac:(lia))
      as (h & q & r & Hh & _ & Hcore & _ & _ & Hqb).
    destruct q as [|q|q]; try lia.
    rewrite sqrt_candidate_in_range by lia. rewrite Hof. cbn [rbind].
    unfold sqrt. cbn [SFsqrt]. rewrite Hcore.
    destruct (binary_round_aux_canonical false q (- h)
                (if r =? 0 then loc_Exact
                 else loc_Inexact (if r <=? Zpos q then Lt else Gt)) Hqb)
      as (m' & e' & -> & _); [lia|].
    simpl. eauto.
Qed.


End Float64Facts.

(** * Facts about the reference root *)

Lemma floor_root_bits (s n : Z) (k : nat) : forall r,
  0 <= r -> r ^ n <= s < (r + 2 ^ Z.of_nat k) ^ n ->
  let r' := fold_left (fun r i => let r' := r + 2 ^ Z.of_nat i in
                                  if r' ^ n <=? s then r' else r)
                      (rev (seq 0 k)) r in
  0 <= r' /\ r' ^ n <= s < (r' + 1) ^ n.
Proof.
  induction k as [|k IH]; intros r Hr Hs.
  - simpl in *. auto.
  - rewrite seq_S, rev_app_distr. cbn [rev app fold_left Nat.add].
    assert (Hpow : 2 ^ Z.of_nat (S k) = 2 ^ Z.of_nat k + 2 ^ Z.of_nat k)
      by (rewrite Nat2Z.inj_succ, Z.pow_succ_r by lia; lia).
    assert (0 < 2 ^ Z.of_nat k) by (apply Z.pow_pos_nonneg; lia).
    destruct (Z.leb_spec ((r + 2 ^ Z.of_nat k) ^ n) s).
    + apply IH; [lia|]. split; [assumption|].
      replace (r + 2 ^ Z.of_nat k + 2 ^ Z.of_nat k) with (r + 2 ^ Z.of_nat (S k))
        by lia.
      apply Hs.
    + apply IH; [lia|]. lia.
Qed.

(** [floor_root s n] is the integer part of the n-th root of s. *)
Lemma floor_root_spec (s n : Z) :
  1 <= n -> 0 <= s ->
  0 <= floor_root s n /\ floor_root s n ^ n <= s < (floor_root s n + 1) ^ n.
Proof.
  intros Hn Hs. unfold floor_root. apply floor_root_bits; [lia|].
  rewrite Z.pow_0_l by lia. split; [assumption|].
  rewrite Z.add_0_l, Z2Nat.id by (pose proof (Z.log2_nonneg s); lia).
  assert (Hlt : s < 2 ^ (Z.log2 s + 1)).
  { destruct (Z.eq_dec s 0) as [->|]; [reflexivity|]. apply Z.log2_spec. lia. }
  assert (1 <= 2 ^ (Z.log2 s + 1)) by lia.
  assert (2 ^ (Z.log2 s + 1) <= (2 ^ (Z.log2 s + 1)) ^ n).
  { rewrite <- (Z.pow_1_r (2 ^ (Z.log2 s + 1))) at 1.
    apply Z.pow_le_mono_r; lia. }
  lia.
Qed.

(** * Facts about the search *)

Import Float64Facts.

Lemma elem_of_py_range (start stop k : Z) :
  k ∈ py_range start stop <-> start <= k < stop.
Proof. unfold py_range. rewrite elem_of_seqZ. lia. Qed.

Lemma NoDup_py_range (start stop : Z) : NoDup (py_range start stop).
Proof. apply NoDup_seqZ. Qed.

Lemma py_range_empty (start stop : Z) : stop <= start -> py_range start stop = [].
Proof.
  intros H. unfold py_range, seqZ.
  replace (Z.to_nat (stop - start)) with 0%nat by lia. reflexivity.
Qed.

Lemma elem_of_product {A B : Type} (xs : list A) (ys : list B) (x : A) (y : B) :
  (x, y) ∈ product xs ys <-> x ∈ xs /\ y ∈ ys.
Proof.
  unfold product. rewrite list_elem_of_bind. split.
  - intros (x' & Hy & Hx). apply list_elem_of_fmap in Hy as (y' & [= -> ->] & Hy).
    split; assumption.
  - intros [Hx Hy]. exists x. split; [|assumption].
    apply list_elem_of_fmap. eauto.
Qed.

Lemma NoDup_product {A B : Type} (xs : list A) (ys : list B) :
  NoDup xs -> NoDup ys -> NoDup (product xs ys).
Proof.
  intros Hxs Hys. unfold product. apply NoDup_bind; [| |assumption].
  - intros x1 x2 [x y] _ _ H1 H2.
    apply list_elem_of_fmap in H1 as (? & [= -> _] & _).
    apply list_elem_of_fmap in H2 as (? & [= -> _] & _). reflexivity.
  - intros x _. apply NoDup_fmap_2; [|assumption]. intros y y' [= ->]. reflexivity.
Qed.

Lemma length_py_range (start stop : Z) :
  start <= stop -> Z.of_nat (length (py_range start stop)) = stop - start.
Proof. intros H. unfold py_range. rewrite length_seqZ. lia. Qed.

Lemma length_product {A B : Type} (xs : list A) (ys : list B) :
  length (product xs ys) = (length xs * length ys)%nat.
Proof.
  unfold product. induction xs as [|x xs IH]; [reflexivity|].
  rewrite bind_cons, length_app, length_fmap, IH. reflexivity.
Qed.

(** Among items with distinct keys at most one has a given key. *)
Lemma filter_key_length {A K : Type} `{EqDecision K} (f : A -> K) (k : K)
    (l : list A) :
  NoDup (f <$> l) -> (length (filter (fun x => f x = k) l) <= 1)%nat.
Proof.
  induction l as [|x l IH]; simpl; intros Hnd; [lia|].
  apply NoDup_cons in Hnd as [Hx Hnd]. specialize (IH Hnd).
  rewrite filter_cons. destruct (decide (f x = k)) as [<-|]; [|exact IH].
  simpl. destruct (filter (fun y => f y = f x) l) as [|y l'] eqn:Hf; [simpl; lia|].
  exfalso. apply Hx.
  assert (Hy : y ∈ filter (fun y => f y = f x) l) by (rewrite Hf; left).
  apply list_elem_of_filter in Hy as [<- Hy].
  apply list_elem_of_fmap. eauto.
Qed.

Lemma list_filter_ext_in {A : Type} (P Q : A -> Prop)
    `{forall x, Decision (P x)} `{forall x, Decision (Q x)} (l : list A) :
  (forall x, x ∈ l -> P x <-> Q x) -> filter P l = filter Q l.
Proof.
  induction l as [|x l IH]; intros HPQ; [reflexivity|].
  rewrite !filter_cons.
  rewrite IH by (intros; apply HPQ; right; assumption).
  pose proof (HPQ x ltac:(left)) as Hx.
  destruct (decide (P x)), (decide (Q x)); try reflexivity; tauto.
Qed.

(** The error metrics on an exact solution. *)

Lemma fermat_difference_zero (a b c n : Z) :
  fermat_difference a b c n = 0 <-> a ^ n + b ^ n = c ^ n.
Proof. unfold fermat_difference. lia. Qed.

Lemma fermat_relative_error_exact (a b c n : Z) :
  0 <= n -> 0 < c -> a ^ n + b ^ n = c ^ n ->
  fermat_relative_error a b c n = Ok zero.
Proof.
  intros Hn Hc Heq. unfold fermat_relative_error.
  replace (a ^ n + b ^ n - c ^ n) with 0 by lia.
  apply truediv_zero, Z.pow_pos_nonneg; lia.
Qed.


(** An integer whose n-th power brackets a^n + b^n from below lies
    between the larger of a and b and twice that. *)
Lemma bracket_range (n a b c_low : Z) :
  1 <= n -> 1 <= a -> 1 <= b -> 0 <= c_low ->
  c_low ^ n <= a ^ n + b ^ n < (c_low + 1) ^ n ->
  Z.max a b <= c_low <= 2 * Z.max a b /\
  (2 <= n -> c_low < 2 * Z.max a b) /\
  (n = 1 -> c_low = a + b).
Proof.
  intros Hn Ha Hb Hc [Hlo Hhi].
  set (m := Z.max a b) in *.
  assert (Hm : 1 <= m) by lia.
  assert (Ham : a ^ n <= m ^ n) by (apply Z.pow_le_mono_l; lia).
  assert (Hbm : b ^ n <= m ^ n) by (apply Z.pow_le_mono_l; lia).
  assert (Hmn : m ^ n <= a ^ n + b ^ n).
  { assert (0 < a ^ n) by (apply Z.pow_pos_nonneg; lia).
    assert (0 < b ^ n) by (apply Z.pow_pos_nonneg; lia).
    destruct (Z.max_spec a b) as [[_ Heq]|[_ Heq]]; fold m in Heq; rewrite Heq; lia. }
  assert (Hlow : m <= c_low).
  { destruct (Z_le_gt_dec m c_low) as [|Hgt]; [assumption|].
    assert ((c_low + 1) ^ n <= m ^ n) by (apply Z.pow_le_mono_l; lia). lia. }
  assert (H2 : 2 <= n -> c_low < 2 * m).
  { intros Hn2. destruct (Z_lt_le_dec c_low (2 * m)) as [|Hge]; [assumption|].
    assert (Hp : (2 * m) ^ n <= c_low ^ n) by (apply Z.pow_le_mono_l; lia).
    rewrite Z.pow_mul_l in Hp.
    assert (4 <= 2 ^ n).
    { change 4 with (2 ^ 2). apply Z.pow_le_mono_r; lia. }
    assert (0 < m ^ n) by (apply Z.pow_pos_nonneg; lia). nia. }
  assert (H1 : n = 1 -> c_low = a + b).
  { intros ->. rewrite !Z.pow_1_r in *. lia. }
  split; [|auto]. split; [assumption|].
  destruct (Z.eq_dec n 1) as [Hn1|Hn1]; [rewrite (H1 Hn1); lia|].
  assert (c_low < 2 * m) by (apply H2; lia). lia.
Qed.

(** The exact pass. *)

Lemma exact_row_inv (max_value n a b : Z) (rows : list row) :
  exact_row max_value n a b = Ok rows ->
  rows = [] \/
  exists c, rows = [mk_row a b c 0 zero n] /\
            sqrt_candidate (a ^ 2 + b ^ 2) = Ok c /\
            c ^ 2 = a ^ 2 + b ^ 2 /\ c <= max_value.
Proof.
  unfold exact_row. intros H. apply rbind_Ok in H as (c & Hc & H).
  destruct (Z.eqb_spec (c ^ 2) (a ^ 2 + b ^ 2)) as [Heq|_];
    destruct (Z.leb_spec c max_value) as [Hle|_];
    simpl in H; injection H as <-; eauto.
  right. exists c. auto.
Qed.

Lemma exact_solutions_elem (max_value n : Z) (rows : list row) (r : row) :
  exact_solutions max_value n = Ok rows ->
  r ∈ rows <->
  exists a b, 1 <= a <= b /\ b <= max_value /\
              exact_row max_value n a b = Ok [r].
Proof.
  unfold exact_solutions. intros H. rewrite (collect_elem _ _ _ _ H). split.
  - intros (a & ys & Ha & Hys & Hr).
    rewrite (collect_elem _ _ _ _ Hys) in Hr.
    destruct Hr as (b & zs & Hb & Hzs & Hr).
    apply elem_of_py_range in Ha, Hb.
    exists a, b. split; [lia|]. split; [lia|].
    destruct (exact_row_inv _ _ _ _ _ Hzs) as [-> | (c & -> & _)].
    + inversion Hr.
    + apply list_elem_of_singleton in Hr as ->. assumption.
  - intros (a & b & Hab & Hb & Hr).
    assert (Ha : a ∈ py_range 1 (max_value + 1))
      by (apply elem_of_py_range; lia).
    destruct (collect_each_Ok _ _ _ _ H Ha) as (ys & Hys).
    exists a, ys. split; [assumption|]. split; [assumption|].
    rewrite (collect_elem _ _ _ _ Hys).
    exists b, [r]. split; [apply elem_of_py_range; lia|].
    split; [assumption | left].
Qed.

(** Every row of the exact pass is a Pythagorean triple inside the bound. *)
Lemma exact_solutions_sound (max_value n : Z) (rows : list row) (r : row) :
  exact_solutions max_value n = Ok rows -> r ∈ rows ->
  row_a r ^ 2 + row_b r ^ 2 = row_c r ^ 2 /\
  row_error r = 0 /\ row_relative_error r = zero /\ row_n r = n /\
  1 <= row_a r <= row_b r /\ row_b r <= max_value /\
  row_a r < row_c r /\ row_b r < row_c r /\ row_c r <= max_value.
Proof.
  intros H Hr. apply (exact_solutions_elem _ _ _ _ H) in Hr
    as (a & b & Hab & Hb & Hrow).
  destruct (exact_row_inv _ _ _ _ _ Hrow) as [[=] | (c & [= ->] & Hc & Hsq & Hle)].
  simpl. apply sqrt_candidate_nonneg in Hc.
  repeat split; try lia; nia.
Qed.

Lemma squares_below_sqrt_bound (max_value a b : Z) :
  max_value < sqrt_bound -> 1 <= a <= max_value -> 1 <= b <= max_value ->
  0 < a ^ 2 + b ^ 2 < 2 ^ 64.
Proof.
  unfold sqrt_bound. intros Hm Ha Hb. rewrite !Z.pow_2_r.
  assert (a * a <= 3037000499 * 3037000499) by nia.
  assert (b * b <= 3037000499 * 3037000499) by nia.
  lia.
Qed.

(** A pair whose sum of squares numpy converts is handled without an
    exception; any other pair raises [TypeError]. *)
Lemma exact_row_returns (max_value n a b : Z) :
  0 < a ^ 2 + b ^ 2 < 2 ^ 64 -> exists rows, exact_row max_value n a b = Ok rows.
Proof.
  intros H. unfold exact_row.
  destruct (sqrt_candidate_returns _ H) as (c & ->). simpl.
  destruct (_ && _); eauto.
Qed.



(** Below [sqrt_bound] the exact pass raises nothing. *)
Lemma exact_solutions_returns (max_value n : Z) :
  max_value < sqrt_bound -> exists rows, exact_solutions max_value n = Ok rows.
Proof.
  intros Hm. unfold exact_solutions.
  apply collect_total. intros a Ha. apply elem_of_py_range in Ha.
  apply collect_total. intros b Hb. apply elem_of_py_range in Hb.
  apply exact_row_returns, (squares_below_sqrt_bound max_value); lia.
Qed.

Lemma exact_solutions_total (max_value n : Z) :
  max_value < exact_bound -> exists rows, exact_solutions max_value n = Ok rows.
Proof.
  intros Hm. apply exact_solutions_returns.
  unfold exact_bound in Hm. unfold sqrt_bound. lia.
Qed.



(** The pairs visited by the exact pass, in order. *)
Lemma exact_solutions_keys (max_value n : Z) (rows : list row) :
  exact_solutions max_value n = Ok rows ->
  sublist ((fun r => (row_a r, row_b r)) <$> rows)
          (py_range 1 (max_value + 1) ≫=
             (fun a => pair a <$> py_range a (max_value + 1))).
Proof.
  unfold exact_solutions. apply collect_keys_sublist_bind.
  intros a ys _. apply collect_keys_sublist.
  intros b zs _ Hzs.
  destruct (exact_row_inv _ _ _ _ _ Hzs) as [-> | (c & -> & _)]; eauto.
Qed.

(** The exact pass emits at most one row for each pair (a, b). *)
Lemma exact_solutions_NoDup (max_value n : Z) (rows : list row) :
  exact_solutions max_value n = Ok rows ->
  NoDup ((fun r => (row_a r, row_b r)) <$> rows).
Proof.
  intros H. refine (sublist_NoDup _ _ _ (exact_solutions_keys _ _ _ H)).
  apply NoDup_bind; [| |apply NoDup_py_range].
  - intros a1 a2 [a b] _ _ H1 H2.
    apply list_elem_of_fmap in H1 as (? & [= -> _] & _).
    apply list_elem_of_fmap in H2 as (? & [= -> _] & _). reflexivity.
  - intros a _. apply NoDup_fmap_2; [|apply NoDup_py_range].
    intros y y' [= ->]. reflexivity.
Qed.

(** One iteration of the exact pass under a lower bound. *)
Lemma exact_row_bound (mv1 mv2 n a b : Z) (rows : list row) :
  mv1 <= mv2 ->
  exact_row mv2 n a b = Ok rows ->
  exists rows', exact_row mv1 n a b = Ok rows' /\
    forall r, r ∈ rows' <-> r ∈ rows /\ row_c r <= mv1.
Proof.
  unfold exact_row. intros Hle H. apply rbind_Ok in H as (c & -> & H). simpl.
  destruct (Z.eqb_spec (c ^ 2) (a ^ 2 + b ^ 2)) as [Heq|Hne]; simpl in *.
  - destruct (Z.leb_spec c mv2); destruct (Z.leb_spec c mv1); try lia;
      injection H as <-; eexists; (split; [reflexivity|]); intros r;
      rewrite ?list_elem_of_singleton; split.
    + intros ->. simpl. auto.
    + tauto.
    + intros Hr. inversion Hr.
    + intros [-> Hc]. simpl in Hc. lia.
    + intros Hr. inversion Hr.
    + tauto.
  - injection H as <-. eexists. split; [reflexivity|]. intros r. split.
    + intros Hr. inversion Hr.
    + intros [Hr _]. inversion Hr.
Qed.

(** One candidate of the near-solution search under a lower bound. *)
Lemma near_row_bound (mv1 mv2 n : Z) (t : float) (a b c : Z)
    (sols : list near_solution) :
  mv1 <= mv2 ->
  near_row mv2 n t a b c = Ok sols ->
  exists sols', near_row mv1 n t a b c = Ok sols' /\
    forall s, s ∈ sols' <-> s ∈ sols /\ near_c s <= mv1.
Proof.
  intros Hle H. unfold near_row in *.
  destruct (Z.leb_spec c 0); simpl in *.
  - injection H as <-. eexists. split; [reflexivity|]. intros s. split.
    + intros Hs. inversion Hs.
    + intros [Hs _]. inversion Hs.
  - destruct (Z.ltb_spec mv2 c); destruct (Z.ltb_spec mv1 c); try lia; simpl in *.
    + injection H as <-. eexists. split; [reflexivity|]. intros s. split.
      * intros Hs. inversion Hs.
      * intros [Hs _]. inversion Hs.
    + destruct (fermat_relative_error a b c n) as [rel|]; [|discriminate].
      simpl in H. eexists. split; [reflexivity|]. intros s. split.
      * intros Hs. inversion Hs.
      * destruct (leb rel t); injection H as <-; intros [Hs Hc].
        -- apply list_elem_of_singleton in Hs as ->. simpl in Hc. lia.
        -- inversion Hs.
    + exists sols. split; [exact H|]. intros s. split; [|tauto].
      intros Hs. split; [exact Hs|].
      apply rbind_Ok in H as (rel & _ & H).
      destruct (leb rel t); injection H as <-.
      * apply list_elem_of_singleton in Hs as ->. simpl. lia.
      * inversion Hs.
Qed.

Section SearchFacts.

Variable float_root : Z -> Z -> Z.

(** Selection, lines 70-88. *)

Lemma root_candidate_inv (s n c : Z) :
  root_candidate float_root s n = Ok c -> n <> 0 /\ c = float_root s n.
Proof.
  unfold root_candidate. intros H.
  apply rbind_Ok in H as (y & Hy & H). apply rbind_Ok in H as (x & _ & [= <-]).
  split; [|reflexivity]. intros ->. discriminate.
Qed.

Lemma select_candidate_inv (n a b c error : Z) (rel_error : float) :
  select_candidate float_root n a b = Ok (Some (c, error, rel_error)) ->
  let c_low := float_root (a ^ n + b ^ n) n in
  let c_high := c_low + 1 in
  let error_low := fermat_difference a b c_low n in
  let error_high := fermat_difference a b c_high n in
  n <> 0 /\ 0 < c /\
  error = fermat_difference a b c n /\
  fermat_relative_error a b c n = Ok rel_error /\
  ((c = c_low /\ error_low <= error_high) \/
   (c = c_high /\ (error_high < error_low \/ c_low <= 0))).
Proof.
  unfold select_candidate. intros H.
  apply rbind_Ok in H as (c_low & Hroot & H).
  apply root_candidate_inv in Hroot as [Hn ->]. cbv zeta in H |- *.
  destruct (Z.leb_spec (fermat_difference a b (float_root (a ^ n + b ^ n) n) n)
              (fermat_difference a b (float_root (a ^ n + b ^ n) n + 1) n));
    destruct (Z.ltb_spec 0 (float_root (a ^ n + b ^ n) n)); simpl in H;
    try (apply rbind_Ok in H as (rel & Hrel & [= <- <- <-]); auto 10);
    destruct (Z.ltb_spec 0 (float_root (a ^ n + b ^ n) n + 1)); try discriminate;
    apply rbind_Ok in H as (rel & Hrel & [= <- <- <-]); auto 10.
Qed.

(** The retained candidate carries the smaller of the two errors. *)
Lemma select_candidate_min (n a b c error : Z) (rel_error : float) :
  0 <= n -> 1 <= a -> 1 <= b ->
  select_candidate float_root n a b = Ok (Some (c, error, rel_error)) ->
  let c_low := float_root (a ^ n + b ^ n) n in
  error = Z.min (fermat_difference a b c_low n)
                (fermat_difference a b (c_low + 1) n).
Proof.
  intros Hn Ha Hb H. apply select_candidate_inv in H.
  cbv zeta in H |- *.
  destruct H as (Hn0 & Hc & -> & _ & [[-> Hle] | [-> [Hlt | Hlow]]]); try lia.
  set (c_low := float_root (a ^ n + b ^ n) n) in *.
  assert (c_low = 0) as -> by lia.
  unfold fermat_difference. simpl (0 + 1).
  rewrite Z.pow_0_l, Z.pow_1_l by lia.
  assert (0 < a ^ n) by (apply Z.pow_pos_nonneg; lia).
  assert (0 < b ^ n) by (apply Z.pow_pos_nonneg; lia).
  lia.
Qed.

(** The grid loop. *)

Lemma grid_row_inv (n a b : Z) (rows : list row) :
  grid_row float_root n (a, b) = Ok rows ->
  rows = [] \/
  exists c error rel_error,
    rows = [mk_row a b c error rel_error n] /\
    select_candidate float_root n a b = Ok (Some (c, error, rel_error)) /\
    (2 < n -> ltb one_tenth rel_error = false).
Proof.
  unfold grid_row. intros H. apply rbind_Ok in H as (sel & Hsel & H).
  destruct sel as [[[c error] rel]|]; [|injection H as <-; auto].
  destruct (Z.ltb_spec 2 n) as [Hn|Hn]; simpl in H.
  - destruct (ltb one_tenth rel) eqn:Hrel; injection H as <-; [auto|].
    right. exists c, error, rel. auto.
  - injection H as <-. right. exists c, error, rel.
    split; [reflexivity|]. split; [assumption|]. lia.
Qed.

Lemma grid_rows_elem (max_value n : Z) (rows : list row) (r : row) :
  grid_rows float_root max_value n = Ok rows ->
  r ∈ rows <->
  exists a b, 1 <= a <= Z.min max_value 30 /\ 1 <= b <= Z.min max_value 30 /\
              grid_row float_root n (a, b) = Ok [r].
Proof.
  unfold grid_rows. intros H. rewrite (collect_elem _ _ _ _ H). split.
  - intros ([a b] & ys & Hab & Hys & Hr).
    apply elem_of_product in Hab as [Ha Hb].
    apply elem_of_py_range in Ha, Hb.
    exists a, b. split; [lia|]. split; [lia|].
    destruct (grid_row_inv _ _ _ _ Hys) as [-> | (c & e & rel & -> & _)].
    + inversion Hr.
    + apply list_elem_of_singleton in Hr as ->. assumption.
  - intros (a & b & Ha & Hb & Hr).
    exists (a, b), [r]. split; [|split; [assumption | left]].
    apply elem_of_product. split; apply elem_of_py_range; lia.
Qed.

(** The grid emits at most one row for each pair (a, b). *)
Lemma grid_rows_NoDup (max_value n : Z) (rows : list row) :
  grid_rows float_root max_value n = Ok rows ->
  NoDup ((fun r => (row_a r, row_b r)) <$> rows).
Proof.
  unfold grid_rows. intros H.
  assert (Hsub : sublist ((fun r => (row_a r, row_b r)) <$> rows)
                   (id <$> product (py_range 1 (Z.min max_value 30 + 1))
                                   (py_range 1 (Z.min max_value 30 + 1)))).
  { eapply collect_keys_sublist; [|exact H].
    intros [a b] ys _ Hys.
    destruct (grid_row_inv _ _ _ _ Hys) as [-> | (c & e & rel & -> & _)]; eauto. }
  rewrite list_fmap_id in Hsub.
  refine (sublist_NoDup _ _ _ Hsub).
  apply NoDup_product; apply NoDup_py_range.
Qed.

(** The per-exponent table and the dict. *)

Lemma generate_data_inv (max_value n : Z) (rows : list row) :
  generate_data float_root max_value n = Ok rows ->
  exists grid,
    grid_rows float_root max_value n = Ok grid /\
    ((n <> 2 /\ rows = grid) \/
     (n = 2 /\ exists exact, exact_solutions max_value 2 = Ok exact /\
                             rows = grid ++ exact)).
Proof.
  unfold generate_data. intros H. apply rbind_Ok in H as (grid & Hgrid & H).
  exists grid. split; [assumption|].
  destruct (Z.eqb_spec n 2) as [->|Hn].
  - apply rbind_Ok in H as (exact & Hexact & [= <-]). right. eauto.
  - injection H as <-. left. auto.
Qed.

Lemma generate_test_cases_lookup (max_value : Z) (n_values : list Z)
    (results : gmap Z (list row)) (n : Z) (rows : list row) :
  generate_test_cases float_root max_value n_values = Ok results ->
  results !! n = Some rows ->
  n ∈ n_values /\ generate_data float_root max_value n = Ok rows.
Proof.
  unfold generate_test_cases. intros H Hn.
  destruct (for_each_insert_lookup _ _ _ _ _ _ H Hn) as [?|[_ He]];
    [assumption|].
  rewrite lookup_empty in He. discriminate.
Qed.

(** The near-solution search. *)

Lemma near_row_inv (max_value n : Z) (t : float) (a b c : Z)
    (sols : list near_solution) :
  near_row max_value n t a b c = Ok sols ->
  sols = [] \/
  exists rel_error,
    sols = [mk_near_solution a b c (fermat_difference a b c n) rel_error] /\
    0 < c <= max_value /\
    fermat_relative_error a b c n = Ok rel_error /\
    leb rel_error t = true.
Proof.
  unfold near_row. intros H.
  destruct (Z.leb_spec c 0); destruct (Z.ltb_spec max_value c); simpl in H;
    try (injection H as <-; auto; fail).
  apply rbind_Ok in H as (rel & Hrel & H).
  destruct (leb rel t) eqn:Hle; injection H as <-; [|auto].
  right. exists rel. repeat split; auto; lia.
Qed.

Lemma near_row_keep (max_value n : Z) (t : float) (a b c : Z) (rel_error : float) :
  0 < c <= max_value ->
  fermat_relative_error a b c n = Ok rel_error ->
  leb rel_error t = true ->
  near_row max_value n t a b c =
  Ok [mk_near_solution a b c (fermat_difference a b c n) rel_error].
Proof.
  intros Hc Hrel Hle. unfold near_row.
  destruct (Z.leb_spec c 0); [lia|]. destruct (Z.ltb_spec max_value c); [lia|].
  simpl. rewrite Hrel. simpl. rewrite Hle. reflexivity.
Qed.

Lemma find_near_solutions_elem (max_value n : Z) (t : float)
    (sols : list near_solution) (s : near_solution) :
  find_near_solutions float_root max_value n t = Ok sols ->
  s ∈ sols <->
  exists a b c,
    1 <= a <= max_value /\ 1 <= b <= max_value /\
    (c = float_root (a ^ n + b ^ n) n \/ c = float_root (a ^ n + b ^ n) n + 1) /\
    near_row max_value n t a b c = Ok [s].
Proof.
  unfold find_near_solutions. intros H. rewrite (collect_elem _ _ _ _ H). split.
  - intros (a & ys & Ha & Hys & Hs).
    rewrite (collect_elem _ _ _ _ Hys) in Hs.
    destruct Hs as (b & zs & Hb & Hzs & Hs).
    apply rbind_Ok in Hzs as (c_approx & Hroot & Hzs).
    apply root_candidate_inv in Hroot as [_ ->].
    rewrite (collect_elem _ _ _ _ Hzs) in Hs.
    destruct Hs as (c & ws & Hc & Hws & Hs).
    apply elem_of_py_range in Ha, Hb.
    exists a, b, c. split; [lia|]. split; [lia|]. split.
    + rewrite !elem_of_cons in Hc. destruct Hc as [?|[?|Hc]]; auto. inversion Hc.
    + destruct (near_row_inv _ _ _ _ _ _ _ Hws) as [-> | (rel & -> & _)].
      * inversion Hs.
      * apply list_elem_of_singleton in Hs as ->. assumption.
  - intros (a & b & c & Ha & Hb & Hc & Hrow).
    assert (Ha' : a ∈ py_range 1 (max_value + 1)) by (apply elem_of_py_range; lia).
    assert (Hb' : b ∈ py_range 1 (max_value + 1)) by (apply elem_of_py_range; lia).
    destruct (collect_each_Ok _ _ _ _ H Ha') as (ys & Hys).
    exists a, ys. split; [assumption|]. split; [assumption|].
    rewrite (collect_elem _ _ _ _ Hys).
    destruct (collect_each_Ok _ _ _ _ Hys Hb') as (zs & Hzs).
    exists b, zs. split; [assumption|]. split; [assumption|].
    apply rbind_Ok in Hzs as (c_approx & Hroot & Hzs).
    apply root_candidate_inv in Hroot as [_ ->].
    rewrite (collect_elem _ _ _ _ Hzs).
    exists c, [s]. split; [|split; [assumption | left]].
    rewrite !elem_of_cons. tauto.
Qed.

(** Raising the threshold keeps every row, and raises no new exception. *)
Lemma near_row_mono (max_value n : Z) (t1 t2 : float) (a b c : Z)
    (sols : list near_solution) :
  leb t1 t2 = true ->
  near_row max_value n t1 a b c = Ok sols ->
  exists sols', near_row max_value n t2 a b c = Ok sols' /\
                forall s, s ∈ sols -> s ∈ sols'.
Proof.
  intros Ht H. destruct (near_row_inv _ _ _ _ _ _ _ H)
    as [-> | (rel & -> & Hc & Hrel & Hle)].
  - unfold near_row in *.
    destruct ((c <=? 0) || (max_value <? c)); [eauto|].
    destruct (fermat_relative_error a b c n) as [rel|]; [|discriminate]. simpl.
    destruct (leb rel t2); eexists; (split; [reflexivity|]);
      intros s Hs; inversion Hs.
  - rewrite (near_row_keep _ _ t2 _ _ _ rel Hc Hrel (leb_trans _ _ _ Hle Ht)).
    eauto.
Qed.

(** Totality: on exponents up to 208 the powers of the grid stay below
    2^1023, so neither the conversion to float nor the division
    overflows. *)

Lemma fermat_relative_error_total (a b c n : Z) :
  0 <= n -> 0 < c -> 0 <= a ^ n + b ^ n < 2 ^ 1023 ->
  exists rel_error, fermat_relative_error a b c n = Ok rel_error.
Proof.
  intros Hn Hc Hs. unfold fermat_relative_error.
  assert (0 < c ^ n) by (apply Z.pow_pos_nonneg; lia).
  apply truediv_total; [lia | assumption |].
  assert (1 < 2 ^ 1023) by (apply Z.pow_gt_1; lia).
  generalize dependent (2 ^ 1023). intros. nia.
Qed.

Lemma root_candidate_total (s n : Z) :
  1 <= n -> 0 <= s < 2 ^ 1023 ->
  root_candidate float_root s n = Ok (float_root s n).
Proof.
  intros Hn Hs. unfold root_candidate.
  destruct (truediv_total 1 n) as (y & ->); [lia | lia | |].
  { assert (1 < 2 ^ 1023) by (apply Z.pow_gt_1; lia).
    generalize dependent (2 ^ 1023). intros. nia. }
  destruct (of_int_total s Hs) as (x & ->). reflexivity.
Qed.

Lemma select_candidate_total (n a b : Z) :
  1 <= n -> 0 <= a ^ n + b ^ n < 2 ^ 1023 ->
  exists sel, select_candidate float_root n a b = Ok sel.
Proof.
  intros Hn Hs. unfold select_candidate.
  rewrite root_candidate_total by assumption. cbn [rbind].
  set (c_low := float_root (a ^ n + b ^ n) n).
  destruct (_ && _) eqn:Hsel.
  - apply andb_true_iff in Hsel as [_ Hc%Z.ltb_lt].
    destruct (fermat_relative_error_total a b c_low n) as (rel & ->);
      try lia; simpl; eauto.
  - destruct (Z.ltb_spec 0 (c_low + 1)); [|eauto].
    destruct (fermat_relative_error_total a b (c_low + 1) n) as (rel & ->);
      try lia; simpl; eauto.
Qed.

Lemma grid_power_bound (n a b : Z) :
  1 <= n <= 208 -> 1 <= a <= 30 -> 1 <= b <= 30 ->
  0 <= a ^ n + b ^ n < 2 ^ 1023.
Proof.
  intros Hn Ha Hb.
  assert (H30 : 30 ^ 208 < 2 ^ 1022) by (vm_compute; reflexivity).
  assert (Hpow : forall x, 1 <= x <= 30 -> 0 < x ^ n <= 30 ^ 208).
  { intros x Hx. split; [apply Z.pow_pos_nonneg; lia|].
    transitivity (30 ^ n);
      [apply Z.pow_le_mono_l | apply Z.pow_le_mono_r]; lia. }
  pose proof (Hpow a Ha). pose proof (Hpow b Hb).
  replace (2 ^ 1023) with (2 * 2 ^ 1022)
    by (rewrite <- Z.pow_succ_r by lia; reflexivity).
  generalize dependent (2 ^ 1022). generalize dependent (30 ^ 208). intros. lia.
Qed.

Lemma grid_rows_total (max_value n : Z) :
  1 <= n <= 208 -> exists rows, grid_rows float_root max_value n = Ok rows.
Proof.
  intros Hn. unfold grid_rows. apply collect_total. intros [a b] Hab.
  apply elem_of_product in Hab as [Ha Hb]. apply elem_of_py_range in Ha, Hb.
  unfold grid_row.
  destruct (select_candidate_total n a b) as (sel & ->);
    [lia | apply grid_power_bound; lia |].
  cbn [rbind]. destruct sel as [[[c error] rel]|]; [|eauto].
  destruct (_ && _); eauto.
Qed.

Lemma generate_data_total (max_value n : Z) :
  1 <= n <= 208 -> (n = 2 -> max_value < exact_bound) ->
  exists rows, generate_data float_root max_value n = Ok rows.
Proof.
  intros Hn Hb. unfold generate_data.
  destruct (grid_rows_total max_value n Hn) as (grid & ->). cbn [rbind].
  destruct (Z.eqb_spec n 2) as [->|_]; [|eauto].
  destruct (exact_solutions_total max_value 2 (Hb eq_refl)) as (exact & ->).
  simpl. eauto.
Qed.

(** The batch generator returns a table for every requested exponent. *)
Lemma generate_test_cases_total (max_value : Z) (n_values : list Z) :
  (forall n, n ∈ n_values -> 1 <= n <= 208) ->
  (2 ∈ n_values -> max_value < exact_bound) ->
  exists results,
    generate_test_cases float_root max_value n_values = Ok results /\
    forall n, n ∈ n_values ->
      exists rows, generate_data float_root max_value n = Ok rows /\
                   results !! n = Some rows.
Proof.
  intros Hn Hb. unfold generate_test_cases.
  apply for_each_insert_total. intros n Hin.
  apply generate_data_total; [auto|]. intros ->. auto.
Qed.



(** Further facts about the tables and the two searches. *)

(** Every row of a table, whichever loop appended it. *)
Lemma generate_data_row (max_value n : Z) (rows : list row) (r : row) :
  0 <= n ->
  generate_data float_root max_value n = Ok rows -> r ∈ rows ->
  0 < row_c r /\ row_n r = n /\
  row_error r = fermat_difference (row_a r) (row_b r) (row_c r) n /\
  fermat_relative_error (row_a r) (row_b r) (row_c r) n
    = Ok (row_relative_error r).
Proof.
  intros Hn Hdata Hr.
  assert (Hgrid_ok : forall grid, grid_rows float_root max_value n = Ok grid ->
            r ∈ grid ->
            0 < row_c r /\ row_n r = n /\
            row_error r = fermat_difference (row_a r) (row_b r) (row_c r) n /\
            fermat_relative_error (row_a r) (row_b r) (row_c r) n
              = Ok (row_relative_error r)).
  { intros grid Hgrid Hin.
    apply (grid_rows_elem _ _ _ _ Hgrid) in Hin as (a & b & Ha & Hb & Hrow).
    destruct (grid_row_inv _ _ _ _ Hrow)
      as [[=] | (c & error & rel & [= ->] & Hsel & _)].
    apply select_candidate_inv in Hsel as (_ & Hc & He & Hrel & _). simpl. auto. }
  apply generate_data_inv in Hdata
    as (grid & Hgrid & [[Hn2 ->] | (-> & exact & Hexact & ->)]); [eauto|].
  apply elem_of_app in Hr as [Hr|Hr]; [eauto|].
  pose proof (exact_solutions_sound _ _ _ _ Hexact Hr)
    as (Heq & -> & -> & Hrn & Hab & Hb & Hac & Hbc & Hc).
  split; [lia|]. split; [assumption|]. split.
  - symmetry. apply fermat_difference_zero, Heq.
  - apply fermat_relative_error_exact; [lia | lia | exact Heq].
Qed.

(** On an exact solution whose root the library power misses by at most
    one, downwards, the selection returns the solution. *)
Lemma select_candidate_exact (n a b c : Z) (sel : option (Z * Z * float)) :
  1 <= n -> 0 < c -> a ^ n + b ^ n = c ^ n ->
  float_root (c ^ n) n = c \/ float_root (c ^ n) n = c - 1 ->
  select_candidate float_root n a b = Ok sel ->
  sel = Some (c, 0, zero).
Proof.
  intros Hn Hc Heq Hroot H. unfold select_candidate in H.
  apply rbind_Ok in H as (c_low & Hlow & H).
  apply root_candidate_inv in Hlow as [_ ->]. cbv zeta in H.
  rewrite Heq in H.
  assert (Hrel : fermat_relative_error a b c n = Ok zero)
    by (apply fermat_relative_error_exact; [lia | lia | exact Heq]).
  assert (H0 : fermat_difference a b c n = 0)
    by (apply fermat_difference_zero, Heq).
  destruct Hroot as [Hr|Hr]; rewrite Hr in H.
  - rewrite H0 in H.
    destruct (Z.leb_spec 0 (fermat_difference a b (c + 1) n));
      [|unfold fermat_difference in *; lia].
    destruct (Z.ltb_spec 0 c); [|lia]. simpl in H.
    rewrite Hrel in H. simpl in H. congruence.
  - replace (c - 1 + 1) with c in H by lia. rewrite H0 in H.
    assert (Hlt : (c - 1) ^ n < c ^ n) by (apply Z.pow_lt_mono_l; lia).
    destruct (Z.leb_spec (fermat_difference a b (c - 1) n) 0);
      [unfold fermat_difference in *; lia|].
    destruct (Z.ltb_spec 0 c); [|lia]. simpl in H.
    rewrite Hrel in H. simpl in H. congruence.
Qed.

Lemma select_candidate_comm (n a b : Z) :
  select_candidate float_root n a b = select_candidate float_root n b a.
Proof.
  unfold select_candidate, fermat_difference, fermat_relative_error.
  rewrite (Z.add_comm (a ^ n) (b ^ n)). reflexivity.
Qed.

(** The triples visited by the near-solution search, in order. *)
Lemma near_keys_sublist (max_value n : Z) (t : float) (sols : list near_solution) :
  find_near_solutions float_root max_value n t = Ok sols ->
  sublist ((fun s => (near_a s, near_b s, near_c s)) <$> sols)
    (py_range 1 (max_value + 1) ≫= fun a =>
     py_range 1 (max_value + 1) ≫= fun b =>
     (fun c => (a, b, c)) <$> [float_root (a ^ n + b ^ n) n;
                               float_root (a ^ n + b ^ n) n + 1]).
Proof.
  unfold find_near_solutions. apply collect_keys_sublist_bind.
  intros a ys _. apply collect_keys_sublist_bind.
  intros b zs _ Hzs.
  apply rbind_Ok in Hzs as (c_approx & Hroot & Hzs).
  apply root_candidate_inv in Hroot as [_ ->].
  revert Hzs. apply collect_keys_sublist.
  intros c ws _ Hws.
  destruct (near_row_inv _ _ _ _ _ _ _ Hws) as [-> | (rel & -> & _)]; eauto.
Qed.

(** Which exceptions the searches can raise. *)









End SearchFacts.

(** * Facts about the marker sizes *)

Section SizeFacts.

Import Visualization.

(** A float below 0.5, divided by 0.5, is at most 1. *)
Lemma div_half_below mx ex :
  Zpos mx < 2 ^ 53 ->
  ex < -53 \/ (ex = -53 /\ Zpos mx < 2 ^ 52) ->
  match SFdiv prec emax (S754_finite false mx ex) half with
  | S754_zero s' => s' = false
  | S754_finite s' m' e' => s' = false /\ Zpos m' <= 2 ^ (0 - e')
  | _ => False
  end.
Proof.
  intros Hmx Hlt. unfold half. cbn [SFdiv xorb].
  destruct (SFdiv_core_binary prec emax (Z.pos mx) ex 4503599627370496 (-53))
    as [[mz ez] lz] eqn:Hcore.
  assert (Hb : 0 <= mz < 2 ^ (0 - ez) /\ ez <= 0).
  { unfold SFdiv_core_binary in Hcore.
    set (e' := Z.min _ _) in Hcore.
    assert (He' : e' <= ex + 53) by (subst e'; lia).
    set (m' := match _ - _ - _ with Z0 => _ | Zpos _ => _ | Zneg _ => _ end)
      in Hcore.
    assert (Hm' : m' = Zpos mx * 2 ^ (ex + 53 - e')).
    { subst m'. replace (ex - -53 - e') with (ex + 53 - e') by lia.
      destruct (ex + 53 - e') as [|k|k] eqn:Hk; try lia.
      apply Z.shiftl_mul_pow2. lia. }
    pose proof (Z.div_pos m' 4503599627370496) as Hd.
    pose proof (Z.div_lt_upper_bound m' 4503599627370496 (2 ^ (0 - e'))) as Hu.
    unfold Z.div in Hd, Hu.
    destruct (Z.div_eucl m' 4503599627370496) as [q0 r0].
    injection Hcore as <- <- _.
    assert (0 < 2 ^ (ex + 53 - e')) by (apply Z.pow_pos_nonneg; lia).
    split; [split|lia].
    - apply Hd; lia.
    - apply Hu; [lia|]. rewrite Hm'.
      replace (0 - e') with ((ex + 53 - e') + (- (ex + 53))) by lia.
      rewrite Z.pow_add_r by lia.
      change 4503599627370496 with (2 ^ 52).
      assert (Hk : Zpos mx < 2 ^ 52 * 2 ^ (- (ex + 53))).
      { destruct Hlt as [Hlt | [-> Hlt]].
        - assert (2 ^ 1 <= 2 ^ (- (ex + 53))) by (apply Z.pow_le_mono_r; lia).
          change (2 ^ 53) with (2 ^ 52 * 2 ^ 1) in Hmx.
          assert (0 < 2 ^ 52) by (apply Z.pow_pos_nonneg; lia).
          generalize dependent (2 ^ 52). generalize dependent (2 ^ (- (ex + 53))).
          intros. nia.
        - change (2 ^ (- (-53 + 53))) with 1. lia. }
      generalize dependent (2 ^ 52). generalize dependent (2 ^ (- (ex + 53))).
      generalize dependent (2 ^ (ex + 53 - e')). intros. nia. }
  destruct Hb as [Hb Hez].
  apply (binary_round_aux_below false mz ez lz 0); lia.
Qed.

(** 1.0 minus a positive float that is at most 1: a float in [0.0, 1.0). *)
Lemma one_minus_below mq eq :
  Zpos mq <= 2 ^ (0 - eq) ->
  match SFsub prec emax one (S754_finite false mq eq) with
  | S754_zero s' => s' = false
  | S754_finite s' m' e' => s' = false /\ Zpos m' <= 2 ^ (0 - e')
  | _ => False
  end.
Proof.
  intros Hq.
  assert (Heq : eq <= 0).
  { destruct (Z_le_gt_dec eq 0) as [|Hgt]; [assumption|].
    rewrite Z.pow_neg_r in Hq by lia. lia. }
  unfold one. cbn [SFsub cond_Zopp].
  set (ez := Z.min (-52) eq).
  rewrite !shl_align_fst by lia.
  set (D := 4503599627370496 * 2 ^ (-52 - ez) - Z.pos mq * 2 ^ (eq - ez)).
  assert (HD : 0 <= D < 2 ^ (0 - ez)).
  { subst D. change 4503599627370496 with (2 ^ 52).
    rewrite <- Z.pow_add_r by lia.
    replace (52 + (-52 - ez)) with (0 - ez) by lia.
    assert (Hs : 2 ^ (0 - ez) = 2 ^ (0 - eq) * 2 ^ (eq - ez)).
    { rewrite <- Z.pow_add_r by lia. f_equal. lia. }
    assert (0 < 2 ^ (eq - ez)) by (apply Z.pow_pos_nonneg; lia).
    rewrite Hs. generalize dependent (2 ^ (0 - eq)).
    generalize dependent (2 ^ (eq - ez)). intros. nia. }
  destruct D as [|p|p] eqn:HDp; [reflexivity | | lia].
  unfold binary_normalize, binary_round.
  pose proof (shl_align_value p ez
                (fexp prec emax (Z.pos (digits2_pos p) + ez))) as Hal.
  destruct (shl_align p ez (fexp prec emax (Z.pos (digits2_pos p) + ez)))
    as [mz ez'].
  destruct Hal as [Hez' Hmz].
  apply (binary_round_aux_below false (Zpos mz) ez' loc_Exact 0); try lia.
  split; [lia|]. rewrite Hmz.
  assert (Hs : 2 ^ (0 - ez') = 2 ^ (0 - ez) * 2 ^ (ez - ez')).
  { rewrite <- Z.pow_add_r by lia. f_equal. lia. }
  assert (0 < 2 ^ (ez - ez')) by (apply Z.pow_pos_nonneg; lia).
  rewrite Hs. generalize dependent (2 ^ (0 - ez)).
  generalize dependent (2 ^ (ez - ez')). intros. nia.
Qed.

(** 50.0 times a float in [0.0, 1.0]: finite and not negative. *)
Lemma fifty_times_below c :
  match c with
  | S754_zero s' => s' = false
  | S754_finite s' m' e' => s' = false /\ Zpos m' <= 2 ^ (0 - e')
  | _ => False
  end ->
  finite_signed false (SFmul prec emax fifty c).
Proof.
  destruct c as [s|s| |s m e]; try contradiction.
  - intros ->. reflexivity.
  - intros [-> Hm]. unfold fifty. cbn [SFmul xorb].
    assert (He : e <= 0).
    { destruct (Z_le_gt_dec e 0) as [|Hgt]; [assumption|].
      rewrite Z.pow_neg_r in Hm by lia. lia. }
    apply binary_round_aux_finite; [|lia].
    rewrite Pos2Z.inj_mul. split; [lia|].
    replace (1023 - (-47 + e)) with (1070 + (0 - e)) by lia.
    rewrite Z.pow_add_r by lia.
    assert (7036874417766400 < 2 ^ 1070) by (vm_compute; reflexivity).
    assert (0 < 2 ^ (0 - e)) by (apply Z.pow_pos_nonneg; lia).
    generalize dependent (2 ^ 1070). generalize dependent (2 ^ (0 - e)).
    intros. nia.
Qed.

(** [1 - np.minimum(rel, 0.5) / 0.5] for a float 0.0 <= rel < 0.5. *)
Lemma error_for_color_below m e :
  Zpos m < 2 ^ 53 ->
  ltb (S754_finite false m e) half = true ->
  match error_for_color (S754_finite false m e) with
  | S754_zero s' => s' = false
  | S754_finite s' m' e' => s' = false /\ Zpos m' <= 2 ^ (0 - e')
  | _ => False
  end.
Proof.
  intros Hm Hlt.
  pose proof (div_half_below m e Hm (ltb_finite_inv m e _ _ Hlt)) as Hq.
  unfold error_for_color, minimum. rewrite Hlt.
  destruct (SFdiv prec emax (S754_finite false m e) half)
    as [sq|sq| |sq mq eq]; try contradiction.
  - subst sq. change (SFsub prec emax one (S754_zero false)) with one.
    split; [reflexivity|]. vm_compute. intros H. discriminate H.
  - destruct Hq as [-> Hq]. exact (one_minus_below mq eq Hq).
Qed.

(** The marker size of a relative error >= 0.0. *)
Lemma sizes_of_relative_error rel :
  finite_signed false rel ->
  (forall m e, rel = S754_finite false m e -> Zpos m < 2 ^ 53) ->
  finite_signed false (error_for_color rel) /\
  finite_signed false (df_sizes rel) /\
  (rel = zero -> error_for_color rel = one /\ df_sizes rel = fifty) /\
  (ltb rel half = false -> error_for_color rel = zero /\ df_sizes rel = zero).
Proof.
  intros Hfin Hm.
  assert (Hhigh : ltb rel half = false ->
                  error_for_color rel = zero /\ df_sizes rel = zero).
  { intros Hlt.
    assert (Hc : error_for_color rel = zero).
    { unfold error_for_color, minimum.
      destruct rel; try contradiction; rewrite Hlt; vm_compute; reflexivity. }
    split; [exact Hc|]. unfold df_sizes. rewrite Hc. reflexivity. }
  assert (Hzero : rel = zero -> error_for_color rel = one /\ df_sizes rel = fifty).
  { intros ->. split; vm_compute; reflexivity. }
  assert (Hlow : ltb rel half = true ->
            match error_for_color rel with
            | S754_zero s' => s' = false
            | S754_finite s' m' e' => s' = false /\ Zpos m' <= 2 ^ (0 - e')
            | _ => False
            end).
  { intros Hlt. destruct rel as [s|s| |s m e]; try contradiction;
      simpl in Hfin; subst s.
    - rewrite (proj1 (Hzero eq_refl)). split; [reflexivity|].
      vm_compute. intros H. discriminate H.
    - apply error_for_color_below; [eapply Hm; reflexivity | exact Hlt]. }
  split; [|split; [|split; assumption]].
  - destruct (ltb rel half) eqn:Hlt;
      [|rewrite (proj1 (Hhigh eq_refl)); reflexivity].
    specialize (Hlow eq_refl).
    destruct (error_for_color rel); try contradiction; simpl; tauto.
  - destruct (ltb rel half) eqn:Hlt;
      [|rewrite (proj2 (Hhigh eq_refl)); reflexivity].
    apply fifty_times_below, Hlow. reflexivity.
Qed.

End SizeFacts.

(** * Facts about the menu script *)

Section MenuFacts.

Import Menu.


(** Induction on a list two items at a time. *)
Lemma list_pair_ind {A : Type} (P : list A -> Prop) :
  P [] -> (forall x, P [x]) -> (forall x y l, P l -> P (x :: y :: l)) ->
  forall l, P l.
Proof.
  intros H0 H1 H2.
  assert (H : forall l, P l /\ forall x, P (x :: l)).
  { induction l as [|y l [IH1 IH2]]; split; auto. }
  intros l. apply H.
Qed.

Lemma lookup_even_step {A : Type} (x y : A) (l : list A) (k : nat) :
  (x :: y :: l) !! (2 * S k)%nat = l !! (2 * k)%nat.
Proof. replace (2 * S k)%nat with (S (S (2 * k))) by lia. reflexivity. Qed.

(** One turn of the loop on an option other than ['0']. *)
Lemma main_loop_step (option pause : string) (stdin : list string) :
  option <> "0"%string ->
  exists actions,
    main_loop (option :: pause :: stdin)
    = (actions ++ fst (main_loop stdin), snd (main_loop stdin)) /\
    main_loop [option] = (actions, inl EOFError) /\
    forall act, act ∈ actions ->
      (option = "1"%string \/ option = "2"%string \/ option = "3"%string) /\
      (act = RunVisualization -> option = "1"%string \/ option = "3"%string) /\
      (act = RunExplanation -> option = "2"%string \/ option = "3"%string) /\
      (forall seconds, act = Sleep seconds -> option = "3"%string).
Proof.
  intros Hne. simpl.
  destruct (String.eqb_spec option "0"); [contradiction|].
  destruct (main_loop stdin) as [trace r]. eexists.
  split; [reflexivity|]. split; [reflexivity|].
  intros act Hact.
  destruct (String.eqb_spec option "1") as [->|_];
    [|destruct (String.eqb_spec option "2") as [->|_];
      [|destruct (String.eqb_spec option "3") as [->|_]]];
    unfold run_visualization, run_explanation, run_all in Hact; simpl in Hact;
    repeat (apply elem_of_cons in Hact as [->|Hact]);
    try (inversion Hact; fail);
    repeat split; auto; try discriminate; intros; discriminate.
Qed.


End MenuFacts.

(** * Facts about the script with its exceptions *)

Section SessionFacts.

Import Menu.

Variable ends : nat -> action -> option Session.exception.

(** The [if]/[elif] chain of [main] on an option other than ['0']. *)
Local Abbreviation chosen turn option :=
  (if String.eqb option "1" then Session.run_visualization (ends turn)
   else if String.eqb option "2" then Session.run_explanation (ends turn)
   else if String.eqb option "3" then Session.run_all (ends turn)
   else Session.ret tt).

(** The calls of the same chain when every call returns. *)
Local Abbreviation chosen_calls option :=
  (if String.eqb option "1" then run_visualization
   else if String.eqb option "2" then run_explanation
   else if String.eqb option "3" then run_all
   else []).

(** Every exception of a call is an [ImportError] of a component, which
    the wrappers catch. *)
Local Abbreviation quiet :=
  (forall turn a e, ends turn a = Some e ->
     e = Session.ImportError /\ (a = RunVisualization \/ a = RunExplanation)).













End SessionFacts.

(** * The specification, claim by claim *)

Section Claims.

Variable float_root : Z -> Z -> Z.

(** C1.  In a table produced by [generate_test_cases] for an exponent
    n > 2, every row has 0 <= relative_error <= 0.1, the fixed filter
    threshold.  For n = 2 the threshold is not applied: every grid pair
    with a selected candidate is emitted whatever its relative error. *)
Theorem batch_relative_error_bounded
    (max_value : Z) (n_values : list Z) (results : gmap Z (list row))
    (n : Z) (rows : list row) :
  generate_test_cases float_root max_value n_values = Ok results ->
  results !! n = Some rows ->
  (2 < n -> forall r, r ∈ rows ->
     leb zero (row_relative_error r) = true /\
     leb (row_relative_error r) one_tenth = true) /\
  (n = 2 -> forall a b c error rel_error,
     1 <= a <= Z.min max_value 30 -> 1 <= b <= Z.min max_value 30 ->
     select_candidate float_root 2 a b = Ok (Some (c, error, rel_error)) ->
     mk_row a b c error rel_error 2 ∈ rows).
Proof.
  intros Hgen Hlook.
  apply (generate_test_cases_lookup _ _ _ _ _ _ Hgen) in Hlook as [_ Hdata].
  apply generate_data_inv in Hdata
    as (grid & Hgrid & [[Hn ->] | (-> & exact & Hexact & ->)]).
  - split; [|contradiction]. intros Hn2 r Hr.
    apply (grid_rows_elem _ _ _ _ _ Hgrid) in Hr as (a & b & _ & _ & Hrow).
    destruct (grid_row_inv _ _ _ _ _ Hrow)
      as [[=] | (c & error & rel & [= ->] & Hsel & Hkeep)].
    apply select_candidate_inv in Hsel as (_ & Hc & _ & Hrel & _). simpl.
    assert (Hfin : finite_signed false rel).
    { eapply truediv_nonneg; [| |exact Hrel]; [lia|].
      apply Z.pow_pos_nonneg; lia. }
    split.
    + apply leb_zero_nonneg, finite_signed_signed, Hfin.
    + apply ltb_false_leb; [eapply finite_signed_not_nan, Hfin | discriminate |].
      apply Hkeep, Hn2.
  - split; [lia|]. intros _ a b c error rel Ha Hb Hsel.
    apply elem_of_app. left.
    apply (grid_rows_elem _ _ _ _ _ Hgrid). exists a, b.
    split; [assumption|]. split; [assumption|].
    unfold grid_row. rewrite Hsel. reflexivity.
Qed.

(** C2.  Every row appended by the n = 2 exact pass satisfies
    a^2 + b^2 = c^2 over the integers, carries error 0 and relative error
    0.0, and has a <= b, a < c, b < c and c <= max_value. *)
Theorem exact_rows_are_pythagorean
    (max_value : Z) (n_values : list Z) (results : gmap Z (list row))
    (rows : list row) :
  generate_test_cases float_root max_value n_values = Ok results ->
  results !! 2 = Some rows ->
  exists grid exact,
    grid_rows float_root max_value 2 = Ok grid /\
    exact_solutions max_value 2 = Ok exact /\
    rows = grid ++ exact /\
    forall r, r ∈ exact ->
      row_a r ^ 2 + row_b r ^ 2 = row_c r ^ 2 /\
      row_error r = 0 /\ row_relative_error r = zero /\ row_n r = 2 /\
      1 <= row_a r <= row_b r /\
      row_a r < row_c r /\ row_b r < row_c r /\ row_c r <= max_value.
Proof.
  intros Hgen Hlook.
  apply (generate_test_cases_lookup _ _ _ _ _ _ Hgen) in Hlook as [_ Hdata].
  apply generate_data_inv in Hdata
    as (grid & Hgrid & [[Hn _] | (_ & exact & Hexact & ->)]); [lia|].
  exists grid, exact. repeat (split; [assumption || reflexivity|]).
  intros r Hr.
  pose proof (exact_solutions_sound _ _ _ _ Hexact Hr). tauto.
Qed.

(** X1.  Every row emitted by [generate_test_cases] for an exponent n >= 0
    has c > 0, and its a and b lie in 1..max_value.
    The bound c <= max_value is not part of the statement: the grid loop
    does not test it. *)
Theorem batch_rows_positive_c
    (max_value : Z) (n_values : list Z) (results : gmap Z (list row))
    (n : Z) (rows : list row) (r : row) :
  0 <= n ->
  generate_test_cases float_root max_value n_values = Ok results ->
  results !! n = Some rows ->
  r ∈ rows ->
  0 < row_c r /\
  1 <= row_a r <= max_value /\ 1 <= row_b r <= max_value /\ row_n r = n.
Proof.
  intros _ Hgen Hlook Hr.
  apply (generate_test_cases_lookup _ _ _ _ _ _ Hgen) in Hlook as [_ Hdata].
  assert (Hgrid_ok : forall grid, grid_rows float_root max_value n = Ok grid ->
            r ∈ grid ->
            0 < row_c r /\ 1 <= row_a r <= max_value /\
            1 <= row_b r <= max_value /\ row_n r = n).
  { intros grid Hgrid Hin.
    apply (grid_rows_elem _ _ _ _ _ Hgrid) in Hin as (a & b & Ha & Hb & Hrow).
    destruct (grid_row_inv _ _ _ _ _ Hrow)
      as [[=] | (c & error & rel & [= ->] & Hsel & _)].
    apply select_candidate_inv in Hsel as (_ & Hc & _). simpl. lia. }
  apply generate_data_inv in Hdata
    as (grid & Hgrid & [[Hn ->] | (-> & exact & Hexact & ->)]); [eauto|].
  apply elem_of_app in Hr as [Hr|Hr]; [eauto|].
  pose proof (exact_solutions_sound _ _ _ _ Hexact Hr). lia.
Qed.

(** C4, as amended.  For every exponent n >= 0 the grid part of the table
    holds at most one row for each pair (a, b); its c is one of the two
    bracketing candidates, its error is the smaller of the two errors, and
    on a tie it is the lower candidate.  For n <> 2 the table is the grid
    part; for n = 2 the rows of the exact pass are appended after it
    without looking for pairs already present. *)
Theorem grid_one_row_per_pair
    (max_value : Z) (n_values : list Z) (results : gmap Z (list row))
    (n : Z) (rows : list row) :
  0 <= n ->
  generate_test_cases float_root max_value n_values = Ok results ->
  results !! n = Some rows ->
  exists grid,
    grid_rows float_root max_value n = Ok grid /\
    (n <> 2 -> rows = grid) /\
    (n = 2 -> exists exact,
       exact_solutions max_value 2 = Ok exact /\ rows = grid ++ exact) /\
    NoDup ((fun r => (row_a r, row_b r)) <$> grid) /\
    forall r, r ∈ grid ->
      let c_low := float_root (row_a r ^ n + row_b r ^ n) n in
      (row_c r = c_low \/ row_c r = c_low + 1) /\
      row_error r = fermat_difference (row_a r) (row_b r) (row_c r) n /\
      row_error r = Z.min (fermat_difference (row_a r) (row_b r) c_low n)
                          (fermat_difference (row_a r) (row_b r) (c_low + 1) n) /\
      (0 < c_low ->
       fermat_difference (row_a r) (row_b r) c_low n
         <= fermat_difference (row_a r) (row_b r) (c_low + 1) n ->
       row_c r = c_low).
Proof.
  intros Hn Hgen Hlook.
  apply (generate_test_cases_lookup _ _ _ _ _ _ Hgen) in Hlook as [_ Hdata].
  apply generate_data_inv in Hdata as (grid & Hgrid & Hrows).
  exists grid. split; [assumption|].
  split; [destruct Hrows as [[_ ->]|[-> _]]; [reflexivity | contradiction]|].
  split; [destruct Hrows as [[? _]|[_ ?]]; [contradiction | auto]|].
  split; [eapply grid_rows_NoDup, Hgrid|].
  intros r Hr.
  apply (grid_rows_elem _ _ _ _ _ Hgrid) in Hr as (a & b & Ha & Hb & Hrow).
  destruct (grid_row_inv _ _ _ _ _ Hrow)
    as [[=] | (c & error & rel & [= ->] & Hsel & _)].
  assert (Hmin := select_candidate_min float_root n a b c error rel Hn
                    (proj1 Ha) (proj1 Hb) Hsel).
  apply select_candidate_inv in Hsel as (_ & _ & Herr & _ & Hc).
  simpl. split; [tauto|]. split; [assumption|]. split; [assumption|].
  intros Hlow Hle. destruct Hc as [[-> _] | [_ [Hlt | Hneg]]];
    [reflexivity | lia | lia].
Qed.


(** C6.  Every record returned by [find_near_solutions] (n >= 0) carries a
    relative error that is [fermat_relative_error] of its triple and is at
    most the threshold.  The search keeps every candidate that passes: for
    a pair (a, b) each of the two bracketing candidates that is in range
    and within the threshold is in the list, so both are when both
    qualify. *)
Theorem near_solutions_within_threshold
    (max_value n : Z) (error_threshold : float) (sols : list near_solution) :
  0 <= n ->
  find_near_solutions float_root max_value n error_threshold = Ok sols ->
  (forall s, s ∈ sols ->
     fermat_relative_error (near_a s) (near_b s) (near_c s) n
       = Ok (near_relative_error s) /\
     leb (near_relative_error s) error_threshold = true /\
     near_error s = fermat_difference (near_a s) (near_b s) (near_c s) n) /\
  (forall a b c rel_error,
     1 <= a <= max_value -> 1 <= b <= max_value ->
     c = float_root (a ^ n + b ^ n) n \/ c = float_root (a ^ n + b ^ n) n + 1 ->
     0 < c <= max_value ->
     fermat_relative_error a b c n = Ok rel_error ->
     leb rel_error error_threshold = true ->
     mk_near_solution a b c (fermat_difference a b c n) rel_error ∈ sols).
Proof.
  intros _ Hfind. split.
  - intros s Hs.
    apply (find_near_solutions_elem _ _ _ _ _ _ Hfind) in Hs
      as (a & b & c & _ & _ & _ & Hrow).
    destruct (near_row_inv _ _ _ _ _ _ _ Hrow)
      as [[=] | (rel & [= ->] & _ & Hrel & Hle)].
    simpl. auto.
  - intros a b c rel Ha Hb Hc Hrange Hrel Hle.
    apply (find_near_solutions_elem _ _ _ _ _ _ Hfind).
    exists a, b, c. repeat (split; [assumption|]).
    apply near_row_keep; assumption.
Qed.

(** C7.  Raising the threshold of [find_near_solutions], with max_value and
    n >= 0 unchanged, removes no triple: the result for t2 >= t1 contains every
    record of the result for t1. *)
Theorem near_solutions_threshold_monotone
    (max_value n : Z) (t1 t2 : float) (sols1 : list near_solution) :
  0 <= n ->
  leb t1 t2 = true ->
  find_near_solutions float_root max_value n t1 = Ok sols1 ->
  exists sols2,
    find_near_solutions float_root max_value n t2 = Ok sols2 /\
    forall s, s ∈ sols1 -> s ∈ sols2.
Proof.
  intros _ Ht. unfold find_near_solutions.
  apply collect_mono. intros a ys _.
  apply collect_mono. intros b zs _ Hzs.
  apply rbind_Ok in Hzs as (c_approx & -> & Hzs). cbn [rbind].
  revert Hzs. apply collect_mono. intros c ws _.
  apply near_row_mono, Ht.
Qed.


(** C9, as amended.  For n >= 1, [fermat_relative_error] raises
    [ZeroDivisionError] exactly when c = 0.  For c > 0 the only exception
    it can raise is the [OverflowError] of a quotient too large for a
    float; it returns, with a value >= 0.0, whenever a^n + b^n is
    non-negative and below 2^1023. *)
Theorem relative_error_division_by_zero (a b c n : Z) :
  1 <= n ->
  (fermat_relative_error a b c n = Raise ZeroDivisionError <-> c = 0) /\
  (0 < c ->
     (forall rel_error, fermat_relative_error a b c n = Ok rel_error ->
                        leb zero rel_error = true) /\
     (forall e, fermat_relative_error a b c n = Raise e -> e = OverflowError) /\
     (0 <= a ^ n + b ^ n < 2 ^ 1023 ->
      exists rel_error, fermat_relative_error a b c n = Ok rel_error)).
Proof.
  intros Hn. split; [split|].
  - intros H. apply truediv_Raise in H as [[_ H] | [[=] _]].
    apply Z.pow_eq_0_iff in H as [?|[_ ?]]; [lia | assumption].
  - intros ->. unfold fermat_relative_error, truediv.
    rewrite Z.pow_0_l by lia. reflexivity.
  - intros Hc. assert (0 < c ^ n) by (apply Z.pow_pos_nonneg; lia).
    split; [|split].
    + intros rel Hrel. apply leb_zero_nonneg, finite_signed_signed.
      eapply truediv_nonneg; [| |exact Hrel]; lia.
    + intros e He. apply truediv_Raise in He as [[_ H0] | [-> _]]; [lia|].
      reflexivity.
    + apply fermat_relative_error_total; lia.
Qed.

(** C10.  Every record returned by [find_near_solutions] (n >= 0) has a, b
    and c in 1..max_value: a candidate with c <= 0 or c > max_value is
    skipped, so no returned c exceeds the search bound. *)
Theorem near_solutions_in_range
    (max_value n : Z) (error_threshold : float) (sols : list near_solution)
    (s : near_solution) :
  0 <= n ->
  find_near_solutions float_root max_value n error_threshold = Ok sols ->
  s ∈ sols ->
  1 <= near_a s <= max_value /\
  1 <= near_b s <= max_value /\
  1 <= near_c s <= max_value.
Proof.
  intros _ Hfind Hs.
  apply (find_near_solutions_elem _ _ _ _ _ _ Hfind) in Hs
    as (a & b & c & Ha & Hb & _ & Hrow).
  destruct (near_row_inv _ _ _ _ _ _ _ Hrow)
    as [[=] | (rel & [= ->] & Hc & _)].
  simpl. lia.
Qed.

(** X2.  The batch generator returns a table for every requested exponent
    when the exponents lie in 1..208 (so that the powers of the grid fit a
    float) and, if 2 is among them, max_value is below 2^26. *)
Theorem batch_generator_returns (max_value : Z) (n_values : list Z) :
  (forall n, n ∈ n_values -> 1 <= n <= 208) ->
  (2 ∈ n_values -> max_value < exact_bound) ->
  exists results,
    generate_test_cases float_root max_value n_values = Ok results /\
    forall n, n ∈ n_values -> is_Some (results !! n).
Proof.
  intros Hn Hb.
  destruct (generate_test_cases_total float_root max_value n_values Hn Hb)
    as (results & Hres & Hlook).
  exists results. split; [exact Hres|].
  intros n Hin. destruct (Hlook n Hin) as (rows & _ & ->). eauto.
Qed.

End Claims.

(** * Further properties of the code *)

(** X3.  [fermat_relative_error] is 0.0 exactly on exact solutions: for
    n >= 0, c > 0 and c^n below 2^1021, a returned relative error is 0.0
    if and only if a^n + b^n = c^n, and it is > 0.0 otherwise. *)
Theorem relative_error_zero_iff_exact (a b c n : Z) (rel_error : float) :
  0 <= n -> 0 < c -> c ^ n < 2 ^ 1021 ->
  fermat_relative_error a b c n = Ok rel_error ->
  (rel_error = zero <-> a ^ n + b ^ n = c ^ n) /\
  (a ^ n + b ^ n <> c ^ n -> ltb zero rel_error = true).
Proof.
  intros Hn Hc Hb Hrel.
  assert (Hpos : a ^ n + b ^ n <> c ^ n ->
            exists m e, rel_error = S754_finite false m e).
  { intros Hne. unfold fermat_relative_error in Hrel.
    eapply truediv_pos; [| | |exact Hrel].
    - lia.
    - apply Z.pow_pos_nonneg; lia.
    - assert (0 < 2 ^ 1021) by (apply Z.pow_pos_nonneg; lia).
      generalize dependent (2 ^ 1021). intros. nia. }
  split; [split|].
  - intros ->. destruct (Z.eq_dec (a ^ n + b ^ n) (c ^ n)) as [|Hne];
      [assumption|].
    destruct (Hpos Hne) as (m & e & [=]).
  - intros Heq. pose proof (fermat_relative_error_exact a b c n Hn Hc Heq).
    congruence.
  - intros Hne. destruct (Hpos Hne) as (m & e & ->). reflexivity.
Qed.

(** X4.  Lowering max_value in the exact pass raises no new exception
    and only removes rows: the pass with the lower bound returns exactly
    the rows of the other whose c is within the lower bound. *)
Theorem exact_pass_bound_monotone (mv1 mv2 n : Z) (rows2 : list row) :
  mv1 <= mv2 ->
  exact_solutions mv2 n = Ok rows2 ->
  exists rows1,
    exact_solutions mv1 n = Ok rows1 /\
    forall r, r ∈ rows1 <-> r ∈ rows2 /\ row_c r <= mv1.
Proof.
  intros Hle H2.
  assert (Hrow : forall a b, 1 <= a <= b -> b <= mv1 ->
            exists rows rows', exact_row mv2 n a b = Ok rows /\
              exact_row mv1 n a b = Ok rows' /\
              forall r, r ∈ rows' <-> r ∈ rows /\ row_c r <= mv1).
  { intros a b Hab Hb.
    assert (Ha : a ∈ py_range 1 (mv2 + 1)) by (apply elem_of_py_range; lia).
    destruct (collect_each_Ok _ _ _ _ H2 Ha) as (ys & Hys).
    destruct (collect_each_Ok _ _ _ b Hys) as (rows & Hrows);
      [apply elem_of_py_range; lia|].
    destruct (exact_row_bound mv1 _ _ _ _ _ Hle Hrows) as (rows' & ? & ?).
    eauto. }
  destruct (collect_total
              (fun a => collect (fun b => exact_row mv1 n a b)
                                (py_range a (mv1 + 1)))
              (py_range 1 (mv1 + 1))) as (rows1 & H1).
  { intros a Ha. apply elem_of_py_range in Ha.
    apply collect_total. intros b Hb. apply elem_of_py_range in Hb.
    destruct (Hrow a b) as (rows & rows' & _ & ? & _); [lia | lia |]. eauto. }
  exists rows1. split; [exact H1|]. intros r.
  rewrite (exact_solutions_elem _ _ _ _ H1), (exact_solutions_elem _ _ _ _ H2).
  split.
  - intros (a & b & Hab & Hb & Hr).
    destruct (Hrow a b Hab Hb) as (rows & rows' & Hrows & Hrows' & Hiff).
    rewrite Hr in Hrows'. injection Hrows' as <-.
    destruct (proj1 (Hiff r)) as [Hin Hc]; [left|].
    split; [|exact Hc]. exists a, b. split; [lia|]. split; [lia|].
    destruct (exact_row_inv _ _ _ _ _ Hrows) as [-> | (c & -> & _)].
    + inversion Hin.
    + apply list_elem_of_singleton in Hin as ->. assumption.
  - intros [(a & b & Hab & Hb & Hr) Hc].
    destruct (exact_row_inv _ _ _ _ _ Hr)
      as [[=] | (c & [= Hr'] & Hcand & Hsq & _)].
    subst r. simpl in Hc.
    apply sqrt_candidate_nonneg in Hcand.
    assert (Hbc : b < c) by nia.
    exists a, b. split; [lia|]. split; [lia|].
    destruct (Hrow a b) as (rows & rows' & Hrows & Hrows' & Hiff); [lia | lia |].
    rewrite Hr in Hrows. injection Hrows as <-.
    destruct (exact_row_inv _ _ _ _ _ Hrows') as [-> | (c' & -> & _)].
    + exfalso. assert (Hin : mk_row a b c 0 zero n ∈ []).
      { apply Hiff. split; [left | simpl; lia]. }
      inversion Hin.
    + rewrite Hrows'. f_equal. f_equal.
      assert (Hin : mk_row a b c' 0 zero n ∈ [mk_row a b c 0 zero n])
        by (apply Hiff; left).
      apply list_elem_of_singleton in Hin. exact Hin.
Qed.

Section Tables.

Variable float_root : Z -> Z -> Z.

(** X5.  The dict returned by [generate_test_cases] has exactly the
    requested exponents as keys, however often an exponent is listed, and
    the table stored under n is the one a call for n alone returns: the
    tables do not depend on the other exponents of the call. *)
Theorem batch_tables_by_exponent
    (max_value : Z) (n_values : list Z) (results : gmap Z (list row)) :
  generate_test_cases float_root max_value n_values = Ok results ->
  (forall n, is_Some (results !! n) <-> n ∈ n_values) /\
  (forall n rows, results !! n = Some rows ->
     generate_test_cases float_root max_value [n] = Ok {[n := rows]}).
Proof.
  intros Hgen. split.
  - intros n. split.
    + intros [rows Hrows].
      apply (generate_test_cases_lookup _ _ _ _ _ _ Hgen Hrows).
    + intros Hn.
      destruct (for_each_insert_total (generate_data float_root max_value)
                  n_values ∅) as (m & Hm & Hlook).
      { intros k Hk. eapply for_each_insert_each_Ok; eassumption. }
      unfold generate_test_cases in Hgen. rewrite Hgen in Hm.
      injection Hm as <-. destruct (Hlook n Hn) as (v & _ & ->). eauto.
  - intros n rows Hrows.
    apply (generate_test_cases_lookup _ _ _ _ _ _ Hgen) in Hrows as [_ Hdata].
    unfold generate_test_cases. simpl. rewrite Hdata. reflexivity.
Qed.

(** X6.  Every row of a table of [generate_test_cases] (n >= 0), from the
    grid or from the exact pass, is consistent with the error metrics:
    its error is [fermat_difference] of its triple, its relative error is
    what [fermat_relative_error] returns for it, its error is 0 exactly
    when a^n + b^n = c^n, and then its relative error is 0.0. *)
Theorem batch_rows_consistent
    (max_value : Z) (n_values : list Z) (results : gmap Z (list row))
    (n : Z) (rows : list row) (r : row) :
  0 <= n ->
  generate_test_cases float_root max_value n_values = Ok results ->
  results !! n = Some rows ->
  r ∈ rows ->
  row_error r = fermat_difference (row_a r) (row_b r) (row_c r) n /\
  fermat_relative_error (row_a r) (row_b r) (row_c r) n
    = Ok (row_relative_error r) /\
  (row_error r = 0 <-> row_a r ^ n + row_b r ^ n = row_c r ^ n) /\
  (row_error r = 0 -> row_relative_error r = zero).
Proof.
  intros Hn Hgen Hlook Hr.
  apply (generate_test_cases_lookup _ _ _ _ _ _ Hgen) in Hlook as [_ Hdata].
  destruct (generate_data_row _ _ _ _ _ Hn Hdata Hr) as (Hc & _ & He & Hrel).
  split; [assumption|]. split; [assumption|]. split.
  - rewrite He. apply fermat_difference_zero.
  - intros H0. rewrite He in H0. apply fermat_difference_zero in H0.
    pose proof (fermat_relative_error_exact _ _ _ _ Hn Hc H0). congruence.
Qed.

(** X7.  For n > 2 the threshold of the batch is a filter on the selected
    candidate and on nothing else: the row of a grid pair (a, b) is in
    the table exactly when the relative error of its selected candidate
    is at most 0.1. *)
Theorem batch_keeps_rows_within_threshold
    (max_value : Z) (n_values : list Z) (results : gmap Z (list row))
    (n : Z) (rows : list row) :
  2 < n ->
  generate_test_cases float_root max_value n_values = Ok results ->
  results !! n = Some rows ->
  forall a b c error rel_error,
    1 <= a <= Z.min max_value 30 -> 1 <= b <= Z.min max_value 30 ->
    select_candidate float_root n a b = Ok (Some (c, error, rel_error)) ->
    (mk_row a b c error rel_error n ∈ rows <-> leb rel_error one_tenth = true).
Proof.
  intros Hn Hgen Hlook a b c error rel Ha Hb Hsel.
  apply (generate_test_cases_lookup _ _ _ _ _ _ Hgen) in Hlook as [_ Hdata].
  apply generate_data_inv in Hdata
    as (grid & Hgrid & [[_ ->] | (-> & _)]); [|lia].
  rewrite (grid_rows_elem _ _ _ _ _ Hgrid).
  pose proof (select_candidate_inv _ _ _ _ _ _ _ Hsel) as (_ & Hc & _ & Hrel & _).
  assert (Hfin : finite_signed false rel).
  { eapply truediv_nonneg; [| |exact Hrel]; [lia|].
    apply Z.pow_pos_nonneg; lia. }
  split.
  - intros (a' & b' & _ & _ & Hrow).
    destruct (grid_row_inv _ _ _ _ _ Hrow)
      as [[=] | (c' & e' & rel' & [= <- <- <- <- <-] & _ & Hkeep)].
    apply ltb_false_leb; [eapply finite_signed_not_nan, Hfin | discriminate |].
    apply Hkeep, Hn.
  - intros Hle. exists a, b. split; [assumption|]. split; [assumption|].
    unfold grid_row. rewrite Hsel. cbn [rbind].
    rewrite (leb_ltb_false _ _ Hle), andb_false_r. reflexivity.
Qed.

(** X8.  When the integer the library power yields for a pair (a, b)
    does bracket the root, c_low^n <= a^n + b^n < (c_low + 1)^n, the c
    kept in the row of that pair is a nearest integer overall: no c >= 0
    has a smaller |a^n + b^n - c^n| than the row's error (n >= 1). *)
Theorem bracketed_candidate_is_nearest
    (max_value : Z) (n_values : list Z) (results : gmap Z (list row))
    (n : Z) (rows : list row) (r : row) :
  1 <= n ->
  generate_test_cases float_root max_value n_values = Ok results ->
  results !! n = Some rows ->
  r ∈ rows ->
  (let s := row_a r ^ n + row_b r ^ n in
   let c_low := float_root s n in
   0 <= c_low /\ c_low ^ n <= s < (c_low + 1) ^ n) ->
  forall c, 0 <= c ->
    row_error r <= fermat_difference (row_a r) (row_b r) c n.
Proof.
  intros Hn Hgen Hlook Hr Hbr. cbv zeta in Hbr.
  apply (generate_test_cases_lookup _ _ _ _ _ _ Hgen) in Hlook as [_ Hdata].
  assert (Hgrid_ok : forall grid, grid_rows float_root max_value n = Ok grid ->
            r ∈ grid ->
            forall c, 0 <= c ->
              row_error r <= fermat_difference (row_a r) (row_b r) c n).
  { intros grid Hgrid Hin.
    apply (grid_rows_elem _ _ _ _ _ Hgrid) in Hin as (a & b & Ha & Hb & Hrow).
    destruct (grid_row_inv _ _ _ _ _ Hrow)
      as [[=] | (c0 & error & rel & [= ->] & Hsel & _)].
    simpl in *.
    rewrite (select_candidate_min float_root n a b c0 error rel
               ltac:(lia) (proj1 Ha) (proj1 Hb) Hsel).
    cbv zeta. set (c_low := float_root (a ^ n + b ^ n) n) in *.
    intros c Hc. unfold fermat_difference.
    destruct (Z_le_gt_dec c c_low) as [Hle|Hgt].
    - assert (c ^ n <= c_low ^ n) by (apply Z.pow_le_mono_l; lia). lia.
    - assert ((c_low + 1) ^ n <= c ^ n) by (apply Z.pow_le_mono_l; lia). lia. }
  apply generate_data_inv in Hdata
    as (grid & Hgrid & [[_ ->] | (-> & exact & Hexact & ->)]); [eauto|].
  apply elem_of_app in Hr as [Hr|Hr]; [eauto|].
  pose proof (exact_solutions_sound _ _ _ _ Hexact Hr) as (_ & -> & _).
  intros c _. unfold fermat_difference. lia.
Qed.

(** X9.  When the integer the library power yields for a pair (a, b)
    brackets the root (n >= 1), the c of the row lies between the larger
    of a and b and twice that; so c, which the grid does not compare with
    max_value, is at most 2 * max_value.  The rows of the exact pass lie
    in that range as well. *)
Theorem bracketed_candidate_range
    (max_value : Z) (n_values : list Z) (results : gmap Z (list row))
    (n : Z) (rows : list row) (r : row) :
  1 <= n ->
  generate_test_cases float_root max_value n_values = Ok results ->
  results !! n = Some rows ->
  r ∈ rows ->
  (let s := row_a r ^ n + row_b r ^ n in
   let c_low := float_root s n in
   0 <= c_low /\ c_low ^ n <= s < (c_low + 1) ^ n) ->
  Z.max (row_a r) (row_b r) <= row_c r <= 2 * Z.max (row_a r) (row_b r) /\
  row_c r <= 2 * max_value.
Proof.
  intros Hn Hgen Hlook Hr Hbr. cbv zeta in Hbr.
  apply (generate_test_cases_lookup _ _ _ _ _ _ Hgen) in Hlook as [_ Hdata].
  assert (Hgrid_ok : forall grid, grid_rows float_root max_value n = Ok grid ->
            r ∈ grid ->
            Z.max (row_a r) (row_b r) <= row_c r <= 2 * Z.max (row_a r) (row_b r)
            /\ row_c r <= 2 * max_value).
  { intros grid Hgrid Hin.
    apply (grid_rows_elem _ _ _ _ _ Hgrid) in Hin as (a & b & Ha & Hb & Hrow).
    destruct (grid_row_inv _ _ _ _ _ Hrow)
      as [[=] | (c & error & rel & [= ->] & Hsel & _)].
    simpl in *. destruct Hbr as [Hc0 Hbr].
    pose proof (bracket_range n a b _ Hn (proj1 Ha) (proj1 Hb) Hc0 Hbr)
      as (Hrange & H2 & H1).
    apply select_candidate_inv in Hsel as (_ & _ & _ & _ & Hc).
    cbv zeta in Hc.
    set (c_low := float_root (a ^ n + b ^ n) n) in *.
    assert (Hcr : Z.max a b <= c <= 2 * Z.max a b).
    { destruct Hc as [[-> _] | [-> Hhigh]]; [lia|].
      destruct (Z.eq_dec n 1) as [->|Hn1].
      - exfalso. specialize (H1 eq_refl).
        unfold fermat_difference in Hhigh. rewrite !Z.pow_1_r in Hhigh. lia.
      - assert (c_low < 2 * Z.max a b) by (apply H2; lia). lia. }
    split; [exact Hcr | lia]. }
  apply generate_data_inv in Hdata
    as (grid & Hgrid & [[_ ->] | (-> & exact & Hexact & ->)]); [eauto|].
  apply elem_of_app in Hr as [Hr|Hr]; [eauto|].
  pose proof (exact_solutions_sound _ _ _ _ Hexact Hr)
    as (Heq & _ & _ & _ & Hab & Hb & Hac & Hbc & Hc).
  rewrite !Z.pow_2_r in Heq. rewrite Z.max_r by lia.
  split; [|lia]. split; [lia|]. nia.
Qed.

(** X10.  An exact solution survives a library power that is off by one
    downwards.  If a^n + b^n = c^n (n >= 1, c > 0) and the integer the
    power yields for c^n is c or c - 1, the batch table holds the row
    (a, b, c) with error 0 and relative error 0.0 once (a, b) is in the
    grid, and the near-solution search returns the triple, for every
    threshold >= 0.0, once a, b, c <= max_value. *)
Theorem bracketed_exact_solution_found (max_value n a b c : Z) :
  1 <= n -> 1 <= a -> 1 <= b -> 0 < c ->
  a ^ n + b ^ n = c ^ n ->
  float_root (c ^ n) n = c \/ float_root (c ^ n) n = c - 1 ->
  (forall n_values results rows,
     generate_test_cases float_root max_value n_values = Ok results ->
     results !! n = Some rows ->
     a <= Z.min max_value 30 -> b <= Z.min max_value 30 ->
     mk_row a b c 0 zero n ∈ rows) /\
  (forall t sols,
     find_near_solutions float_root max_value n t = Ok sols ->
     leb zero t = true ->
     a <= max_value -> b <= max_value -> c <= max_value ->
     mk_near_solution a b c 0 zero ∈ sols).
Proof.
  intros Hn Ha Hb Hc Heq Hroot. split.
  - intros n_values results rows Hgen Hlook Hal Hbl.
    apply (generate_test_cases_lookup _ _ _ _ _ _ Hgen) in Hlook as [_ Hdata].
    apply generate_data_inv in Hdata as (grid & Hgrid & Hrows).
    assert (Hin : mk_row a b c 0 zero n ∈ grid).
    { apply (grid_rows_elem _ _ _ _ _ Hgrid). exists a, b.
      split; [lia|]. split; [lia|].
      assert (Hab : (a, b) ∈ product (py_range 1 (Z.min max_value 30 + 1))
                                     (py_range 1 (Z.min max_value 30 + 1)))
        by (apply elem_of_product; split; apply elem_of_py_range; lia).
      destruct (collect_each_Ok _ _ _ _ Hgrid Hab) as (ys & Hys).
      unfold grid_row in Hys |- *.
      apply rbind_Ok in Hys as (sel & Hsel & _). rewrite Hsel.
      rewrite (select_candidate_exact _ _ _ _ _ _ Hn Hc Heq Hroot Hsel).
      simpl. destruct (2 <? n); reflexivity. }
    destruct Hrows as [[_ ->] | (_ & exact & _ & ->)];
      [|apply elem_of_app; left]; exact Hin.
  - intros t sols Hfind Ht Ham Hbm Hcm.
    apply (find_near_solutions_elem _ _ _ _ _ _ Hfind).
    exists a, b, c. split; [lia|]. split; [lia|]. split.
    + rewrite Heq. destruct Hroot as [->| ->]; [left | right]; lia.
    + replace 0 with (fermat_difference a b c n)
        by (apply fermat_difference_zero, Heq).
      apply near_row_keep; [lia | | exact Ht].
      apply fermat_relative_error_exact; [lia | lia | exact Heq].
Qed.

(** X11.  The grid part of a table (n >= 0) is symmetric in a and b: with
    the row (a, b, c, error, relative_error) it holds the row
    (b, a, c, error, relative_error).  For n <> 2 the grid part is the
    whole table. *)
Theorem grid_symmetric
    (max_value : Z) (n_values : list Z) (results : gmap Z (list row))
    (n : Z) (rows : list row) :
  0 <= n ->
  generate_test_cases float_root max_value n_values = Ok results ->
  results !! n = Some rows ->
  exists grid,
    grid_rows float_root max_value n = Ok grid /\
    (n <> 2 -> rows = grid) /\
    forall a b c error rel_error,
      mk_row a b c error rel_error n ∈ grid ->
      mk_row b a c error rel_error n ∈ grid.
Proof.
  intros _ Hgen Hlook.
  apply (generate_test_cases_lookup _ _ _ _ _ _ Hgen) in Hlook as [_ Hdata].
  apply generate_data_inv in Hdata as (grid & Hgrid & Hrows).
  exists grid. split; [assumption|].
  split; [destruct Hrows as [[_ ->]|[-> _]]; [reflexivity | contradiction]|].
  intros a b c error rel Hr.
  apply (grid_rows_elem _ _ _ _ _ Hgrid) in Hr as (a' & b' & Ha & Hb & Hrow).
  destruct (grid_row_inv _ _ _ _ _ Hrow)
    as [[=] | (c' & error' & rel' & [= <- <- <- <- <-] & _)].
  apply (grid_rows_elem _ _ _ _ _ Hgrid). exists b, a.
  split; [assumption|]. split; [assumption|].
  unfold grid_row in *. rewrite <- select_candidate_comm.
  destruct (select_candidate float_root n a b) as [[[[c1 e1] r1]|]|];
    simpl in *; try discriminate.
  destruct (_ && _); congruence.
Qed.

(** X12.  In the table for n = 2 the exact pass, like the grid, emits at
    most one row for each pair (a, b); so a pair occurs at most twice in
    the table, once from each loop. *)
Theorem pair_emitted_at_most_twice
    (max_value : Z) (n_values : list Z) (results : gmap Z (list row))
    (rows : list row) :
  generate_test_cases float_root max_value n_values = Ok results ->
  results !! 2 = Some rows ->
  exists grid exact,
    grid_rows float_root max_value 2 = Ok grid /\
    exact_solutions max_value 2 = Ok exact /\
    rows = grid ++ exact /\
    NoDup ((fun r => (row_a r, row_b r)) <$> exact) /\
    forall a b,
      (length (filter (fun r => (row_a r, row_b r) = (a, b)) rows) <= 2)%nat.
Proof.
  intros Hgen Hlook.
  apply (generate_test_cases_lookup _ _ _ _ _ _ Hgen) in Hlook as [_ Hdata].
  apply generate_data_inv in Hdata
    as (grid & Hgrid & [[Hn _] | (_ & exact & Hexact & ->)]); [lia|].
  exists grid, exact. repeat (split; [assumption || reflexivity|]).
  pose proof (exact_solutions_NoDup _ _ _ Hexact) as Hnd.
  split; [exact Hnd|]. intros a b.
  rewrite filter_app, length_app.
  pose proof (filter_key_length (fun r => (row_a r, row_b r)) (a, b) grid
                (grid_rows_NoDup _ _ _ _ Hgrid)).
  pose proof (filter_key_length (fun r => (row_a r, row_b r)) (a, b) exact Hnd).
  lia.
Qed.

(** X13.  Size of the results (n >= 0).  A table of [generate_test_cases]
    for n <> 2 has at most 30 * 30 = 900 rows, whatever max_value is; the
    list of [find_near_solutions] has at most 2 * max_value^2 records. *)
Theorem result_sizes_bounded (max_value n : Z) :
  0 <= n ->
  (forall n_values results rows,
     generate_test_cases float_root max_value n_values = Ok results ->
     results !! n = Some rows -> n <> 2 ->
     Z.of_nat (length rows) <= 900) /\
  (forall error_threshold sols,
     find_near_solutions float_root max_value n error_threshold = Ok sols ->
     Z.of_nat (length sols) <= 2 * Z.max 0 max_value ^ 2).
Proof.
  intros _. split.
  - intros n_values results rows Hgen Hlook Hn.
    apply (generate_test_cases_lookup _ _ _ _ _ _ Hgen) in Hlook as [_ Hdata].
    apply generate_data_inv in Hdata
      as (grid & Hgrid & [[_ ->] | (-> & _)]); [|lia].
    unfold grid_rows in Hgrid.
    assert (Hsub : sublist ((fun r => (row_a r, row_b r)) <$> grid)
                     (id <$> product (py_range 1 (Z.min max_value 30 + 1))
                                     (py_range 1 (Z.min max_value 30 + 1)))).
    { eapply collect_keys_sublist; [|exact Hgrid].
      intros [a b] ys _ Hys.
      destruct (grid_row_inv _ _ _ _ _ Hys) as [-> | (c & e & rel & -> & _)];
        eauto. }
    apply sublist_length in Hsub.
    rewrite !length_fmap, length_product in Hsub.
    destruct (Z_le_gt_dec 1 (Z.min max_value 30 + 1)) as [Hle|Hgt].
    + pose proof (length_py_range 1 _ Hle). nia.
    + rewrite py_range_empty in Hsub by lia. simpl in Hsub. lia.
  - intros t sols Hfind.
    pose proof (near_keys_sublist _ _ _ _ _ Hfind) as Hsub.
    apply sublist_length in Hsub. rewrite length_fmap in Hsub.
    assert (Hin : forall (a : Z) (l2 : list Z),
              length (l2 ≫= fun b =>
                        (fun c => (a, b, c)) <$>
                          [float_root (a ^ n + b ^ n) n;
                           float_root (a ^ n + b ^ n) n + 1])
              = (2 * length l2)%nat).
    { intros a l2. induction l2 as [|b l2 IH2]; [reflexivity|].
      rewrite bind_cons, length_app, IH2. simpl. lia. }
    assert (Hlen : forall (l1 l2 : list Z),
              length (l1 ≫= fun a => l2 ≫= fun b =>
                        (fun c => (a, b, c)) <$>
                          [float_root (a ^ n + b ^ n) n;
                           float_root (a ^ n + b ^ n) n + 1])
              = (length l1 * (2 * length l2))%nat).
    { intros l1 l2. induction l1 as [|a l1 IH]; [reflexivity|].
      rewrite bind_cons, length_app, IH, Hin. simpl. lia. }
    rewrite Hlen in Hsub.
    destruct (Z_le_gt_dec 1 (max_value + 1)) as [Hle|Hgt].
    + pose proof (length_py_range 1 _ Hle). nia.
    + rewrite py_range_empty in Hsub by lia. simpl in Hsub. lia.
Qed.

(** X14.  The batch and the near-solution search agree.  For n > 2 every
    row of the batch table whose c is within max_value is returned by
    [find_near_solutions] with its default threshold 0.1, with the same
    error and relative error. *)
Theorem batch_rows_are_near_solutions
    (max_value : Z) (n_values : list Z) (results : gmap Z (list row))
    (n : Z) (rows : list row) (sols : list near_solution) (r : row) :
  2 < n ->
  generate_test_cases float_root max_value n_values = Ok results ->
  results !! n = Some rows ->
  find_near_solutions float_root max_value n one_tenth = Ok sols ->
  r ∈ rows -> row_c r <= max_value ->
  mk_near_solution (row_a r) (row_b r) (row_c r)
                   (row_error r) (row_relative_error r) ∈ sols.
Proof.
  intros Hn Hgen Hlook Hfind Hr Hc.
  apply (generate_test_cases_lookup _ _ _ _ _ _ Hgen) in Hlook as [_ Hdata].
  apply generate_data_inv in Hdata
    as (grid & Hgrid & [[_ ->] | (-> & _)]); [|lia].
  apply (grid_rows_elem _ _ _ _ _ Hgrid) in Hr as (a & b & Ha & Hb & Hrow).
  destruct (grid_row_inv _ _ _ _ _ Hrow)
    as [[=] | (c & error & rel & [= ->] & Hsel & Hkeep)].
  simpl in *.
  apply select_candidate_inv in Hsel as (_ & Hc0 & -> & Hrel & Hcand).
  cbv zeta in Hcand.
  apply (find_near_solutions_elem _ _ _ _ _ _ Hfind).
  exists a, b, c. split; [lia|]. split; [lia|]. split; [tauto|].
  apply near_row_keep; [lia | exact Hrel |].
  assert (Hfin : finite_signed false rel).
  { eapply truediv_nonneg; [| |exact Hrel]; [lia|].
    apply Z.pow_pos_nonneg; lia. }
  apply ltb_false_leb; [eapply finite_signed_not_nan, Hfin | discriminate |].
  apply Hkeep, Hn.
Qed.

(** X15.  [find_near_solutions] (n >= 0) returns no triple twice: the
    records of its list are pairwise distinct, already in (a, b, c). *)
Theorem near_solutions_distinct_triples
    (max_value n : Z) (error_threshold : float) (sols : list near_solution) :
  0 <= n ->
  find_near_solutions float_root max_value n error_threshold = Ok sols ->
  NoDup ((fun s => (near_a s, near_b s, near_c s)) <$> sols) /\
  NoDup sols.
Proof.
  intros _ H.
  assert (Hnd : NoDup ((fun s => (near_a s, near_b s, near_c s)) <$> sols)).
  { refine (sublist_NoDup _ _ _ (near_keys_sublist _ _ _ _ _ H)).
    apply NoDup_bind; [| |apply NoDup_py_range].
    - intros a1 a2 [[a b] c] _ _ H1 H2.
      apply list_elem_of_bind in H1 as (b1 & H1 & _).
      apply list_elem_of_bind in H2 as (b2 & H2 & _).
      apply list_elem_of_fmap in H1 as (? & [= -> _ _] & _).
      apply list_elem_of_fmap in H2 as (? & [= -> _ _] & _). reflexivity.
    - intros a _. apply NoDup_bind; [| |apply NoDup_py_range].
      + intros b1 b2 [[a' b] c] _ _ H1 H2.
        apply list_elem_of_fmap in H1 as (? & [= _ -> _] & _).
        apply list_elem_of_fmap in H2 as (? & [= _ -> _] & _). reflexivity.
      + intros b _. apply NoDup_fmap_2; [intros c c' [= ->]; reflexivity|].
        apply NoDup_cons. split; [|apply NoDup_singleton].
        rewrite list_elem_of_singleton. lia. }
  split; [exact Hnd|]. eapply NoDup_fmap_1, Hnd.
Qed.

(** X16.  Lowering max_value in [find_near_solutions] (n >= 0, same
    threshold) raises no new exception and only removes records: the
    search with the lower bound returns exactly the records of the other
    whose a, b and c are within the lower bound. *)
Theorem near_solutions_bound_monotone
    (mv1 mv2 n : Z) (error_threshold : float) (sols2 : list near_solution) :
  0 <= n -> mv1 <= mv2 ->
  find_near_solutions float_root mv2 n error_threshold = Ok sols2 ->
  exists sols1,
    find_near_solutions float_root mv1 n error_threshold = Ok sols1 /\
    forall s, s ∈ sols1 <->
              s ∈ sols2 /\ near_a s <= mv1 /\ near_b s <= mv1 /\ near_c s <= mv1.
Proof.
  intros _ Hle H2.
  assert (Hrow : forall a b c, 1 <= a <= mv1 -> 1 <= b <= mv1 ->
            c = float_root (a ^ n + b ^ n) n \/
            c = float_root (a ^ n + b ^ n) n + 1 ->
            root_candidate float_root (a ^ n + b ^ n) n
              = Ok (float_root (a ^ n + b ^ n) n) /\
            exists sols sols',
              near_row mv2 n error_threshold a b c = Ok sols /\
              near_row mv1 n error_threshold a b c = Ok sols' /\
              forall s, s ∈ sols' <-> s ∈ sols /\ near_c s <= mv1).
  { intros a b c Ha Hb Hc.
    assert (Ha' : a ∈ py_range 1 (mv2 + 1)) by (apply elem_of_py_range; lia).
    assert (Hb' : b ∈ py_range 1 (mv2 + 1)) by (apply elem_of_py_range; lia).
    destruct (collect_each_Ok _ _ _ _ H2 Ha') as (ys & Hys).
    destruct (collect_each_Ok _ _ _ _ Hys Hb') as (zs & Hzs).
    apply rbind_Ok in Hzs as (c_approx & Hroot & Hzs).
    pose proof (root_candidate_inv _ _ _ _ Hroot) as [_ ->].
    split; [exact Hroot|].
    destruct (collect_each_Ok _ _ _ c Hzs) as (sols & Hsols);
      [rewrite !elem_of_cons; tauto|].
    destruct (near_row_bound mv1 _ _ _ _ _ _ _ Hle Hsols) as (sols' & ? & ?).
    eauto. }
  destruct (collect_total
    (fun a => collect (fun b =>
       let* c_approx := root_candidate float_root (a ^ n + b ^ n) n in
       collect (near_row mv1 n error_threshold a b) [c_approx; c_approx + 1])
       (py_range 1 (mv1 + 1)))
    (py_range 1 (mv1 + 1))) as (sols1 & H1).
  { intros a Ha. apply elem_of_py_range in Ha.
    apply collect_total. intros b Hb. apply elem_of_py_range in Hb.
    destruct (Hrow a b _ ltac:(lia) ltac:(lia) (or_introl eq_refl)) as [-> _].
    cbn [rbind]. apply collect_total. intros c Hc.
    destruct (Hrow a b c) as (_ & sols & sols' & _ & ? & _);
      [lia | lia | |eauto].
    rewrite !elem_of_cons in Hc. destruct Hc as [?|[?|Hc]]; auto. inversion Hc. }
  exists sols1. split; [exact H1|]. intros s.
  rewrite (find_near_solutions_elem _ _ _ _ _ _ H1),
          (find_near_solutions_elem _ _ _ _ _ _ H2).
  split.
  - intros (a & b & c & Ha & Hb & Hc & Hs).
    destruct (Hrow a b c Ha Hb Hc) as (_ & sols & sols' & Hsols & Hsols' & Hiff).
    rewrite Hs in Hsols'. injection Hsols' as <-.
    destruct (proj1 (Hiff s)) as [Hin Hcs]; [left|].
    destruct (near_row_inv _ _ _ _ _ _ _ Hsols) as [-> | (rel & -> & _)];
      [inversion Hin|].
    apply list_elem_of_singleton in Hin as ->. simpl in *.
    split; [|lia]. exists a, b, c. repeat (split; [lia || assumption|]).
    assumption.
  - intros [(a & b & c & Ha & Hb & Hc & Hs) (Has & Hbs & Hcs)].
    destruct (near_row_inv _ _ _ _ _ _ _ Hs) as [[=] | (rel & [= Hs'] & _)].
    subst s. simpl in *.
    exists a, b, c. split; [lia|]. split; [lia|]. split; [assumption|].
    destruct (Hrow a b c) as (_ & sols & sols' & Hsols & Hsols' & Hiff);
      [lia | lia | assumption |].
    rewrite Hs in Hsols. injection Hsols as <-.
    destruct (near_row_inv _ _ _ _ _ _ _ Hsols') as [-> | (rel' & -> & _)].
    + exfalso.
      assert (Hin : mk_near_solution a b c (fermat_difference a b c n) rel ∈ []).
      { apply Hiff. split; [left | simpl; lia]. }
      inversion Hin.
    + rewrite Hsols'. f_equal. f_equal.
      assert (Hin : mk_near_solution a b c (fermat_difference a b c n) rel'
                      ∈ [mk_near_solution a b c (fermat_difference a b c n) rel])
        by (apply Hiff; left).
      apply list_elem_of_singleton in Hin. exact Hin.
Qed.

(** X17.  With threshold 0.0 [find_near_solutions] returns exact
    solutions only: when max_value^n is below 2^1021, so that no positive
    relative error rounds to 0.0, every returned record satisfies
    a^n + b^n = c^n and carries error 0 and relative error 0.0. *)
Theorem zero_threshold_gives_exact_solutions
    (max_value n : Z) (sols : list near_solution) (s : near_solution) :
  0 <= n -> max_value ^ n < 2 ^ 1021 ->
  find_near_solutions float_root max_value n zero = Ok sols ->
  s ∈ sols ->
  near_a s ^ n + near_b s ^ n = near_c s ^ n /\
  near_error s = 0 /\ near_relative_error s = zero.
Proof.
  intros Hn Hb Hfind Hs.
  apply (find_near_solutions_elem _ _ _ _ _ _ Hfind) in Hs
    as (a & b & c & _ & _ & _ & Hrow).
  destruct (near_row_inv _ _ _ _ _ _ _ Hrow)
    as [[=] | (rel & [= ->] & Hc & Hrel & Hle)].
  simpl.
  assert (Hcn : c ^ n < 2 ^ 1021).
  { assert (c ^ n <= max_value ^ n) by (apply Z.pow_le_mono_l; lia). lia. }
  destruct (Z.eq_dec (a ^ n + b ^ n) (c ^ n)) as [Heq|Hne].
  - split; [exact Heq|]. split; [apply fermat_difference_zero, Heq|].
    pose proof (fermat_relative_error_exact a b c n Hn (proj1 Hc) Heq).
    congruence.
  - exfalso. unfold fermat_relative_error in Hrel.
    assert (Hp : 0 < Z.abs (a ^ n + b ^ n - c ^ n)) by lia.
    assert (Hq : 0 < c ^ n) by (apply Z.pow_pos_nonneg; lia).
    assert (Hlt : c ^ n < 2 ^ 1021 * Z.abs (a ^ n + b ^ n - c ^ n)).
    { assert (0 < 2 ^ 1021) by (apply Z.pow_pos_nonneg; lia).
      generalize dependent (2 ^ 1021). intros. nia. }
    destruct (truediv_pos _ _ _ Hp Hq Hlt Hrel) as (m & e & ->).
    discriminate Hle.
Qed.



(** X20.  The split the plotting script makes of a table (n >= 0).  On an
    empty table, whose frame has no ['error'] column, [df['error']]
    raises.  On any other table of [generate_test_cases] the rows with
    error == 0 and the rows with error > 0 together are all the rows,
    each once; the first are the rows with a^n + b^n = c^n, the others
    those without, and [exact_count] is the number of the first. *)
Theorem exact_and_approx_partition
    (max_value : Z) (n_values : list Z) (results : gmap Z (list row))
    (n : Z) (rows : list row) :
  0 <= n ->
  generate_test_cases float_root max_value n_values = Ok results ->
  results !! n = Some rows ->
  (rows = [] ->
   Visualization.exact rows = None /\ Visualization.approx rows = None /\
   Visualization.exact_count rows = None) /\
  (rows <> [] ->
   exists ex ap,
     Visualization.exact rows = Some ex /\
     Visualization.approx rows = Some ap /\
     Visualization.exact_count rows = Some (length ex) /\
     ex ++ ap ≡ₚ rows /\
     (forall r, r ∈ ex <->
                r ∈ rows /\ row_a r ^ n + row_b r ^ n = row_c r ^ n) /\
     (forall r, r ∈ ap <->
                r ∈ rows /\ row_a r ^ n + row_b r ^ n <> row_c r ^ n)).
Proof.
  intros Hn Hgen Hlook.
  apply (generate_test_cases_lookup _ _ _ _ _ _ Hgen) in Hlook as [_ Hdata].
  split; [intros ->; auto|]. intros Hne.
  assert (Herr : forall r, r ∈ rows ->
            row_error r = fermat_difference (row_a r) (row_b r) (row_c r) n).
  { intros r Hr. apply (generate_data_row _ _ _ _ _ Hn Hdata Hr). }
  exists (filter (fun r => row_error r = 0) rows),
         (filter (fun r => 0 < row_error r) rows).
  destruct rows as [|r0 rows0] eqn:Hrows; [congruence|]. rewrite <- Hrows in *.
  assert (Hex : Visualization.exact rows
                = Some (filter (fun r => row_error r = 0) rows))
    by (rewrite Hrows; reflexivity).
  assert (Hap : Visualization.approx rows
                = Some (filter (fun r => 0 < row_error r) rows))
    by (rewrite Hrows; reflexivity).
  split; [exact Hex|]. split; [exact Hap|].
  split; [unfold Visualization.exact_count; rewrite Hex; reflexivity|].
  split; [|split].
  - rewrite (list_filter_ext_in (fun r => 0 < row_error r)
                                (fun r => ~ row_error r = 0)).
    + apply filter_app_complement.
    + intros r Hr. rewrite (Herr r Hr). unfold fermat_difference. lia.
  - intros r. rewrite list_elem_of_filter. split; intros [H1 H2].
    + split; [assumption|]. rewrite (Herr r H2) in H1.
      apply fermat_difference_zero, H1.
    + split; [|assumption]. rewrite (Herr r H1).
      apply fermat_difference_zero, H2.
  - intros r. rewrite list_elem_of_filter. split; intros [H1 H2].
    + split; [assumption|]. rewrite (Herr r H2) in H1.
      unfold fermat_difference in H1. lia.
    + split; [|assumption]. rewrite (Herr r H1).
      unfold fermat_difference. lia.
Qed.

(** X21.  The marker sizes and colours the plots compute from a row of a
    table (n >= 0) are valid: [1 - np.minimum(relative_error, 0.5) / 0.5]
    and 50 times it are finite floats >= 0.0, never NaN and never
    negative.  A row with error 0 gets the colour value 1.0 and the size
    50.0; a row whose relative error is not below 0.5 gets 0.0 and 0.0. *)
Theorem marker_sizes_valid
    (max_value : Z) (n_values : list Z) (results : gmap Z (list row))
    (n : Z) (rows : list row) (r : row) :
  0 <= n ->
  generate_test_cases float_root max_value n_values = Ok results ->
  results !! n = Some rows ->
  r ∈ rows ->
  finite_signed false (Visualization.error_for_color (row_relative_error r)) /\
  finite_signed false (Visualization.df_sizes (row_relative_error r)) /\
  leb zero (Visualization.error_for_color (row_relative_error r)) = true /\
  leb zero (Visualization.df_sizes (row_relative_error r)) = true /\
  (row_error r = 0 ->
   Visualization.error_for_color (row_relative_error r) = one /\
   Visualization.df_sizes (row_relative_error r) = Visualization.fifty) /\
  (ltb (row_relative_error r) Visualization.half = false ->
   Visualization.error_for_color (row_relative_error r) = zero /\
   Visualization.df_sizes (row_relative_error r) = zero).
Proof.
  intros Hn Hgen Hlook Hr.
  apply (generate_test_cases_lookup _ _ _ _ _ _ Hgen) in Hlook as [_ Hdata].
  destruct (generate_data_row _ _ _ _ _ Hn Hdata Hr) as (Hc & _ & He & Hrel).
  assert (Hq : 0 < row_c r ^ n) by (apply Z.pow_pos_nonneg; lia).
  assert (Hfin : finite_signed false (row_relative_error r)).
  { eapply truediv_nonneg; [| |exact Hrel]; lia. }
  assert (Hm : forall m e, row_relative_error r = S754_finite false m e ->
                           Zpos m < 2 ^ 53).
  { intros m e Heq. unfold fermat_relative_error in Hrel. rewrite Heq in Hrel.
    eapply truediv_mantissa; [| |exact Hrel]; lia. }
  destruct (sizes_of_relative_error _ Hfin Hm) as (Hcol & Hsize & Hzero & Hhigh).
  split; [exact Hcol|]. split; [exact Hsize|].
  split; [apply leb_zero_nonneg, finite_signed_signed, Hcol|].
  split; [apply leb_zero_nonneg, finite_signed_signed, Hsize|].
  split; [|exact Hhigh].
  intros H0. apply Hzero. rewrite He in H0. apply fermat_difference_zero in H0.
  pose proof (fermat_relative_error_exact _ _ _ _ Hn Hc H0). congruence.
Qed.

End Tables.



(** X24.  The menu loop reads its options at the even positions of the
    input and ignores what is typed at the pause prompt in between, a '0'
    included: two inputs of the same length that agree at the even
    positions give the same run.  A component runs only when chosen:
    every visualization run comes from an option '1' or '3', every
    explanation run from '2' or '3', every [time.sleep] from '3'. *)
Theorem menu_runs_only_what_is_chosen :
  (forall stdin stdin' : list string,
     length stdin = length stdin' ->
     (forall k : nat, stdin !! (2 * k)%nat = stdin' !! (2 * k)%nat) ->
     Menu.main_loop stdin = Menu.main_loop stdin') /\
  (forall (stdin : list string) (act : Menu.action),
     act ∈ fst (Menu.main_loop stdin) ->
     exists (k : nat) (option : string),
       stdin !! (2 * k)%nat = Some option /\
       (act = Menu.RunVisualization ->
        option = "1"%string \/ option = "3"%string) /\
       (act = Menu.RunExplanation ->
        option = "2"%string \/ option = "3"%string) /\
       (forall seconds, act = Menu.Sleep seconds -> option = "3"%string)).
Proof.
  split.
  - intros stdin. induction stdin as [|x|x y l IH] using list_pair_ind;
      intros stdin' Hlen Heven.
    + destruct stdin'; [reflexivity | discriminate].
    + destruct stdin' as [|x' [|? ?]]; try discriminate.
      specialize (Heven 0%nat). simpl in Heven. congruence.
    + destruct stdin' as [|x' [|y' l']]; try discriminate.
      pose proof (Heven 0%nat) as H0. simpl in H0. injection H0 as <-.
      assert (Hl : Menu.main_loop l = Menu.main_loop l').
      { apply IH; [simpl in Hlen; lia|]. intros k.
        specialize (Heven (S k)). rewrite !lookup_even_step in Heven.
        exact Heven. }
      simpl. rewrite Hl. reflexivity.
  - intros stdin. induction stdin as [|x|x y l IH] using list_pair_ind;
      intros act Hact.
    + inversion Hact.
    + destruct (String.eqb_spec x "0") as [->|Hne]; [inversion Hact|].
      destruct (main_loop_step x x [] Hne) as (actions & _ & Hone & Hacts).
      rewrite Hone in Hact. simpl in Hact.
      exists 0%nat, x. split; [reflexivity|]. apply (Hacts act Hact).
    + destruct (String.eqb_spec x "0") as [->|Hne]; [inversion Hact|].
      destruct (main_loop_step x y l Hne) as (actions & Hstep & _ & Hacts).
      rewrite Hstep in Hact. cbn [fst] in Hact.
      apply elem_of_app in Hact as [Hact|Hact].
      * exists 0%nat, x. split; [reflexivity|]. apply (Hacts act Hact).
      * destruct (IH act Hact) as (k & o & Hk & Ho).
        exists (S k), o. rewrite lookup_even_step. auto.
Qed.

(** * Concrete runs *)

(** The values of [int(8 ** (1/2))], [int(25 ** (1/2))] and
    [int(91 ** (1/3))]. *)
Lemma floor_root_values :
  floor_root 8 2 = 2 /\ floor_root 25 2 = 5 /\ floor_root 91 3 = 4.
Proof. repeat split; reflexivity. Qed.

Lemma squares_upto_2_run :
  generate_test_cases floor_root 2 [2] = Ok {[ 2 := squares_upto_2 ]}.
Proof. vm_compute. reflexivity. Qed.

Lemma cubes_upto_3_run :
  generate_test_cases floor_root 3 [3] = Ok {[ 3 := cubes_upto_3 ]}.
Proof. vm_compute. reflexivity. Qed.

Lemma batch_relative_error_bounded_witness :
  (leb zero (S754_finite false 5337599558365032 (-57)) = true /\
   leb (S754_finite false 5337599558365032 (-57)) one_tenth = true) /\
  mk_row 2 2 3 1 (S754_finite false 8006399337547548 (-56)) 2 ∈ squares_upto_2.
Proof.
  assert (Hcubes : generate_test_cases floor_root 3 [3]
                   = Ok {[ 3 := cubes_upto_3 ]}) by (vm_compute; reflexivity).
  assert (Hsquares : generate_test_cases floor_root 2 [2]
                     = Ok {[ 2 := squares_upto_2 ]}) by (vm_compute; reflexivity).
  split.
  - apply (proj1 (batch_relative_error_bounded floor_root 3 [3] _ 3 cubes_upto_3
                    Hcubes eq_refl)
             ltac:(lia)
             (mk_row 1 3 3 1 (S754_finite false 5337599558365032 (-57)) 3)).
    left.
  - apply (proj2 (batch_relative_error_bounded floor_root 2 [2] _ 2 squares_upto_2
                    Hsquares eq_refl)
             eq_refl 2 2 3 1 (S754_finite false 8006399337547548 (-56)));
      [lia | lia | vm_compute; reflexivity].
Defined.

Lemma squares_upto_5_run :
  generate_test_cases floor_root 5 [2] = Ok {[ 2 := squares_upto_5 ]}.
Proof. vm_compute. reflexivity. Qed.

Lemma exact_rows_are_pythagorean_witness :
  exists grid exact,
    grid_rows floor_root 5 2 = Ok grid /\
    exact_solutions 5 2 = Ok exact /\
    squares_upto_5 = grid ++ exact /\
    forall r, r ∈ exact ->
      row_a r ^ 2 + row_b r ^ 2 = row_c r ^ 2 /\
      row_error r = 0 /\ row_relative_error r = zero /\ row_n r = 2 /\
      1 <= row_a r <= row_b r /\
      row_a r < row_c r /\ row_b r < row_c r /\ row_c r <= 5.
Proof.
  assert (Hrun : generate_test_cases floor_root 5 [2]
                 = Ok {[ 2 := squares_upto_5 ]}) by (vm_compute; reflexivity).
  exact (exact_rows_are_pythagorean floor_root 5 [2] _ squares_upto_5
           Hrun eq_refl).
Defined.

(** C3, failing input.  The docstring calls max_value the largest value
    of a, b and c, and the exact pass and [find_near_solutions] both test
    c <= max_value; the grid loop does not.  With max_value = 2 the pair
    (2, 2) has the candidates 2 and 3 for the root of 8; 3 has the smaller
    error and is emitted, above max_value. *)
Lemma batch_row_exceeds_max_value :
  generate_test_cases floor_root 2 [2] = Ok {[ 2 := squares_upto_2 ]} /\
  squares_upto_2 !! 3%nat
    = Some (mk_row 2 2 3 1 (S754_finite false 8006399337547548 (-56)) 2) /\
  ~ (3 <= 2).
Proof.
  split; [vm_compute; reflexivity|]. split; [reflexivity | lia].
Qed.

Lemma batch_rows_positive_c_witness :
  0 < 3 /\ 1 <= 2 <= 2 /\ 1 <= 2 <= 2 /\ 2 = 2.
Proof.
  assert (Hrun : generate_test_cases floor_root 2 [2]
                 = Ok {[ 2 := squares_upto_2 ]}) by (vm_compute; reflexivity).
  apply (batch_rows_positive_c floor_root 2 [2] _ 2 squares_upto_2
           (mk_row 2 2 3 1 (S754_finite false 8006399337547548 (-56)) 2)
           ltac:(lia) Hrun eq_refl).
  vm_compute. do 3 right. left.
Defined.

(** C4, counterexample.  With max_value = 5 and n = 2 the grid emits the
    row for (3, 4) with c = 5 and the exact pass appends it again. *)
Lemma pair_3_4_emitted_twice :
  generate_test_cases floor_root 5 [2] = Ok {[ 2 := squares_upto_5 ]} /\
  squares_upto_5 !! 13%nat = Some (mk_row 3 4 5 0 zero 2) /\
  squares_upto_5 !! 25%nat = Some (mk_row 3 4 5 0 zero 2) /\
  ~ NoDup ((fun r => (row_a r, row_b r)) <$> squares_upto_5).
Proof.
  split; [vm_compute; reflexivity|]. split; [reflexivity|].
  split; [reflexivity|].
  intros Hnd.
  pose proof (proj1 (NoDup_alt _) Hnd 13%nat 25%nat (3, 4) eq_refl eq_refl).
  discriminate.
Qed.

Lemma grid_one_row_per_pair_witness :
  exists grid,
    grid_rows floor_root 5 2 = Ok grid /\
    (exists exact, exact_solutions 5 2 = Ok exact /\
                   squares_upto_5 = grid ++ exact) /\
    NoDup ((fun r => (row_a r, row_b r)) <$> grid).
Proof.
  assert (Hrun : generate_test_cases floor_root 5 [2]
                 = Ok {[ 2 := squares_upto_5 ]}) by (vm_compute; reflexivity).
  destruct (grid_one_row_per_pair floor_root 5 [2] _ 2 squares_upto_5
              ltac:(lia) Hrun eq_refl)
    as (grid & Hgrid & _ & Hexact & Hnd & _).
  exists grid. split; [exact Hgrid|]. split; [exact (Hexact eq_refl) | exact Hnd].
Defined.



Lemma near_squares_upto_3_run :
  find_near_solutions floor_root 3 2 one = Ok near_squares_upto_3.
Proof. vm_compute. reflexivity. Qed.

Lemma near_cubes_upto_3_run :
  find_near_solutions floor_root 3 3 one_tenth = Ok near_cubes_upto_3.
Proof. vm_compute. reflexivity. Qed.

Lemma near_solutions_within_threshold_witness :
  (fermat_relative_error 2 2 3 2
     = Ok (S754_finite false 8006399337547548 (-56)) /\
   leb (S754_finite false 8006399337547548 (-56)) one = true /\
   1 = fermat_difference 2 2 3 2) /\
  mk_near_solution 2 2 2 (fermat_difference 2 2 2 2) one ∈ near_squares_upto_3 /\
  mk_near_solution 2 2 3 (fermat_difference 2 2 3 2)
    (S754_finite false 8006399337547548 (-56)) ∈ near_squares_upto_3.
Proof.
  assert (Hrun : find_near_solutions floor_root 3 2 one = Ok near_squares_upto_3)
    by (vm_compute; reflexivity).
  pose proof (near_solutions_within_threshold floor_root 3 2 one
                near_squares_upto_3 ltac:(lia) Hrun) as [Hsound Hkeep].
  split; [|split].
  - apply (Hsound (mk_near_solution 2 2 3 1
                     (S754_finite false 8006399337547548 (-56)))).
    vm_compute. do 8 right. left.
  - apply Hkeep; [lia | lia | left; vm_compute; reflexivity | lia
                 | vm_compute; reflexivity | reflexivity].
  - apply Hkeep; [lia | lia | right; vm_compute; reflexivity | lia
                 | vm_compute; reflexivity | reflexivity].
Defined.

Lemma near_solutions_threshold_monotone_witness :
  exists sols2,
    find_near_solutions floor_root 3 3 one = Ok sols2 /\
    forall s, s ∈ near_cubes_upto_3 -> s ∈ sols2.
Proof.
  apply (near_solutions_threshold_monotone floor_root 3 3 one_tenth one
           near_cubes_upto_3 ltac:(lia));
    vm_compute; reflexivity.
Defined.



(** C9, counterexample.  With c = 1 > 0 the quotient 2^1100 / 1 does not
    fit a float, and the int division raises [OverflowError]. *)
Lemma relative_error_overflow :
  0 < 1 /\ fermat_relative_error 2 1 1 1100 = Raise OverflowError.
Proof. split; [lia | vm_compute; reflexivity]. Qed.

Lemma relative_error_division_by_zero_witness :
  (fermat_relative_error 3 4 0 3 = Raise ZeroDivisionError <-> 0 = 0) /\
  (fermat_relative_error 3 4 4 3 = Raise ZeroDivisionError <-> 4 = 0) /\
  leb zero (S754_finite false 7599824371187712 (-54)) = true /\
  exists rel_error, fermat_relative_error 3 4 4 3 = Ok rel_error.
Proof.
  pose proof (relative_error_division_by_zero 3 4 0 3 ltac:(lia)) as [Hzero _].
  pose proof (relative_error_division_by_zero 3 4 4 3 ltac:(lia)) as [Hiff Hpos].
  destruct (Hpos ltac:(lia)) as (Hnonneg & _ & Htotal).
  split; [exact Hzero|]. split; [exact Hiff|]. split.
  - apply Hnonneg. vm_compute. reflexivity.
  - apply Htotal. vm_compute. split; [discriminate | reflexivity].
Defined.

Lemma near_solutions_in_range_witness :
  1 <= 1 <= 3 /\ 1 <= 3 <= 3 /\ 1 <= 3 <= 3.
Proof.
  apply (near_solutions_in_range floor_root 3 3 one_tenth near_cubes_upto_3
           (mk_near_solution 1 3 3 1 (S754_finite false 5337599558365032 (-57)))
           ltac:(lia) ltac:(vm_compute; reflexivity)).
  left.
Defined.

(** The call made by the plotting script: max_value 50, exponents 2..5. *)
Lemma batch_generator_returns_witness :
  exists results,
    generate_test_cases floor_root 50 [2; 3; 4; 5] = Ok results /\
    forall n, n ∈ [2; 3; 4; 5] -> is_Some (results !! n).
Proof.
  apply (batch_generator_returns floor_root 50 [2; 3; 4; 5]).
  - intros n Hn. repeat (apply elem_of_cons in Hn as [->|Hn]; [lia|]).
    inversion Hn.
  - intros _. vm_compute. reflexivity.
Defined.

(** ** Runs for the further properties *)

Lemma relative_error_zero_iff_exact_witness :
  (zero = zero <-> 3 ^ 2 + 4 ^ 2 = 5 ^ 2) /\
  (3 ^ 2 + 4 ^ 2 <> 5 ^ 2 -> ltb zero zero = true).
Proof.
  assert (Hb : 5 ^ 2 < 2 ^ 1021) by (vm_compute; reflexivity).
  assert (Hrel : fermat_relative_error 3 4 5 2 = Ok zero)
    by (vm_compute; reflexivity).
  exact (relative_error_zero_iff_exact 3 4 5 2 zero ltac:(lia) ltac:(lia)
           Hb Hrel).
Defined.

(** The exact pass with max_value = 4 against max_value = 5: the one row
    (3, 4, 5) is dropped. *)
Lemma exact_pass_bound_monotone_witness :
  exists rows1,
    exact_solutions 4 2 = Ok rows1 /\
    forall r, r ∈ rows1 <-> r ∈ [mk_row 3 4 5 0 zero 2] /\ row_c r <= 4.
Proof.
  assert (Hrun : exact_solutions 5 2 = Ok [mk_row 3 4 5 0 zero 2])
    by (vm_compute; reflexivity).
  exact (exact_pass_bound_monotone 4 5 2 _ ltac:(lia) Hrun).
Defined.

Lemma batch_tables_by_exponent_witness :
  (forall n, is_Some (({[ 2 := squares_upto_2 ]} : gmap Z (list row)) !! n)
             <-> n ∈ [2]) /\
  (forall n rows,
     ({[ 2 := squares_upto_2 ]} : gmap Z (list row)) !! n = Some rows ->
     generate_test_cases floor_root 2 [n] = Ok {[n := rows]}).
Proof.
  exact (batch_tables_by_exponent floor_root 2 [2] _ squares_upto_2_run).
Defined.

Lemma batch_rows_consistent_witness :
  1 = fermat_difference 2 2 3 2 /\
  fermat_relative_error 2 2 3 2
    = Ok (S754_finite false 8006399337547548 (-56)) /\
  (1 = 0 <-> 2 ^ 2 + 2 ^ 2 = 3 ^ 2) /\
  (1 = 0 -> S754_finite false 8006399337547548 (-56) = zero).
Proof.
  apply (batch_rows_consistent floor_root 2 [2] _ 2 squares_upto_2
           (mk_row 2 2 3 1 (S754_finite false 8006399337547548 (-56)) 2)
           ltac:(lia) squares_upto_2_run eq_refl).
  apply list_elem_of_lookup. exists 3%nat. reflexivity.
Defined.

(** For n = 3 and max_value = 3 the pair (1, 3) has the selected
    candidate c = 3 with relative error 1/27. *)
Lemma batch_keeps_rows_within_threshold_witness :
  mk_row 1 3 3 1 (S754_finite false 5337599558365032 (-57)) 3 ∈ cubes_upto_3
  <-> leb (S754_finite false 5337599558365032 (-57)) one_tenth = true.
Proof.
  apply (batch_keeps_rows_within_threshold floor_root 3 [3] _ 3 cubes_upto_3
           ltac:(lia) cubes_upto_3_run eq_refl
           1 3 3 1 (S754_finite false 5337599558365032 (-57))
           ltac:(lia) ltac:(lia)).
  vm_compute. reflexivity.
Defined.

(** For (2, 2) and n = 2 the root of 8 is bracketed by 2 and 3; the row
    keeps c = 3 with error 1, and no c does better. *)
Lemma bracketed_candidate_is_nearest_witness :
  1 <= fermat_difference 2 2 2 2 /\ 1 <= fermat_difference 2 2 3 2.
Proof.
  assert (Hin : mk_row 2 2 3 1 (S754_finite false 8006399337547548 (-56)) 2
                  ∈ squares_upto_2)
    by (apply list_elem_of_lookup; exists 3%nat; reflexivity).
  assert (Hbr : let s := 2 ^ 2 + 2 ^ 2 in
                let c_low := floor_root s 2 in
                0 <= c_low /\ c_low ^ 2 <= s < (c_low + 1) ^ 2)
    by (vm_compute; repeat split; (reflexivity || (intro; discriminate))).
  split.
  - apply (bracketed_candidate_is_nearest floor_root 2 [2] _ 2 squares_upto_2
             (mk_row 2 2 3 1 (S754_finite false 8006399337547548 (-56)) 2)
             ltac:(lia) squares_upto_2_run eq_refl Hin Hbr 2).
    lia.
  - apply (bracketed_candidate_is_nearest floor_root 2 [2] _ 2 squares_upto_2
             (mk_row 2 2 3 1 (S754_finite false 8006399337547548 (-56)) 2)
             ltac:(lia) squares_upto_2_run eq_refl Hin Hbr 3).
    lia.
Defined.

Lemma bracketed_candidate_range_witness :
  Z.max 2 2 <= 3 <= 2 * Z.max 2 2 /\ 3 <= 2 * 2.
Proof.
  assert (Hin : mk_row 2 2 3 1 (S754_finite false 8006399337547548 (-56)) 2
                  ∈ squares_upto_2)
    by (apply list_elem_of_lookup; exists 3%nat; reflexivity).
  assert (Hbr : let s := 2 ^ 2 + 2 ^ 2 in
                let c_low := floor_root s 2 in
                0 <= c_low /\ c_low ^ 2 <= s < (c_low + 1) ^ 2)
    by (vm_compute; repeat split; (reflexivity || (intro; discriminate))).
  exact (bracketed_candidate_range floor_root 2 [2] _ 2 squares_upto_2
           (mk_row 2 2 3 1 (S754_finite false 8006399337547548 (-56)) 2)
           ltac:(lia) squares_upto_2_run eq_refl Hin Hbr).
Defined.

(** The triple (3, 4, 5): [floor_root 25 2] is 5. *)
Lemma bracketed_exact_solution_found_witness :
  (forall n_values results rows,
     generate_test_cases floor_root 5 n_values = Ok results ->
     results !! 2 = Some rows ->
     3 <= Z.min 5 30 -> 4 <= Z.min 5 30 ->
     mk_row 3 4 5 0 zero 2 ∈ rows) /\
  (forall t sols,
     find_near_solutions floor_root 5 2 t = Ok sols ->
     leb zero t = true ->
     3 <= 5 -> 4 <= 5 -> 5 <= 5 ->
     mk_near_solution 3 4 5 0 zero ∈ sols).
Proof.
  apply (bracketed_exact_solution_found floor_root 5 2 3 4 5);
    try lia; try reflexivity.
  left. reflexivity.
Defined.

Lemma grid_symmetric_witness :
  exists grid,
    grid_rows floor_root 2 2 = Ok grid /\
    (2 <> 2 -> squares_upto_2 = grid) /\
    forall a b c error rel_error,
      mk_row a b c error rel_error 2 ∈ grid ->
      mk_row b a c error rel_error 2 ∈ grid.
Proof.
  exact (grid_symmetric floor_root 2 [2] _ 2 squares_upto_2
           ltac:(lia) squares_upto_2_run eq_refl).
Defined.

Lemma pair_emitted_at_most_twice_witness :
  exists grid exact,
    grid_rows floor_root 5 2 = Ok grid /\
    exact_solutions 5 2 = Ok exact /\
    squares_upto_5 = grid ++ exact /\
    NoDup ((fun r => (row_a r, row_b r)) <$> exact) /\
    forall a b,
      (length (filter (fun r => (row_a r, row_b r) = (a, b)) squares_upto_5)
       <= 2)%nat.
Proof.
  exact (pair_emitted_at_most_twice floor_root 5 [2] _ squares_upto_5
           squares_upto_5_run eq_refl).
Defined.

Lemma result_sizes_bounded_witness :
  (forall n_values results rows,
     generate_test_cases floor_root 50 n_values = Ok results ->
     results !! 3 = Some rows -> 3 <> 2 ->
     Z.of_nat (length rows) <= 900) /\
  (forall error_threshold sols,
     find_near_solutions floor_root 50 3 error_threshold = Ok sols ->
     Z.of_nat (length sols) <= 2 * Z.max 0 50 ^ 2).
Proof.
  apply (result_sizes_bounded floor_root 50 3). lia.
Defined.

Lemma batch_rows_are_near_solutions_witness :
  mk_near_solution 1 3 3 1 (S754_finite false 5337599558365032 (-57))
    ∈ near_cubes_upto_3.
Proof.
  apply (batch_rows_are_near_solutions floor_root 3 [3] _ 3 cubes_upto_3
           near_cubes_upto_3
           (mk_row 1 3 3 1 (S754_finite false 5337599558365032 (-57)) 3)
           ltac:(lia) cubes_upto_3_run eq_refl near_cubes_upto_3_run).
  - left.
  - simpl. lia.
Defined.

Lemma near_solutions_distinct_triples_witness :
  NoDup ((fun s => (near_a s, near_b s, near_c s)) <$> near_squares_upto_3) /\
  NoDup near_squares_upto_3.
Proof.
  exact (near_solutions_distinct_triples floor_root 3 2 one near_squares_upto_3
           ltac:(lia) near_squares_upto_3_run).
Defined.

(** [find_near_solutions(2, 2, 1.0)] against [find_near_solutions(3, 2, 1.0)]. *)
Lemma near_solutions_bound_monotone_witness :
  exists sols1,
    find_near_solutions floor_root 2 2 one = Ok sols1 /\
    forall s, s ∈ sols1 <->
              s ∈ near_squares_upto_3 /\
              near_a s <= 2 /\ near_b s <= 2 /\ near_c s <= 2.
Proof.
  exact (near_solutions_bound_monotone floor_root 2 3 2 one near_squares_upto_3
           ltac:(lia) ltac:(lia) near_squares_upto_3_run).
Defined.

(** [find_near_solutions(5, 2, 0.0)] returns (3, 4, 5) and (4, 3, 5). *)
Lemma zero_threshold_gives_exact_solutions_witness :
  3 ^ 2 + 4 ^ 2 = 5 ^ 2 /\ 0 = 0 /\ zero = zero.
Proof.
  assert (Hrun : find_near_solutions floor_root 5 2 zero
                 = Ok [mk_near_solution 3 4 5 0 zero;
                       mk_near_solution 4 3 5 0 zero])
    by (vm_compute; reflexivity).
  assert (Hb : 5 ^ 2 < 2 ^ 1021) by (vm_compute; reflexivity).
  apply (zero_threshold_gives_exact_solutions floor_root 5 2 _
           (mk_near_solution 3 4 5 0 zero) ltac:(lia) Hb Hrun).
  left.
Defined.


Lemma exact_and_approx_partition_witness :
  (squares_upto_5 = [] ->
   Visualization.exact squares_upto_5 = None /\
   Visualization.approx squares_upto_5 = None /\
   Visualization.exact_count squares_upto_5 = None) /\
  (squares_upto_5 <> [] ->
   exists ex ap,
     Visualization.exact squares_upto_5 = Some ex /\
     Visualization.approx squares_upto_5 = Some ap /\
     Visualization.exact_count squares_upto_5 = Some (length ex) /\
     ex ++ ap ≡ₚ squares_upto_5 /\
     (forall r, r ∈ ex <->
                r ∈ squares_upto_5 /\
                row_a r ^ 2 + row_b r ^ 2 = row_c r ^ 2) /\
     (forall r, r ∈ ap <->
                r ∈ squares_upto_5 /\
                row_a r ^ 2 + row_b r ^ 2 <> row_c r ^ 2)).
Proof.
  exact (exact_and_approx_partition floor_root 5 [2] _ 2 squares_upto_5
           ltac:(lia) squares_upto_5_run eq_refl).
Defined.

(** The row (3, 4, 5) with error 0 and the row (1, 1, 1) with relative
    error 1.0 of [generate_test_cases(5, [2])[2]]. *)
Lemma marker_sizes_valid_witness :
  (Visualization.error_for_color zero = one /\
   Visualization.df_sizes zero = Visualization.fifty) /\
  (Visualization.error_for_color one = zero /\
   Visualization.df_sizes one = zero).
Proof.
  split.
  - apply (marker_sizes_valid floor_root 5 [2] _ 2 squares_upto_5
             (mk_row 3 4 5 0 zero 2) ltac:(lia) squares_upto_5_run eq_refl).
    + apply list_elem_of_lookup. exists 13%nat. reflexivity.
    + reflexivity.
  - apply (marker_sizes_valid floor_root 5 [2] _ 2 squares_upto_5
             (mk_row 1 1 1 1 one 2) ltac:(lia) squares_upto_5_run eq_refl).
    + left.
    + reflexivity.
Defined.

